(** * RedditSource: record store, rate limiter, collector and analyzers

    A shallow embedding of [Model/db_context.py] (class [DBContext]) and of
    [examples.py] (classes [RateLimiter], [RedditDataCollector],
    [EngagementAnalyzer], [SentimentAnalyzer], [TopicExtractor]).

    Conventions of the embedding.
    - A Python [Optional[T]] argument or nullable column is an [option T];
      [None] is the omitted argument / SQL NULL.
    - Python [float] values are idealised as exact rationals ([Q]).
    - A [str] is a [string] whose characters are the code points below
      256 (ASCII and the Latin-1 supplement); text with other code points
      is not represented.
    - [datetime] values are integers counting microseconds, the resolution
      of [datetime] and [timedelta].
    - A call that reads the clock takes the reading as an argument. *)

From Stdlib Require Import ZArith QArith Qminmax List String Ascii Bool Lia Lqa.
From Stdlib Require Import Permutation Sorted.
Import ListNotations.

Set Implicit Arguments.

(* ====================================================================== *)
(** * Shared helpers *)
(* ====================================================================== *)

Module Py.

(** Stable insertion sort by a boolean order; [sorted(...)], the sort of
    [Counter.most_common] and SQL [ORDER BY] over rows in rowid order are
    all modelled by it (equal keys keep their input order). *)
Section Sort.
Variable A : Type.
Variable leb : A -> A -> bool.

Fixpoint insert (x : A) (l : list A) : list A :=
  match l with
  | [] => [x]
  | y :: l' => if leb x y then x :: l else y :: insert x l'
  end.

Fixpoint sort (l : list A) : list A :=
  match l with
  | [] => []
  | x :: l' => insert x (sort l')
  end.
End Sort.

(** The exceptions the modelled code can raise. *)
Inductive exn : Type :=
  | IndexError
  | ValueError (msg : string)
  | SourceError (msg : string)
  | ArgumentError.

(** The outcome of a call: it returns a value or an exception leaves it. *)
Inductive result (A : Type) : Type :=
  | Returns (a : A)
  | Raises (e : exn).

Arguments Returns {A} a.
Arguments Raises {A} e.

(** The slice [l[:n]]: the first [n] items, and for a negative [n] all
    but the last [-n]. *)
Definition slice_to (A : Type) (n : Z) (l : list A) : list A :=
  if (n <? 0)%Z
  then firstn (List.length l - Z.to_nat (- n)) l
  else firstn (Z.to_nat n) l.

End Py.

(* ====================================================================== *)
(** * Model/db_context.py: DBContext *)
(* ====================================================================== *)

Module Store.

Local Open Scope Z_scope.

(** [Dict[str, Any]] restricted to integer scores, in insertion order. *)
Definition score_dict := list (string * Z).

(** Modelled from the spec: the ORM class [RedditSource] of
    [Model/reddit_source.py], which is not part of the sources at hand.
    Section 3 of the specification gives its columns: a surrogate [id]
    assigned by the store, the natural key ([source], [source_id]) with a
    uniqueness constraint, [title], the nullable [description], [tags] and
    [score], the encoded metrics column, [processed] (default false) and
    the timestamps [created_at] (set once at creation) and [updated_at]
    (refreshed on every mutating operation).  The metrics column is
    represented by the mapping it encodes. *)
Record RedditSource : Type := mkRedditSource {
  id : Z;
  source : string;
  source_id : string;
  title : string;
  description : option string;
  tags : option string;
  score : option Q;
  score_dictionary : option score_dict;
  processed : bool;
  created_at : Z;
  updated_at : Z
}.

(** Modelled from the spec: [RedditSource.set_score_dict], which stores
    the encoded mapping in the metrics column. *)
Definition set_score_dict (r : RedditSource) (d : score_dict) : RedditSource :=
  mkRedditSource (id r) (source r) (source_id r) (title r) (description r)
    (tags r) (score r) (Some d) (processed r) (created_at r) (updated_at r).

(** Modelled from the spec: decoding on read, an absent blob decodes to
    the empty mapping. *)
Definition get_score_dict (r : RedditSource) : score_dict :=
  match score_dictionary r with
  | Some d => d
  | None => []
  end.

(** The table: its rows in rowid order. *)
Definition table := list RedditSource.

(** Field setters, one per assignment [record.f = v] of [update]. *)
Definition set_title (r : RedditSource) (v : string) : RedditSource :=
  mkRedditSource (id r) (source r) (source_id r) v (description r)
    (tags r) (score r) (score_dictionary r) (processed r) (created_at r)
    (updated_at r).

Definition set_description (r : RedditSource) (v : string) : RedditSource :=
  mkRedditSource (id r) (source r) (source_id r) (title r) (Some v)
    (tags r) (score r) (score_dictionary r) (processed r) (created_at r)
    (updated_at r).

Definition set_tags (r : RedditSource) (v : string) : RedditSource :=
  mkRedditSource (id r) (source r) (source_id r) (title r) (description r)
    (Some v) (score r) (score_dictionary r) (processed r) (created_at r)
    (updated_at r).

Definition set_score (r : RedditSource) (v : Q) : RedditSource :=
  mkRedditSource (id r) (source r) (source_id r) (title r) (description r)
    (tags r) (Some v) (score_dictionary r) (processed r) (created_at r)
    (updated_at r).

Definition set_processed (r : RedditSource) (v : bool) : RedditSource :=
  mkRedditSource (id r) (source r) (source_id r) (title r) (description r)
    (tags r) (score r) (score_dictionary r) v (created_at r) (updated_at r).

(** The row with [updated_at] set to [now]. *)
Definition touch (r : RedditSource) (now : Z) : RedditSource :=
  mkRedditSource (id r) (source r) (source_id r) (title r) (description r)
    (tags r) (score r) (score_dictionary r) (processed r) (created_at r) now.

(** Equality of the values of two attributes, as [==] has it: of two
    optional values, of two floats and of two mappings (in the order of
    their keys, which is the order of their encoding). *)
Definition same_opt (A : Type) (same : A -> A -> bool) (a b : option A)
    : bool :=
  match a, b with
  | Some x, Some y => same x y
  | None, None => true
  | _, _ => false
  end.

Fixpoint same_dict (a b : score_dict) : bool :=
  match a, b with
  | [], [] => true
  | (k, v) :: a', (k', v') :: b' =>
      String.eqb k k' && (v =? v') && same_dict a' b'
  | _, _ => false
  end.

(** No column that [update] assigns has another value in [r] than in
    [stored]. *)
Definition unchanged (stored r : RedditSource) : bool :=
  String.eqb (title stored) (title r)
  && same_opt String.eqb (description stored) (description r)
  && same_opt String.eqb (tags stored) (tags r)
  && same_opt Qeq_bool (score stored) (score r)
  && same_opt same_dict (score_dictionary stored) (score_dictionary r)
  && Bool.eqb (processed stored) (processed r).

(** Modelled from the spec: the refresh of [updated_at], which the
    declaration of the column in [RedditSource] attaches to the UPDATE of
    a row; no method of [DBContext] assigns the column itself.
    [session.commit()], for a row found as [stored] and assigned to as
    [r], writes an UPDATE only when some column has a new value. *)
Definition commit (now : Z) (stored r : RedditSource) : RedditSource :=
  if unchanged stored r then r else touch r now.

(** [if v is not None: record.f = v] *)
Definition assign_if (A : Type) (set : RedditSource -> A -> RedditSource)
    (v : option A) (r : RedditSource) : RedditSource :=
  match v with
  | Some a => set r a
  | None => r
  end.

(** [filter_by(source=..., source_id=...)] *)
Definition has_key (s sid : string) (r : RedditSource) : bool :=
  String.eqb (source r) s && String.eqb (source_id r) sid.

(** Modelled from the spec: the surrogate key handed out by the storage
    engine, one more than the largest [id] in the table. *)
Definition next_id (db : table) : Z :=
  1 + fold_right (fun r m => Z.max (id r) m) 0 db.

(** Python truthiness of a dict: the empty dict is falsy. *)
Definition truthy (d : score_dict) : bool :=
  match d with
  | [] => false
  | _ :: _ => true
  end.

(** [DBContext.create]: [None] is the outcome of the [IntegrityError]
    branch (the uniqueness constraint on the natural key rejected the
    INSERT and the session was rolled back). *)
Definition create (db : table) (now : Z) (s sid : string) (ttl : string)
    (dsc : option string) (tgs : option string) (sc : option Q)
    (sd : option score_dict) : option RedditSource * table :=
  let record :=
    mkRedditSource (next_id db) s sid ttl dsc tgs sc None false now now in
  let record :=
    match sd with
    | Some d => if truthy d then set_score_dict record d else record
    | None => record
    end in
  if existsb (has_key s sid) db
  then (None, db)
  else (Some record, (db ++ [record])%list).

(** [DBContext.read]: [query.filter_by(...).first()]. *)
Definition read (db : table) (s sid : string) : option RedditSource :=
  find (has_key s sid) db.

(** [DBContext.read_by_id] *)
Definition read_by_id (db : table) (record_id : Z) : option RedditSource :=
  find (fun r => (id r =? record_id)%Z) db.

(** The assignments of [update] applied to the row found. *)
Definition assign (ttl dsc tgs : option string)
    (sc : option Q) (sd : option score_dict) (pr : option bool)
    (r : RedditSource) : RedditSource :=
  let r := assign_if set_title ttl r in
  let r := assign_if set_description dsc r in
  let r := assign_if set_tags tgs r in
  let r := assign_if set_score sc r in
  let r := assign_if set_score_dict sd r in
  assign_if set_processed pr r.

(** The assignments, then the commit. *)
Definition apply_update (now : Z) (ttl dsc tgs : option string)
    (sc : option Q) (sd : option score_dict) (pr : option bool)
    (r : RedditSource) : RedditSource :=
  commit now r (assign ttl dsc tgs sc sd pr r).

(** The row selected by [.first()] replaced in place. *)
Fixpoint replace_first (p : RedditSource -> bool)
    (f : RedditSource -> RedditSource) (db : table) : table :=
  match db with
  | [] => []
  | r :: db' => if p r then f r :: db' else r :: replace_first p f db'
  end.

(** [DBContext.update]: [None] when no row has the natural key. *)
Definition update (db : table) (now : Z) (s sid : string)
    (ttl dsc tgs : option string) (sc : option Q)
    (sd : option score_dict) (pr : option bool)
    : option RedditSource * table :=
  match find (has_key s sid) db with
  | Some record =>
      (Some (apply_update now ttl dsc tgs sc sd pr record),
       replace_first (has_key s sid) (apply_update now ttl dsc tgs sc sd pr) db)
  | None => (None, db)
  end.

(** [DBContext.upsert] *)
Definition upsert (db : table) (now : Z) (s sid : string) (ttl : string)
    (dsc : option string) (tgs : option string) (sc : option Q)
    (sd : option score_dict) : option RedditSource * table :=
  match read db s sid with
  | Some _ => update db now s sid (Some ttl) dsc tgs sc sd None
  | None => create db now s sid ttl dsc tgs sc sd
  end.

(** The first row satisfying [p] removed. *)
Fixpoint remove_first (p : RedditSource -> bool) (db : table) : table :=
  match db with
  | [] => []
  | r :: db' => if p r then db' else r :: remove_first p db'
  end.

(** [DBContext.delete] *)
Definition delete (db : table) (s sid : string) : bool * table :=
  match find (has_key s sid) db with
  | Some _ => (true, remove_first (has_key s sid) db)
  | None => (false, db)
  end.

(** [DBContext.count] *)
Definition count (db : table) : Z := Z.of_nat (List.length db).

(** [DBContext.count_by_source] *)
Definition count_by_source (db : table) (s : string) : Z :=
  Z.of_nat (List.length (filter (fun r => String.eqb (source r) s) db)).

(** [DBContext.clear_all] *)
Definition clear_all (db : table) : Z * table := (count db, []).

(** ** Listing *)

(** A value of a column as the storage engine compares it: NULL sorts
    before every number, and numbers before every text. *)
Inductive sqlval : Type :=
  | SqlNull
  | SqlNum (q : Q)
  | SqlText (t : string).

Definition sql_leb (a b : sqlval) : bool :=
  match a, b with
  | SqlNull, _ => true
  | _, SqlNull => false
  | SqlNum x, SqlNum y => Qle_bool x y
  | SqlNum _, SqlText _ => true
  | SqlText _, SqlNum _ => false
  | SqlText x, SqlText y => String.leb x y
  end.

Definition column := RedditSource -> sqlval.

Definition sql_opt (A : Type) (f : A -> sqlval) (v : option A) : sqlval :=
  match v with
  | Some a => f a
  | None => SqlNull
  end.

Definition sql_int (z : Z) : sqlval := SqlNum (inject_Z z).

(** What [asc] and [desc] make of an attribute of the class: the column
    to order by, or the exception they raise for what is no column. *)
Definition attribute : Type := Py.result column.

(** The methods of [RedditSource] that the sources call on a record;
    [asc] and [desc] of a function raise [ArgumentError]. *)
Definition methods : list string :=
  ["set_score_dict"; "get_score_dict"; "to_dict"]%string.

Section Listing.

(** The text encoding of the metrics mapping is opaque to the store. *)
Variable encode : score_dict -> string.

(** The further attributes of the class [RedditSource], by name (what its
    declaration and the declarative base add to the columns and to the
    methods above), each with what [asc] and [desc] make of it; the class
    is not among the sources. *)
Variable further_attribute : string -> option attribute.

(** Modelled from the spec: the column attributes of the class
    [RedditSource], by name. *)
Definition columns : list (string * column) :=
  [ ("id"%string, fun r => sql_int (id r));
    ("source"%string, fun r => SqlText (source r));
    ("source_id"%string, fun r => SqlText (source_id r));
    ("title"%string, fun r => SqlText (title r));
    ("description"%string, fun r => sql_opt SqlText (description r));
    ("tags"%string, fun r => sql_opt SqlText (tags r));
    ("score"%string, fun r => sql_opt SqlNum (score r));
    ("score_dictionary"%string,
       fun r => sql_opt (fun d => SqlText (encode d)) (score_dictionary r));
    ("processed"%string, fun r => sql_int (if processed r then 1 else 0));
    ("created_at"%string, fun r => sql_int (created_at r));
    ("updated_at"%string, fun r => sql_int (updated_at r)) ].

(** [RedditSource.score] *)
Definition score_column : column := fun r => sql_opt SqlNum (score r).

(** [getattr(RedditSource, name, default)]: the attribute of that name,
    and [default] when the class has none. *)
Definition getattr (name : string) (default : attribute) : attribute :=
  match find (fun a => String.eqb (fst a) name) columns with
  | Some (_, c) => Py.Returns c
  | None =>
      if existsb (String.eqb name) methods then Py.Raises Py.ArgumentError
      else match further_attribute name with
           | Some a => a
           | None => default
           end
  end.

(** [asc(column)] and [desc(column)] as the order the rows are put in. *)
Definition asc (c : column) (a b : RedditSource) : bool :=
  sql_leb (c a) (c b).

Definition desc (c : column) (a b : RedditSource) : bool :=
  sql_leb (c b) (c a).

(** [query.limit(n)]: a negative LIMIT is no limit for the engine. *)
Definition sql_limit (n : Z) (rows : list RedditSource) : list RedditSource :=
  if n <? 0 then rows else firstn (Z.to_nat n) rows.

(** [DBContext.list_all]; what [asc] or [desc] raises leaves the call. *)
Definition list_all (db : table) (limit : option Z) (order_by : string)
    (ascending : bool) : Py.result (list RedditSource) :=
  match getattr order_by (Py.Returns score_column) with
  | Py.Raises e => Py.Raises e
  | Py.Returns order_column =>
      let query :=
        if ascending then Py.sort (asc order_column) db
        else Py.sort (desc order_column) db in
      Py.Returns
        match limit with
        | Some n => if n =? 0 then query else sql_limit n query
        | None => query
        end
  end.


End Listing.

(** ** The store as a state machine *)

(** The mutating calls of [DBContext]. *)
Inductive call : Type :=
  | Create (now : Z) (s sid ttl : string) (dsc tgs : option string)
      (sc : option Q) (sd : option score_dict)
  | Update (now : Z) (s sid : string) (ttl dsc tgs : option string)
      (sc : option Q) (sd : option score_dict) (pr : option bool)
  | Upsert (now : Z) (s sid ttl : string) (dsc tgs : option string)
      (sc : option Q) (sd : option score_dict)
  | Delete (s sid : string)
  | ClearAll.

(** The table a call leaves. *)
Definition step (db : table) (c : call) : table :=
  match c with
  | Create now s sid ttl dsc tgs sc sd =>
      snd (create db now s sid ttl dsc tgs sc sd)
  | Update now s sid ttl dsc tgs sc sd pr =>
      snd (update db now s sid ttl dsc tgs sc sd pr)
  | Upsert now s sid ttl dsc tgs sc sd =>
      snd (upsert db now s sid ttl dsc tgs sc sd)
  | Delete s sid => snd (delete db s sid)
  | ClearAll => snd (clear_all db)
  end.

(** The tables reached from the empty one. *)
Definition reachable (db : table) : Prop :=
  exists calls : list call, db = fold_left step calls [].

(** ** Predicates used to state the properties of the store *)

(** The uniqueness constraint on the natural key. *)
Definition natural_key (r : RedditSource) : string * string :=
  (source r, source_id r).

Definition unique_keys (db : table) : Prop := NoDup (map natural_key db).

(** Number of rows with a given natural key. *)
Definition count_key (db : table) (s sid : string) : Z :=
  Z.of_nat (List.length (filter (has_key s sid) db)).

(** What a caller reads for an optional metrics argument. *)
Definition dict_or_empty (sd : option score_dict) : score_dict :=
  match sd with
  | Some d => d
  | None => []
  end.

(** The row holds exactly the arguments of a call. *)
Definition holds_arguments (r : RedditSource) (s sid ttl : string)
    (dsc tgs : option string) (sc : option Q) (sd : option score_dict) : Prop :=
  source r = s /\ source_id r = sid /\ title r = ttl /\
  description r = dsc /\ tags r = tgs /\ score r = sc /\
  get_score_dict r = dict_or_empty sd.

(** The row holds every argument that was supplied. *)
Definition holds_supplied (r : RedditSource) (s sid ttl : string)
    (dsc tgs : option string) (sc : option Q) (sd : option score_dict) : Prop :=
  source r = s /\ source_id r = sid /\ title r = ttl /\
  (forall v, dsc = Some v -> description r = Some v) /\
  (forall v, tgs = Some v -> tags r = Some v) /\
  (forall v, sc = Some v -> score r = Some v) /\
  (forall d, sd = Some d -> get_score_dict r = d).

(** The omitted arguments left the fields of [r0] as they were. *)
Definition keeps_omitted (r0 r : RedditSource)
    (dsc tgs : option string) (sc : option Q) (sd : option score_dict) : Prop :=
  (dsc = None -> description r = description r0) /\
  (tgs = None -> tags r = tags r0) /\
  (sc = None -> score r = score r0) /\
  (sd = None -> score_dictionary r = score_dictionary r0).

(** Two [create] calls with one natural key and the titles [ttl1] and
    [ttl2] leave one record with that key, holding the first call's
    fields; the second call is a conflict and changes nothing. *)
Definition create_twice_keeps_first (db : table) (now1 now2 : Z)
    (s sid ttl1 ttl2 : string) (dsc tgs : option string) (sc : option Q)
    (sd : option score_dict) : Prop :=
  let (_, db1) := create db now1 s sid ttl1 dsc tgs sc sd in
  let (o2, db2) := create db1 now2 s sid ttl2 dsc tgs sc sd in
  o2 = None /\ db2 = db1 /\ count_key db2 s sid = 1 /\
  exists r : RedditSource,
    read db2 s sid = Some r /\ holds_arguments r s sid ttl1 dsc tgs sc sd.

(** Two [upsert] calls with the same arguments leave one record with the
    natural key, whose fields equal the arguments; the count grows by one
    with the first call when the key was new, and not with the second. *)
Definition upsert_twice_holds_arguments (db : table) (now1 now2 : Z)
    (s sid ttl : string) (dsc tgs : option string) (sc : option Q)
    (sd : option score_dict) : Prop :=
  let (_, db1) := upsert db now1 s sid ttl dsc tgs sc sd in
  let (_, db2) := upsert db1 now2 s sid ttl dsc tgs sc sd in
  count_key db2 s sid = 1 /\
  (read db s sid = None -> count db1 = count db + 1) /\
  count db2 = count db1 /\
  exists r : RedditSource,
    read db2 s sid = Some r /\ holds_arguments r s sid ttl dsc tgs sc sd.

(** A field after [update]: the argument when one was supplied, the
    prior value when it was omitted. *)
Definition overwritten (A : Type) (arg : option A) (prior after : A) : Prop :=
  match arg with
  | Some v => after = v
  | None => after = prior
  end.

(** The same for a nullable column. *)
Definition overwritten_opt (A : Type) (arg : option A)
    (prior after : option A) : Prop :=
  match arg with
  | Some v => after = Some v
  | None => after = prior
  end.

(** Every argument supplied to an [update] is the value the row holds
    already. *)
Definition supplies_stored (ttl dsc tgs : option string) (sc : option Q)
    (sd : option score_dict) (pr : option bool) (r0 : RedditSource) : Prop :=
  (forall v, ttl = Some v -> title r0 = v) /\
  (forall v, dsc = Some v -> description r0 = Some v) /\
  (forall v, tgs = Some v -> tags r0 = Some v) /\
  (forall v, sc = Some v -> exists v0, score r0 = Some v0 /\ (v0 == v)%Q) /\
  (forall v, sd = Some v -> score_dictionary r0 = Some v) /\
  (forall v, pr = Some v -> processed r0 = v).

(** An [update] that succeeds returns its record with [updated_at]
    refreshed. *)
Definition update_refreshes (db : table) (now : Z) (s sid : string)
    (ttl dsc tgs : option string) (sc : option Q) (sd : option score_dict)
    (pr : option bool) : Prop :=
  forall (r : RedditSource) (db' : table),
    update db now s sid ttl dsc tgs sc sd pr = (Some r, db') ->
    updated_at r = now.

(** ** Sample data *)

(** A row of source [reddit] as [create] would have stored it. *)
Definition sample_row (i : Z) (sid ttl : string) (dsc : option string)
    (sc : Q) : RedditSource :=
  mkRedditSource i "reddit" sid ttl dsc None (Some sc) None false 0 0.

(** Three rows with the scores 10, 50 and 30. *)
Definition sample_db : table :=
  [ sample_row 1 "a1" "T1" (Some "D1"%string) (10 # 1);
    sample_row 2 "b2" "T2" None (50 # 1);
    sample_row 3 "c3" "T3" None (30 # 1) ].


(** ** Loading a batch *)

(** The keyword arguments of one [db.upsert] of the loading loop, with
    the reading of the clock at the call. *)
Record item : Type := mkItem {
  i_now : Z;
  i_source : string;
  i_source_id : string;
  i_title : string;
  i_description : option string;
  i_tags : option string;
  i_score : option Q;
  i_score_dictionary : option score_dict
}.

Definition item_key (i : item) : string * string :=
  (i_source i, i_source_id i).

(** One turn of the loop of [example_api_usage.main] that upserts each
    post of a list, and the loop. *)
Definition upsert_item (db : table) (i : item) : table :=
  snd (upsert db (i_now i) (i_source i) (i_source_id i) (i_title i)
         (i_description i) (i_tags i) (i_score i) (i_score_dictionary i)).

Definition upsert_each (db : table) (posts : list item) : table :=
  fold_left upsert_item posts db.

(** The row without the time of its last update. *)
Definition but_updated_at (r : RedditSource) : RedditSource := touch r 0.

(** The argument in force after two updates: the later one when it was
    supplied, the earlier one otherwise. *)
Definition later (A : Type) (second first : option A) : option A :=
  match second with
  | Some _ => second
  | None => first
  end.

(** The natural keys are those of a list of pairs without repetition. *)
Definition key_eq_dec (a b : string * string) : {a = b} + {a <> b}.
Proof. decide equality; apply string_dec. Defined.

End Store.

(* ====================================================================== *)
(** * examples.py: RateLimiter *)
(* ====================================================================== *)

Module Limiter.

Local Open Scope Z_scope.

(** [timedelta(seconds=n)], in microseconds. *)
Definition seconds (n : Z) : Z := n * 1000000.

(** The safety margin [0.1] added to the sleep, in microseconds. *)
Definition margin : Z := 100000.

Record RateLimiter : Type := mkRateLimiter {
  max_requests : Z;
  time_window : Z;
  requests : list Z
}.

(** [RateLimiter.__init__] *)
Definition init (max_requests time_window : Z) : RateLimiter :=
  mkRateLimiter max_requests time_window [].

Definition set_requests (self : RateLimiter) (l : list Z) : RateLimiter :=
  mkRateLimiter (max_requests self) (time_window self) l.

(** [RateLimiter.wait_if_needed], entered when the clock reads [now].
    It returns the limiter after the call and the time spent in
    [time.sleep], or raises [IndexError] from [self.requests[0]]. *)
Definition wait_if_needed (self : RateLimiter) (now : Z)
    : Py.result (RateLimiter * Z) :=
  let cutoff := now - seconds (time_window self) in
  let reqs := filter (fun req => cutoff <? req) (requests self) in
  if max_requests self <=? Z.of_nat (List.length reqs) then
    match reqs with
    | [] => Py.Raises Py.IndexError
    | oldest :: _ =>
        let sleep_time := oldest + seconds (time_window self) - now in
        if 0 <? sleep_time
        then Py.Returns (set_requests self [now], sleep_time + margin)
        else Py.Returns (set_requests self (reqs ++ [now]), 0)
    end
  else Py.Returns (set_requests self (reqs ++ [now]), 0).

(** One admitted call as an observer sees it: the timestamp the limiter
    recorded for it, the instant the call returned to its caller, and the
    window the limiter held at that instant. *)
Record admission : Type := mkAdmission {
  recorded : Z;
  returned : Z;
  held : list Z
}.

(** A caller issuing one call after another: before each call it lets
    [gap] microseconds pass (zero for back-to-back calls); the clock
    advances by the time slept inside the call.  The result is the limiter,
    the clock and the admissions at the end. *)
Fixpoint run (self : RateLimiter) (clock : Z) (gaps : list Z)
    : Py.result (RateLimiter * Z * list admission) :=
  match gaps with
  | [] => Py.Returns (self, clock, [])
  | gap :: gaps' =>
      let now := clock + gap in
      match wait_if_needed self now with
      | Py.Raises e => Py.Raises e
      | Py.Returns (self', slept) =>
          match run self' (now + slept) gaps' with
          | Py.Raises e => Py.Raises e
          | Py.Returns (self'', clock', adms) =>
              Py.Returns (self'', clock',
                          mkAdmission now (now + slept) (requests self') :: adms)
          end
      end
  end.

(** Number of the timestamps [ts] inside the trailing slice of [w]
    microseconds that ends at [t]. *)
Definition in_slice (w t x : Z) : bool := (t - w <? x) && (x <=? t).

Definition slice_count (w : Z) (ts : list Z) (t : Z) : Z :=
  Z.of_nat (List.length (filter (in_slice w t) ts)).

(** No trailing slice holds more than [m] of the timestamps [ts]; the
    slices ending at one of the timestamps are the fullest ones. *)
Definition slices_bounded (m w : Z) (ts : list Z) : bool :=
  forallb (fun t => slice_count w ts t <=? m) ts.

(** The bound as a property of a run: no trailing window holds more
    than [max_requests] of the observed timestamps of its admissions. *)
Definition never_exceeds (observe : admission -> Z) (self : RateLimiter)
    (clock : Z) (gaps : list Z) : Prop :=
  forall (rl : RateLimiter) (t : Z) (adms : list admission),
    run self clock gaps = Py.Returns (rl, t, adms) ->
    slices_bounded (max_requests self) (seconds (time_window self))
      (map observe adms) = true.

(** The timestamps of [self.requests] that the filter keeps at [now]. *)
Definition kept (self : RateLimiter) (now : Z) : list Z :=
  filter (fun req => now - seconds (time_window self) <? req) (requests self).

(** What an admission shows of the window: at most [m] timestamps held,
    each newer than the start of the trailing window of [w] seconds of
    the call (or the timestamp of the call itself), and the call returned
    no earlier than it was entered. *)
Definition within_bound (m w : Z) (a : admission) : Prop :=
  Z.of_nat (List.length (held a)) <= m /\
  Forall (fun x => recorded a - seconds w < x \/ x = recorded a) (held a) /\
  recorded a <= returned a.

(** Every timestamp held after the call lies in the trailing window of
    [w] seconds of the call: newer than its start and not after the call. *)
Definition inside_window (w : Z) (a : admission) : Prop :=
  Forall (fun x => recorded a - seconds w < x <= recorded a) (held a).

(** While the first timestamp [a1] is still held and no call has slept,
    the window holds [k] timestamps, none before [a1]. *)
Definition pending (a1 : Z) (k : nat) (l : list Z) : Prop :=
  (exists rest, l = a1 :: rest) /\ List.length l = k /\
  Forall (fun x => a1 <= x) l.

(** The sum of the gaps: the time a caller lets pass by itself. *)
Definition total (gaps : list Z) : Z := fold_right Z.add 0 gaps.

End Limiter.

(* ====================================================================== *)
(** * examples.py: RedditDataCollector *)
(* ====================================================================== *)

Module Collector.

Local Open Scope Z_scope.

(** A submission as the client library hands it over. *)
Record submission : Type := mkSubmission {
  s_id : string;
  s_title : string;
  s_selftext : string;
  s_url : string;
  s_permalink : string;
  s_score : Z;
  s_upvote_ratio : Q;
  s_num_comments : Z;
  s_created_utc : Q;
  s_subreddit : string;
  s_author : option string;
  s_link_flair_text : option string;
  s_gilded : Z;
  s_stickied : bool;
  s_over_18 : bool;
  s_is_self : bool;
  s_domain : string
}.

(** The dictionary built by [_extract_post_data], one field per key. *)
Record post : Type := mkPost {
  id : string;
  title : string;
  selftext : string;
  url : string;
  permalink : string;
  score : Z;
  upvote_ratio : Q;
  num_comments : Z;
  created_utc : Q;
  created_datetime : string;
  subreddit : string;
  author : string;
  flair : option string;
  gilded : Z;
  stickied : bool;
  over_18 : bool;
  is_self : bool;
  domain : string
}.

(** The listing a call asks the client for. *)
Inductive listing : Type :=
  | Hot (limit : Z)
  | New (limit : Z)
  | Top (time_filter : string) (limit : Z)
  | Rising (limit : Z).

(** The records written to the logger. *)
Inductive log_record : Type :=
  | InfoCollected (n : nat) (subreddit_name : string)
  | ErrorCollecting (subreddit_name : string) (e : Py.exn).

(** What a call of [collect_posts] leaves behind: the list returned, the
    rate limiter, the time slept, the listings requested from the client
    and the log. *)
Record collected : Type := mkCollected {
  posts : list post;
  rate_limiter : Limiter.RateLimiter;
  slept : Z;
  requested : list (string * listing);
  logged : list log_record
}.

Section Client.

(** [self.reddit.subreddit(name)]: the subreddit the client hands over for
    a name (it resolves some names by a request of its own), or the
    exception the call raises. *)
Variable reddit_subreddit : string -> Py.result string.

(** The client library: the submissions a listing of a subreddit yields
    and the exception that ends the iteration, if one does. *)
Variable reddit : string -> listing -> list submission * option Py.exn.

(** [datetime.fromtimestamp(t).isoformat()] *)
Variable isoformat : Q -> string.

(** [RedditDataCollector._extract_post_data] *)
Definition _extract_post_data (sub : submission) : post :=
  mkPost (s_id sub) (s_title sub)
    (if s_is_self sub then s_selftext sub else EmptyString)
    (s_url sub)
    ("https://reddit.com" ++ s_permalink sub)%string
    (s_score sub) (s_upvote_ratio sub) (s_num_comments sub)
    (s_created_utc sub) (isoformat (s_created_utc sub))
    (s_subreddit sub)
    (match s_author sub with Some a => a | None => "[deleted]"%string end)
    (s_link_flair_text sub) (s_gilded sub) (s_stickied sub) (s_over_18 sub)
    (s_is_self sub) (s_domain sub).

(** The [if]/[elif] chain on [sort_by]; [None] is its [else] branch. *)
Definition select_listing (sort_by time_filter : string) (limit : Z)
    : option listing :=
  if String.eqb sort_by "hot" then Some (Hot limit)
  else if String.eqb sort_by "new" then Some (New limit)
  else if String.eqb sort_by "top" then Some (Top time_filter limit)
  else if String.eqb sort_by "rising" then Some (Rising limit)
  else None.

(** [RedditDataCollector.collect_posts], entered when the clock reads
    [now].  What [wait_if_needed] raises leaves the call, and so does what
    [self.reddit.subreddit] raises, which is called before the [try]
    block: everything raised inside the block is caught, logged, and the
    posts gathered so far are returned. *)
Definition collect_posts (self : Limiter.RateLimiter) (now : Z)
    (subreddit_name : string) (limit : Z) (sort_by time_filter : string)
    : Py.result collected :=
  match Limiter.wait_if_needed self now with
  | Py.Raises e => Py.Raises e
  | Py.Returns (limiter, slept) =>
      match reddit_subreddit subreddit_name with
      | Py.Raises e => Py.Raises e
      | Py.Returns subreddit =>
          match select_listing sort_by time_filter limit with
          | Some l =>
              let (submissions, failure) := reddit subreddit l in
              let posts := map _extract_post_data submissions in
              Py.Returns
                (mkCollected posts limiter slept [(subreddit, l)]
                   [match failure with
                    | None => InfoCollected (List.length posts) subreddit_name
                    | Some e => ErrorCollecting subreddit_name e
                    end])
          | None =>
              Py.Returns
                (mkCollected [] limiter slept []
                   [ErrorCollecting subreddit_name
                      (Py.ValueError
                         ("Invalid sort_by value: " ++ sort_by)%string)])
          end
      end
  end.

(** The call ends with the usage fault raised to its caller. *)
Definition reports_usage_fault (self : Limiter.RateLimiter) (now : Z)
    (subreddit_name : string) (limit : Z) (sort_by time_filter : string)
    : Prop :=
  exists msg : string,
    collect_posts self now subreddit_name limit sort_by time_filter
      = Py.Raises (Py.ValueError msg).

End Client.

(** ** Comments and subreddit information *)

(** A comment as the client library hands it over, and a node of the
    flattened comment forest: a comment or a "load more" placeholder. *)
Record raw_comment : Type := mkRawComment {
  rc_id : string;
  rc_body : string;
  rc_score : Z;
  rc_created_utc : Q;
  rc_author : option string;
  rc_parent_id : string;
  rc_depth : Z;
  rc_is_submitter : bool;
  rc_gilded : Z
}.

Inductive node : Type :=
  | CommentNode (c : raw_comment)
  | MoreComments.

(** The dictionary built by [_extract_comment_data]. *)
Record comment : Type := mkComment {
  c_id : string;
  c_body : string;
  c_score : Z;
  c_created_utc : Q;
  c_created_datetime : string;
  c_author : string;
  c_parent_id : string;
  c_depth : Z;
  c_is_submitter : bool;
  c_gilded : Z
}.

Inductive comment_log : Type :=
  | InfoComments (n : nat) (post_id : string)
  | ErrorComments (post_id : string) (e : Py.exn).

(** What a call of [collect_comments] leaves behind. *)
Record collected_comments : Type := mkCollectedComments {
  comments : list comment;
  cc_rate_limiter : Limiter.RateLimiter;
  cc_slept : Z;
  cc_logged : list comment_log
}.

(** A subreddit as the client library hands it over, and the dictionary
    built by [get_subreddit_info]. *)
Record raw_subreddit : Type := mkRawSubreddit {
  rs_display_name : string;
  rs_title : string;
  rs_public_description : string;
  rs_subscribers : Z;
  rs_active_user_count : Z;
  rs_created_utc : Q;
  rs_over18 : bool
}.

Record subreddit_info : Type := mkSubredditInfo {
  si_name : string;
  si_title : string;
  si_description : string;
  si_subscribers : Z;
  si_active_users : Z;
  si_created_utc : Q;
  si_created_datetime : string;
  si_over_18 : bool;
  si_activity_rate : Q
}.

Section MoreOfTheClient.

(** [submission.comments.list()] after [replace_more(limit=0)] for a post,
    or the exception that fetching it raises. *)
Variable comment_forest : string -> Py.result (list node).

(** The attributes of a subreddit, or the exception that fetching them
    raises. *)
Variable about : string -> Py.result raw_subreddit.

Variable isoformat : Q -> string.

(** [RedditDataCollector._extract_comment_data] *)
Definition _extract_comment_data (c : raw_comment) : comment :=
  mkComment (rc_id c) (rc_body c) (rc_score c) (rc_created_utc c)
    (isoformat (rc_created_utc c))
    (match rc_author c with Some a => a | None => "[deleted]"%string end)
    (rc_parent_id c) (rc_depth c) (rc_is_submitter c) (rc_gilded c).

(** The loop of [collect_comments]: the nodes that are comments,
    extracted in order. *)
Fixpoint extract_comments (nodes : list node) : list comment :=
  match nodes with
  | [] => []
  | CommentNode c :: nodes' => _extract_comment_data c :: extract_comments nodes'
  | MoreComments :: nodes' => extract_comments nodes'
  end.

(** [RedditDataCollector.collect_comments], entered when the clock reads
    [now]. *)
Definition collect_comments (self : Limiter.RateLimiter) (now : Z)
    (post_id : string) (max_comments : Z) : Py.result collected_comments :=
  match Limiter.wait_if_needed self now with
  | Py.Raises e => Py.Raises e
  | Py.Returns (limiter, slept) =>
      match comment_forest post_id with
      | Py.Returns nodes =>
          let comments := extract_comments (Py.slice_to max_comments nodes) in
          Py.Returns
            (mkCollectedComments comments limiter slept
               [InfoComments (List.length comments) post_id])
      | Py.Raises e =>
          Py.Returns
            (mkCollectedComments [] limiter slept [ErrorComments post_id e])
      end
  end.

(** [RedditDataCollector.get_subreddit_info], entered when the clock reads
    [now]; [None] is the empty dictionary returned after a failure. *)
Definition get_subreddit_info (self : Limiter.RateLimiter) (now : Z)
    (subreddit_name : string)
    : Py.result (option subreddit_info * Limiter.RateLimiter * Z) :=
  match Limiter.wait_if_needed self now with
  | Py.Raises e => Py.Raises e
  | Py.Returns (limiter, slept) =>
      match about subreddit_name with
      | Py.Returns sub =>
          Py.Returns
            (Some
               (mkSubredditInfo (rs_display_name sub) (rs_title sub)
                  (rs_public_description sub) (rs_subscribers sub)
                  (rs_active_user_count sub) (rs_created_utc sub)
                  (isoformat (rs_created_utc sub)) (rs_over18 sub)
                  (inject_Z (rs_active_user_count sub)
                   / inject_Z (Z.max (rs_subscribers sub) 1))),
             limiter, slept)
      | Py.Raises e => Py.Returns (None, limiter, slept)
      end
  end.

End MoreOfTheClient.

(** What a call leaves of the limiter: what [wait_if_needed] left, and
    only what [wait_if_needed] raises leaves the call. *)
Definition throttled (A : Type) (limiter_of : A -> Limiter.RateLimiter)
    (slept_of : A -> Z) (self : Limiter.RateLimiter) (now : Z)
    (r : Py.result A) : Prop :=
  match Limiter.wait_if_needed self now, r with
  | Py.Returns (limiter, slept), Py.Returns a =>
      limiter_of a = limiter /\ slept_of a = slept
  | Py.Raises e, Py.Raises e' => e = e'
  | _, _ => False
  end.

(** The same for a call that looks the subreddit up before its [try]
    block: what the lookup raises leaves the call too. *)
Definition throttled_after (A B : Type) (limiter_of : A -> Limiter.RateLimiter)
    (slept_of : A -> Z) (self : Limiter.RateLimiter) (now : Z)
    (lookup : Py.result B) (r : Py.result A) : Prop :=
  match Limiter.wait_if_needed self now, lookup, r with
  | Py.Returns (limiter, slept), Py.Returns _, Py.Returns a =>
      limiter_of a = limiter /\ slept_of a = slept
  | Py.Returns _, Py.Raises e, Py.Raises e' => e = e'
  | Py.Raises e, _, Py.Raises e' => e = e'
  | _, _, _ => False
  end.

(** ** Sample data *)

(** A post with the given title, score, upvote ratio, number of comments
    and creation time; the other fields are empty. *)
Definition sample_post (t : string) (sc : Z) (ratio : Q) (comments : Z)
    (created : Q) : post :=
  mkPost EmptyString t EmptyString EmptyString EmptyString sc ratio comments
    created EmptyString EmptyString EmptyString None 0 false false true
    EmptyString.

(** A client that hands over every subreddit under its name and whose
    listings are empty, and a constant time format. *)
Definition sample_subreddit (subreddit_name : string) : Py.result string :=
  Py.Returns subreddit_name.

Definition sample_reddit (subreddit_name : string) (l : listing)
    : list submission * option Py.exn := ([], None).

Definition sample_isoformat (t : Q) : string := "1970-01-01T00:00:00".

(** A forest of one placeholder and two comments, and a subreddit. *)
Definition sample_comment (i : string) : raw_comment :=
  mkRawComment i "body" 1 0 None "t3_x" 0 false 0.

Definition sample_forest (post_id : string) : Py.result (list node) :=
  Py.Returns [MoreComments; CommentNode (sample_comment "c1");
              CommentNode (sample_comment "c2")].

Definition sample_about (name : string) : Py.result raw_subreddit :=
  Py.Returns (mkRawSubreddit name "title" "about" 200 50 0 false).

End Collector.

(* ====================================================================== *)
(** * examples.py: EngagementAnalyzer *)
(* ====================================================================== *)

Module Engagement.

Import Collector.
Local Open Scope Q_scope.

Record velocity : Type := mkVelocity {
  age_hours : Q;
  score_per_hour : Q;
  comments_per_hour : Q
}.

(** [EngagementAnalyzer.calculate_engagement_velocity]; [now] is the
    reading of [datetime.now().timestamp()]. *)
Definition calculate_engagement_velocity (now : Q) (p : post) : velocity :=
  let age_hours := (now - created_utc p) / 3600 in
  let age_hours := if Qle_bool age_hours 0 then 1 # 10 else age_hours in
  mkVelocity age_hours
    (inject_Z (score p) / age_hours)
    (inject_Z (num_comments p) / age_hours).

(** [EngagementAnalyzer.calculate_engagement_quality] *)
Definition calculate_engagement_quality (p : post) : Q :=
  let score := Z.max (score p) 1 in
  let comment_ratio := inject_Z (num_comments p) / inject_Z score in
  let upvote_ratio := upvote_ratio p in
  let discussion_score := Qmin (comment_ratio * 100) 100 in
  let agreement_score := upvote_ratio * 100 in
  (discussion_score + agreement_score) / 2.

(** The age of [calculate_engagement_velocity] is the age in hours
    floored at [0.1]. *)
Definition age_floored (now : Q) (p : post) : Prop :=
  age_hours (calculate_engagement_velocity now p)
    == Qmax (1 # 10) ((now - created_utc p) / 3600) /\
  1 # 10 <= age_hours (calculate_engagement_velocity now p).

(** [EngagementAnalyzer.is_trending] *)
Definition is_trending (now : Q) (p : post) (min_velocity : Q) : bool :=
  Qle_bool min_velocity (score_per_hour (calculate_engagement_velocity now p)).

End Engagement.

(* ====================================================================== *)
(** * examples.py: SentimentAnalyzer *)
(* ====================================================================== *)

Module Sentiment.

Local Open Scope Q_scope.

(** The tuple returned by the polarity scorer. *)
Record polarity : Type := mkPolarity {
  p_compound : Q;
  p_pos : Q;
  p_neu : Q;
  p_neg : Q
}.

Record sentiment : Type := mkSentiment {
  compound : Q;
  positive : Q;
  neutral : Q;
  negative : Q;
  classification : string
}.

Record SentimentAnalyzer : Type := mkSentimentAnalyzer {
  vader_available : bool
}.

(** The tuple returned without consulting the scorer. *)
Definition neutral_default : sentiment :=
  mkSentiment 0 0 1 0 "neutral".

(** [x > y] and [x < y] on floats. *)
Definition Qgtb (x y : Q) : bool := negb (Qle_bool x y).

Definition Qltb (x y : Q) : bool := negb (Qle_bool y x).

Section Scorer.

(** [self.vader.polarity_scores], a black box. *)
Variable polarity_scores : string -> polarity.

(** [SentimentAnalyzer.analyze_text] *)
Definition analyze_text (self : SentimentAnalyzer) (text : string) : sentiment :=
  if negb (vader_available self) || String.eqb text EmptyString
  then neutral_default
  else
    let scores := polarity_scores text in
    let classification :=
      if Qgtb (p_compound scores) (5 # 100) then "positive"%string
      else if Qltb (p_compound scores) (- (5 # 100)) then "negative"%string
      else "neutral"%string in
    mkSentiment (p_compound scores) (p_pos scores) (p_neu scores)
      (p_neg scores) classification.

End Scorer.

Section PostScorer.

Variable polarity_scores : string -> polarity.

(** [SentimentAnalyzer.analyze_post] *)
Definition analyze_post (self : SentimentAnalyzer) (p : Collector.post)
    : sentiment :=
  let text := (Collector.title p ++ " " ++ Collector.selftext p)%string in
  analyze_text polarity_scores self text.

End PostScorer.

Record engagement_sentiment : Type := mkEngagementSentiment {
  engagement_label : string;
  controversy_level : string
}.

(** [SentimentAnalyzer.analyze_engagement_sentiment] *)
Definition analyze_engagement_sentiment (p : Collector.post)
    : engagement_sentiment :=
  let upvote_ratio := Collector.upvote_ratio p in
  let sentiment :=
    if Qgtb upvote_ratio (85 # 100) then "very_positive"%string
    else if Qgtb upvote_ratio (70 # 100) then "positive"%string
    else if Qgtb upvote_ratio (55 # 100) then "neutral"%string
    else "negative"%string in
  let controversy :=
    inject_Z (Collector.num_comments p)
    / inject_Z (Z.max (Collector.score p) 1) in
  mkEngagementSentiment sentiment
    (if Qgtb controversy 1 then "high"%string else "normal"%string).

(** The labels of [analyze_engagement_sentiment], from the lowest. *)
Definition label_rank (l : string) : nat :=
  if String.eqb l "very_positive" then 3
  else if String.eqb l "positive" then 2
  else if String.eqb l "neutral" then 1
  else 0.

End Sentiment.

(* ====================================================================== *)
(** * examples.py: TopicExtractor *)
(* ====================================================================== *)

Module Topics.

Import Collector.

(** A character is the code point it stands for: an [ascii] names the
    code points below 256 (ASCII and the Latin-1 supplement of Unicode),
    and a text is a string of them. *)
Definition code (c : ascii) : nat := nat_of_ascii c.

Definition is_upper (c : ascii) : bool :=
  (65 <=? code c)%nat && (code c <=? 90)%nat.

Definition is_lower (c : ascii) : bool :=
  (97 <=? code c)%nat && (code c <=? 122)%nat.

Definition is_digit (c : ascii) : bool :=
  (48 <=? code c)%nat && (code c <=? 57)%nat.

(** The class [[a-zA-Z]]: the letters of ASCII only. *)
Definition is_alpha (c : ascii) : bool := is_lower c || is_upper c.

(** The capital letters from 128 on: U+00C0 to U+00DE without the
    multiplication sign U+00D7. *)
Definition is_upper_latin (c : ascii) : bool :=
  (192 <=? code c)%nat && (code c <=? 222)%nat && negb (code c =? 215)%nat.

(** The alphanumeric characters from 128 on, as [str.isalnum] has them:
    the ordinal indicators U+00AA and U+00BA, the micro sign U+00B5, the
    superscript digits U+00B2, U+00B3 and U+00B9, the fractions U+00BC to
    U+00BE, and the letters U+00C0 to U+00FF without the multiplication
    sign U+00D7 and the division sign U+00F7. *)
Definition is_alnum_latin (c : ascii) : bool :=
  existsb (Nat.eqb (code c))
    [170; 178; 179; 181; 185; 186; 188; 189; 190]%nat
  || ((192 <=? code c)%nat && negb (code c =? 215)%nat
      && negb (code c =? 247)%nat).

(** The class [\w] of a pattern over [str]: the alphanumeric characters
    of Unicode and the underscore. *)
Definition is_word (c : ascii) : bool :=
  is_alpha c || is_digit c || (code c =? 95)%nat || is_alnum_latin c.

(** [str.lower], which on these characters works one character at a
    time: a capital letter, of ASCII or not, becomes the letter 32 code
    points further. *)
Definition lower_char (c : ascii) : ascii :=
  if is_upper c || is_upper_latin c then ascii_of_nat (code c + 32) else c.

Definition lower (t : string) : string :=
  string_of_list_ascii (map lower_char (list_ascii_of_string t)).

(** [\b] between two neighbours: exactly one of them is a word character;
    the outside of the text counts as a non-word character. *)
Definition boundary (before after : bool) : bool := xorb before after.

Definition word_at (s : list ascii) (n : nat) : bool :=
  match nth_error s n with
  | Some c => is_word c
  | None => false
  end.

(** Length of the longest prefix of letters: the greedy [[a-zA-Z]{3,}]. *)
Fixpoint alpha_prefix (s : list ascii) : nat :=
  match s with
  | c :: s' => if is_alpha c then S (alpha_prefix s') else 0
  | [] => 0
  end.

(** Backtracking from [n] letters down to three for a length after which
    [\b] holds. *)
Fixpoint backtrack (s : list ascii) (n : nat) : option nat :=
  match n with
  | O => None
  | S m =>
      if (3 <=? n)%nat
      then if boundary (word_at s m) (word_at s n) then Some n
           else backtrack s m
      else None
  end.

(** [[a-zA-Z]{3,}\b] matched at the head of [s]: the length matched. *)
Definition match_here (s : list ascii) : option nat :=
  backtrack s (alpha_prefix s).

(** The scan of [re.findall] for [\b[a-zA-Z]{3,}\b]: [before] tells
    whether the character before the position is a word character, and
    [skip] counts the characters still covered by the last match. *)
Fixpoint scan (before : bool) (skip : nat) (s : list ascii) : list string :=
  match s with
  | [] => []
  | c :: s' =>
      match skip with
      | S k => scan (is_word c) k s'
      | O =>
          if boundary before (is_word c)
          then match match_here s with
               | Some n =>
                   string_of_list_ascii (firstn n s)
                     :: scan (is_word c) (n - 1) s'
               | None => scan (is_word c) 0 s'
               end
          else scan (is_word c) 0 s'
      end
  end.

(** [re.findall(r'\b[a-zA-Z]{3,}\b', text)] *)
Definition findall (text : string) : list string :=
  scan false 0 (list_ascii_of_string text).

(** [TopicExtractor.STOP_WORDS] *)
Definition STOP_WORDS : list string :=
  [ "the"; "is"; "in"; "and"; "to"; "of"; "for"; "with"; "on"; "this";
    "that"; "are"; "was"; "be"; "by"; "at"; "from"; "or"; "an"; "as";
    "it"; "can"; "will"; "but"; "not"; "you"; "your"; "we"; "my"; "me";
    "i"; "a"; "has"; "have"; "had"; "what"; "when"; "where"; "who"; "how"
  ]%string.

Definition mem (w : string) (l : list string) : bool :=
  existsb (String.eqb w) l.

(** [Counter]: the counts in the order the words were first seen. *)
Definition counter := list (string * nat).

(** [self[elem] = self.get(elem, 0) + 1] *)
Fixpoint incr (w : string) (c : counter) : counter :=
  match c with
  | [] => [(w, 1%nat)]
  | (k, n) :: c' =>
      if String.eqb k w then (k, S n) :: c' else (k, n) :: incr w c'
  end.

(** [Counter(words)] *)
Definition Counter (words : list string) : counter :=
  fold_left (fun c w => incr w c) words [].

(** The order of [most_common]: a larger count first. *)
Definition more_common (a b : string * nat) : bool :=
  (snd b <=? snd a)%nat.

(** [Counter.most_common(n)]: the [n] first items of the stable sort by
    decreasing count; none for [n <= 0]. *)
Definition most_common (n : Z) (c : counter) : list (string * nat) :=
  firstn (Z.to_nat n) (Py.sort more_common c).

(** The words counted: the tokens of the lowered titles joined by a
    space, without the stop words. *)
Definition keywords (posts : list post) : list string :=
  let all_text := String.concat " " (map title posts) in
  let words := findall (lower all_text) in
  filter (fun w => negb (mem w STOP_WORDS)) words.

(** [TopicExtractor.extract_keywords] *)
Definition extract_keywords (posts : list post) (top_n : Z)
    : list (string * nat) :=
  let word_counts := Counter (keywords posts) in
  most_common top_n word_counts.

(** ** Tokens as the specification words them *)

(** The maximal runs of characters satisfying [p], in order; [cur] holds
    the run being read, last character first. *)
Fixpoint runs (p : ascii -> bool) (cur : list ascii) (s : list ascii)
    : list (list ascii) :=
  match s with
  | [] => [rev cur]
  | c :: s' => if p c then runs p (c :: cur) s' else rev cur :: runs p [] s'
  end.

(** The alphabetic runs of length at least three. *)
Definition alpha_runs (text : string) : list string :=
  map string_of_list_ascii
    (filter (fun r => (3 <=? List.length r)%nat)
       (runs is_alpha [] (list_ascii_of_string text))).

(** [extract_keywords] with the tokens taken to be the alphabetic runs. *)
Definition extract_keywords_by_runs (posts : list post) (top_n : Z)
    : list (string * nat) :=
  let all_text := String.concat " " (map title posts) in
  let words := alpha_runs (lower all_text) in
  let words := filter (fun w => negb (mem w STOP_WORDS)) words in
  most_common top_n (Counter words).

(** The runs of word characters that are purely alphabetic and at least
    three characters long: the alphabetic runs with a word boundary on
    both sides. *)
Definition whole_word (r : list ascii) : bool :=
  (3 <=? List.length r)%nat && forallb is_alpha r.

Definition alpha_words (text : string) : list string :=
  map string_of_list_ascii
    (filter whole_word (runs is_word [] (list_ascii_of_string text))).

(** The tokens read off the runs of word characters, [cur] being the
    run under way. *)
Definition run_tokens (cur s : list ascii) : list string :=
  map string_of_list_ascii (filter whole_word (runs is_word cur s)).

(** The longest prefix of word characters. *)
Fixpoint word_prefix (s : list ascii) : list ascii :=
  match s with
  | c :: s' => if is_word c then c :: word_prefix s' else []
  | [] => []
  end.

(** The words of a counter, and the count it holds for a word (0 when the
    word is not a key). *)
Definition keys (c : counter) : list string := map fst c.

Fixpoint get (c : counter) (w : string) : nat :=
  match c with
  | [] => 0
  | (k, n) :: c' => if String.eqb k w then n else get c' w
  end.

(** Position of the first occurrence of [w] in [ws]. *)
Fixpoint first_index (w : string) (ws : list string) : nat :=
  match ws with
  | [] => 0
  | x :: ws' => if String.eqb x w then 0 else S (first_index w ws')
  end.

(** [a] is listed before [b] by [most_common]: it has the larger count,
    or the same count and was seen first among [ws]. *)
Definition precedes (ws : list string) (a b : string * nat) : Prop :=
  (snd b < snd a)%nat \/
  (snd a = snd b /\ (first_index (fst a) ws < first_index (fst b) ws)%nat).

(** A post with the given title; the other fields are of no concern to
    the extractor. *)
Definition titled (t : string) : post := sample_post t 0 0 0 0.

(** ** Flairs and the posts of highest quality *)

(** [post.get('flair')] is truthy: the flair is present and not empty. *)
Definition has_flair (p : post) : bool :=
  match flair p with
  | Some f => negb (String.eqb f EmptyString)
  | None => false
  end.

(** [[post['flair'] for post in posts if post.get('flair')]] *)
Fixpoint flairs (posts : list post) : list string :=
  match posts with
  | [] => []
  | p :: posts' =>
      match flair p with
      | Some f => if has_flair p then f :: flairs posts' else flairs posts'
      | None => flairs posts'
      end
  end.

(** [TopicExtractor.extract_trending_flairs] *)
Definition extract_trending_flairs (posts : list post) (top_n : Z)
    : list (string * nat) :=
  let flair_counts := Counter (flairs posts) in
  most_common top_n flair_counts.

(** A copy of a post with the key [quality_score] added. *)
Record scored_post : Type := mkScoredPost {
  the_post : post;
  quality_score : Q
}.

(** The order of [sorted(..., key=quality_score, reverse=True)]. *)
Definition higher_quality (a b : scored_post) : bool :=
  Qle_bool (quality_score b) (quality_score a).

(** [TopicExtractor.get_top_posts_by_engagement] *)
Definition get_top_posts_by_engagement (posts : list post) (top_n : Z)
    : list scored_post :=
  let posts_with_quality :=
    map (fun p => mkScoredPost p (Engagement.calculate_engagement_quality p))
      posts in
  let sorted_posts := Py.sort higher_quality posts_with_quality in
  Py.slice_to top_n sorted_posts.

(** The posts carrying the flair [f]. *)
Definition with_flair (f : string) (posts : list post) : list post :=
  filter (fun p => match flair p with
                   | Some g => String.eqb g f
                   | None => false
                   end) posts.

(** A post with its quality. *)
Definition scored (p : post) : scored_post :=
  mkScoredPost p (Engagement.calculate_engagement_quality p).

End Topics.

(* ====================================================================== *)
(** * Properties of the shared helpers *)
(* ====================================================================== *)

Module PyFacts.

Section SortFacts.

Variable A : Type.
Variable leb : A -> A -> bool.

Lemma insert_perm (x : A) (l : list A) :
  Permutation (x :: l) (Py.insert leb x l).
Proof.
  induction l as [|y l IH]; simpl.
  - apply Permutation_refl.
  - destruct (leb x y).
    + apply Permutation_refl.
    + eapply perm_trans; [apply perm_swap|].
      apply perm_skip, IH.
Qed.

Lemma sort_perm (l : list A) : Permutation l (Py.sort leb l).
Proof.
  induction l as [|x l IH]; simpl.
  - apply perm_nil.
  - eapply perm_trans; [apply perm_skip, IH|apply insert_perm].
Qed.

Lemma sort_length (l : list A) : List.length (Py.sort leb l) = List.length l.
Proof. symmetry. apply Permutation_length, sort_perm. Qed.

Lemma insert_in (x y : A) (l : list A) :
  In y (Py.insert leb x l) -> y = x \/ In y l.
Proof.
  intros H.
  apply (Permutation_in y (Permutation_sym (insert_perm x l))) in H.
  destruct H as [H|H]; auto.
Qed.

Section Total.

Hypothesis leb_total : forall a b, leb a b = true \/ leb b a = true.

Let le (a b : A) : Prop := leb a b = true.

Lemma insert_hdrel (x a : A) (l : list A) :
  le a x -> HdRel le a l -> HdRel le a (Py.insert leb x l).
Proof.
  intros Hax Hal.
  destruct l as [|y l]; simpl.
  - constructor. exact Hax.
  - destruct (leb x y); constructor.
    + exact Hax.
    + inversion Hal; assumption.
Qed.

Lemma insert_sorted (x : A) (l : list A) :
  Sorted le l -> Sorted le (Py.insert leb x l).
Proof.
  induction 1 as [|y l Hs IH Hhd]; simpl.
  - repeat constructor.
  - destruct (leb x y) eqn:E.
    + constructor; [constructor; assumption|constructor; exact E].
    + constructor; [exact IH|].
      apply insert_hdrel; [|exact Hhd].
      destruct (leb_total x y) as [H|H]; [congruence|exact H].
Qed.

Lemma sort_sorted (l : list A) : Sorted le (Py.sort leb l).
Proof.
  induction l as [|x l IH]; simpl.
  - constructor.
  - apply insert_sorted, IH.
Qed.

End Total.

End SortFacts.

(** Stability: sorting by decreasing key a list that is already ordered
    by [tie] orders it by key first and by [tie] among equal keys. *)
Section Stable.

Variable A : Type.
Variable key : A -> nat.
Variable tie : A -> A -> Prop.

Let geb (a b : A) : bool := (key b <=? key a)%nat.

Let before (a b : A) : Prop :=
  (key b < key a)%nat \/ (key a = key b /\ tie a b).

Lemma before_key (a b : A) : before a b -> (key b <= key a)%nat.
Proof. intros [H|[H _]]; lia. Qed.

Lemma insert_stable (x : A) (l : list A) :
  StronglySorted before l -> Forall (tie x) l ->
  StronglySorted before (Py.insert geb x l).
Proof.
  induction 1 as [|y l Hs IH Hall]; intros Htie; simpl.
  - repeat constructor.
  - inversion Htie as [|? ? Hxy Hxl]; subst.
    unfold geb at 1.
    destruct (Nat.leb_spec (key y) (key x)) as [Hle|Hlt].
    + constructor; [constructor; assumption|].
      constructor.
      * destruct (Nat.eq_dec (key x) (key y)) as [E|N].
        -- right; split; assumption.
        -- left; lia.
      * rewrite Forall_forall in *. intros z Hz.
        specialize (Hall z Hz). apply before_key in Hall.
        destruct (Nat.eq_dec (key x) (key z)) as [E|N].
        -- right; split; [exact E|apply Hxl, Hz].
        -- left; lia.
    + constructor; [apply IH, Hxl|].
      rewrite Forall_forall in *. intros z Hz.
      apply insert_in in Hz. destruct Hz as [->|Hz].
      * left; exact Hlt.
      * apply Hall, Hz.
Qed.

Lemma sort_stable (l : list A) :
  StronglySorted tie l -> StronglySorted before (Py.sort geb l).
Proof.
  induction 1 as [|x l Hs IH Hall]; simpl.
  - constructor.
  - apply insert_stable; [exact IH|].
    rewrite Forall_forall in *. intros z Hz.
    apply Hall.
    apply (Permutation_in z (Permutation_sym (sort_perm geb l))), Hz.
Qed.

End Stable.

Lemma firstn_in (A : Type) (n : nat) (l : list A) (z : A) :
  In z (firstn n l) -> In z l.
Proof.
  intros H. rewrite <- (firstn_skipn n l). apply in_or_app. left. exact H.
Qed.

Lemma firstn_strongly_sorted (A : Type) (R : A -> A -> Prop) (n : nat)
    (l : list A) :
  StronglySorted R l -> StronglySorted R (firstn n l).
Proof.
  intros H. revert n.
  induction H as [|x l Hs IH Hall]; intros [|n]; simpl; try constructor.
  - apply IH.
  - rewrite Forall_forall in *. intros z Hz.
    apply Hall. eapply firstn_in; eauto.
Qed.

(** The comparisons of floats, as propositions. *)
Lemma Qle_bool_false (x y : Q) : Qle_bool x y = false <-> (y < x)%Q.
Proof.
  split.
  - intros H. apply Qnot_le_lt. intros Hle.
    apply Qle_bool_iff in Hle. congruence.
  - intros H. destruct (Qle_bool x y) eqn:E; [|reflexivity].
    apply Qle_bool_iff in E. exfalso. apply (Qlt_not_le _ _ H E).
Qed.

Lemma strongly_sorted_split (A : Type) (R : A -> A -> Prop) (l1 l2 : list A) :
  StronglySorted R (l1 ++ l2) ->
  forall a b, In a l1 -> In b l2 -> R a b.
Proof.
  induction l1 as [|x l1 IH]; simpl; intros H a b Ha Hb; [contradiction|].
  inversion H as [|? ? Hs Hall]; subst.
  destruct Ha as [<-|Ha].
  - rewrite Forall_forall in Hall. apply Hall, in_or_app. right. exact Hb.
  - apply IH; assumption.
Qed.

(** A slice up to [n] is a prefix. *)
Lemma slice_to_firstn (A : Type) (n : Z) (l : list A) :
  exists k : nat,
    Py.slice_to n l = firstn k l /\
    ((0 <= n)%Z -> k = Z.to_nat n) /\
    ((n < 0)%Z -> k = (List.length l - Z.to_nat (- n))%nat).
Proof.
  unfold Py.slice_to. destruct (Z.ltb_spec n 0).
  - eexists. split; [reflexivity|]. split; [lia|reflexivity].
  - eexists. split; [reflexivity|]. split; [reflexivity|lia].
Qed.

End PyFacts.

(* ====================================================================== *)
(** * Properties of the record store *)
(* ====================================================================== *)

Unset Implicit Arguments.

Module StoreFacts.

Import Store.
Local Open Scope Z_scope.

(** ** Rows and keys *)

Lemma has_key_true (s sid : string) (r : RedditSource) :
  has_key s sid r = true <-> natural_key r = (s, sid).
Proof.
  unfold has_key, natural_key. rewrite andb_true_iff, !String.eqb_eq.
  split.
  - intros [-> ->]. reflexivity.
  - intros H. inversion H. auto.
Qed.

Lemma has_key_other (s sid s' sid' : string) (r : RedditSource) :
  (s', sid') <> (s, sid) -> has_key s sid r = true -> has_key s' sid' r = false.
Proof.
  intros Hne H. apply has_key_true in H.
  destruct (has_key s' sid' r) eqn:E; [|reflexivity].
  apply has_key_true in E. congruence.
Qed.

(** The commit leaves every column but [updated_at] as assigned. *)
Lemma commit_touch (now : Z) (stored r : RedditSource) :
  commit now stored r = touch r (updated_at (commit now stored r)).
Proof.
  unfold commit. destruct (unchanged stored r); destruct r; reflexivity.
Qed.

Lemma apply_update_touch (now : Z) (ttl dsc tgs : option string)
    (sc : option Q) (sd : option score_dict) (pr : option bool)
    (r : RedditSource) :
  apply_update now ttl dsc tgs sc sd pr r
  = touch (assign ttl dsc tgs sc sd pr r)
      (updated_at (apply_update now ttl dsc tgs sc sd pr r)).
Proof. apply commit_touch. Qed.

(** A fact about the columns of an updated row other than [updated_at],
    by the cases of the arguments supplied or omitted. *)
Ltac by_arguments :=
  match goal with
  | |- context [apply_update ?now ?ttl ?dsc ?tgs ?sc ?sd ?pr ?r] =>
      rewrite (apply_update_touch now ttl dsc tgs sc sd pr r);
      destruct ttl, dsc, tgs, sc, sd, pr; reflexivity
  end.

Lemma apply_update_key (now : Z) (ttl dsc tgs : option string)
    (sc : option Q) (sd : option score_dict) (pr : option bool)
    (r : RedditSource) :
  natural_key (apply_update now ttl dsc tgs sc sd pr r) = natural_key r.
Proof. by_arguments. Qed.

Lemma apply_update_has_key (now : Z) (ttl dsc tgs : option string)
    (sc : option Q) (sd : option score_dict) (pr : option bool)
    (s sid : string) (r : RedditSource) :
  has_key s sid (apply_update now ttl dsc tgs sc sd pr r) = has_key s sid r.
Proof. by_arguments. Qed.

Section Replace.

Variable p : RedditSource -> bool.
Variable f : RedditSource -> RedditSource.

Lemma replace_first_length (db : table) :
  List.length (replace_first p f db) = List.length db.
Proof.
  induction db as [|r db IH]; simpl; [reflexivity|].
  destruct (p r); simpl; congruence.
Qed.

Lemma replace_first_none (db : table) :
  find p db = None -> replace_first p f db = db.
Proof.
  induction db as [|r db IH]; simpl; [reflexivity|].
  destruct (p r); [discriminate|]. intros H. rewrite IH; auto.
Qed.

Lemma find_replace_first_same (db : table) :
  (forall r, p (f r) = p r) ->
  find p (replace_first p f db) = option_map f (find p db).
Proof.
  intros Hp. induction db as [|r db IH]; simpl; [reflexivity|].
  destruct (p r) eqn:E; simpl.
  - rewrite Hp, E. reflexivity.
  - rewrite E. exact IH.
Qed.

Lemma find_replace_first_other (q : RedditSource -> bool) (db : table) :
  (forall r, q (f r) = q r) ->
  (forall r, p r = true -> q r = false) ->
  find q (replace_first p f db) = find q db.
Proof.
  intros Hq Hpq. induction db as [|r db IH]; simpl; [reflexivity|].
  destruct (p r) eqn:E; simpl.
  - rewrite Hq, (Hpq r E). reflexivity.
  - destruct (q r); [reflexivity|exact IH].
Qed.

Lemma filter_replace_first_length (q : RedditSource -> bool) (db : table) :
  (forall r, q (f r) = q r) ->
  List.length (filter q (replace_first p f db)) = List.length (filter q db).
Proof.
  intros Hq. induction db as [|r db IH]; simpl; [reflexivity|].
  destruct (p r) eqn:E; simpl.
  - rewrite Hq. destruct (q r); reflexivity.
  - destruct (q r); simpl; congruence.
Qed.

End Replace.

Lemma find_existsb (p : RedditSource -> bool) (db : table) :
  existsb p db = match find p db with Some _ => true | None => false end.
Proof.
  induction db as [|r db IH]; simpl; [reflexivity|].
  destruct (p r); [reflexivity|exact IH].
Qed.

Lemma find_none_filter (p : RedditSource -> bool) (db : table) :
  find p db = None -> filter p db = [].
Proof.
  induction db as [|r db IH]; simpl; [reflexivity|].
  destruct (p r); [discriminate|exact IH].
Qed.

Lemma find_app_none (p : RedditSource -> bool) (db : table)
    (r : RedditSource) :
  find p db = None -> p r = true -> find p (db ++ [r]) = Some r.
Proof.
  induction db as [|x db IH]; simpl; intros Hf Hr.
  - rewrite Hr. reflexivity.
  - destruct (p x); [discriminate|]. apply IH; assumption.
Qed.

Lemma find_app_other (p : RedditSource -> bool) (db : table)
    (r : RedditSource) :
  p r = false -> find p (db ++ [r]) = find p db.
Proof.
  intros Hr. induction db as [|x db IH]; simpl.
  - rewrite Hr. reflexivity.
  - destruct (p x); [reflexivity|exact IH].
Qed.

Lemma count_key_absent (db : table) (s sid : string) :
  read db s sid = None -> count_key db s sid = 0.
Proof.
  unfold read, count_key. intros H. rewrite (find_none_filter _ _ H).
  reflexivity.
Qed.

Lemma count_key_unique (db : table) (s sid : string) (r : RedditSource) :
  unique_keys db -> read db s sid = Some r -> count_key db s sid = 1.
Proof.
  unfold unique_keys, read, count_key.
  induction db as [|x db IH]; simpl; intros Hnd Hf; [discriminate|].
  inversion Hnd as [|? ? Hnotin Hnd']; subst.
  destruct (has_key s sid x) eqn:E.
  - simpl. replace (filter (has_key s sid) db) with (@nil RedditSource);
      [reflexivity|].
    symmetry. apply find_none_filter.
    destruct (find (has_key s sid) db) as [y|] eqn:Ey; [|reflexivity].
    exfalso. apply Hnotin.
    apply find_some in Ey. destruct Ey as [Hin Hy].
    apply has_key_true in E. apply has_key_true in Hy.
    rewrite E, <- Hy. apply in_map, Hin.
  - apply IH; assumption.
Qed.

Lemma unique_keys_replace_first (p : RedditSource -> bool)
    (f : RedditSource -> RedditSource) (db : table) :
  (forall r, natural_key (f r) = natural_key r) ->
  unique_keys db -> unique_keys (replace_first p f db).
Proof.
  intros Hk. unfold unique_keys.
  replace (map natural_key (replace_first p f db)) with (map natural_key db);
    [auto|].
  induction db as [|r db IH]; simpl; [reflexivity|].
  destruct (p r); simpl; [rewrite Hk; reflexivity|rewrite IH; reflexivity].
Qed.

Lemma unique_keys_append (db : table) (r : RedditSource) :
  unique_keys db -> read db (source r) (source_id r) = None ->
  unique_keys (db ++ [r]).
Proof.
  unfold unique_keys, read. intros Hnd Hf.
  rewrite map_app. simpl.
  apply NoDup_rev in Hnd. rewrite <- (rev_involutive (_ ++ _)).
  apply NoDup_rev. rewrite rev_app_distr. simpl.
  constructor; [|exact Hnd].
  rewrite <- in_rev. intros Hin.
  apply in_map_iff in Hin. destruct Hin as (x & Hx & Hin).
  apply (find_none _ _ Hf) in Hin.
  assert (has_key (source r) (source_id r) x = true)
    by (apply has_key_true; exact Hx).
  congruence.
Qed.

Lemma unique_keys_remove_first (p : RedditSource -> bool) (db : table) :
  unique_keys db -> unique_keys (remove_first p db).
Proof.
  unfold unique_keys. induction db as [|r db IH]; simpl; intros H;
    [exact H|].
  inversion H as [|? ? Hnotin Hnd]; subst.
  destruct (p r); [exact Hnd|]. simpl. constructor; [|apply IH, Hnd].
  intros Hin. apply Hnotin. clear - Hin.
  induction db as [|x db IH]; simpl in *; [contradiction|].
  destruct (p x); [right; exact Hin|].
  destruct Hin as [Hin|Hin]; [left; exact Hin|right; apply IH, Hin].
Qed.

(** The uniqueness constraint is an invariant of the store. *)
Lemma step_unique (db : table) (c : call) :
  unique_keys db -> unique_keys (step db c).
Proof.
  intros H. destruct c as [now s sid ttl dsc tgs sc sd
                          |now s sid ttl dsc tgs sc sd pr
                          |now s sid ttl dsc tgs sc sd
                          |s sid|]; simpl.
  - unfold create. rewrite find_existsb.
    destruct (find (has_key s sid) db) eqn:E; simpl; [exact H|].
    apply unique_keys_append; [exact H|].
    destruct sd as [[|x d]|]; exact E.
  - unfold update. destruct (find (has_key s sid) db); simpl; [|exact H].
    apply unique_keys_replace_first; [|exact H].
    intros x. apply apply_update_key.
  - unfold upsert, read, update, create. rewrite find_existsb.
    destruct (find (has_key s sid) db) eqn:E; simpl.
    + apply unique_keys_replace_first; [|exact H].
      intros x. apply apply_update_key.
    + apply unique_keys_append; [exact H|].
      destruct sd as [[|x d]|]; exact E.
  - unfold delete. destruct (find (has_key s sid) db); simpl; [|exact H].
    apply unique_keys_remove_first, H.
  - constructor.
Qed.

Lemma reachable_unique (db : table) : reachable db -> unique_keys db.
Proof.
  intros (calls & ->).
  assert (G : forall db0, unique_keys db0 ->
              unique_keys (fold_left step calls db0)).
  { induction calls as [|c calls IH]; simpl; intros db0 H0; [exact H0|].
    apply IH, step_unique, H0. }
  apply G. constructor.
Qed.

(** ** Update *)

(** The assigned row, field by field. *)
Lemma assign_fields (t d g : option string) (c : option Q)
    (m : option score_dict) (p : option bool) (r : RedditSource) :
  assign t d g c m p r
  = mkRedditSource (id r) (source r) (source_id r)
      (match t with Some v => v | None => title r end)
      (match d with Some v => Some v | None => description r end)
      (match g with Some v => Some v | None => tags r end)
      (match c with Some v => Some v | None => score r end)
      (match m with Some v => Some v | None => score_dictionary r end)
      (match p with Some v => v | None => processed r end)
      (created_at r) (updated_at r).
Proof. destruct r, t, d, g, c, m, p; reflexivity. Qed.

Lemma same_dict_eq (a : score_dict) :
  forall b : score_dict, same_dict a b = true <-> a = b.
Proof.
  induction a as [|[k v] a IH]; intros [|[k' v'] b]; simpl;
    try (split; [discriminate|discriminate]); [tauto|].
  rewrite !andb_true_iff, String.eqb_eq, Z.eqb_eq, IH. split.
  - intros [[-> ->] ->]. reflexivity.
  - intros H. injection H as -> -> ->. auto.
Qed.

(** The test of one column after its assignment. *)
Lemma same_assigned (A : Type) (same : A -> A -> bool) (R : A -> A -> Prop)
    (arg : option A) (stored : A) :
  (forall x y, same x y = true <-> R x y) -> R stored stored ->
  same stored (match arg with Some v => v | None => stored end) = true
  <-> (forall v, arg = Some v -> R stored v).
Proof.
  intros Hsame Hrefl. rewrite Hsame. destruct arg as [v|].
  - split; [intros H v' E; injection E as <-; exact H|auto].
  - split; [discriminate|intros _; exact Hrefl].
Qed.

Lemma same_opt_assigned (A : Type) (same : A -> A -> bool)
    (R : A -> A -> Prop) (arg stored : option A) :
  (forall x y, same x y = true <-> R x y) -> (forall x, R x x) ->
  same_opt same stored (match arg with Some v => Some v | None => stored end)
    = true
  <-> (forall v, arg = Some v -> exists v0, stored = Some v0 /\ R v0 v).
Proof.
  intros Hsame Hrefl. destruct arg as [v|], stored as [v0|]; simpl.
  - rewrite Hsame. split.
    + intros H v' E. injection E as <-. exists v0. auto.
    + intros H. destruct (H v eq_refl) as (x & E & Hx). injection E as <-.
      exact Hx.
  - split; [discriminate|].
    intros H. destruct (H v eq_refl) as (x & E & _). discriminate E.
  - rewrite Hsame. split; [discriminate|intros _; apply Hrefl].
  - split; [discriminate|reflexivity].
Qed.

Lemma exists_eq_some (A : Type) (arg stored : option A) :
  (forall v, arg = Some v -> exists v0, stored = Some v0 /\ v0 = v)
  <-> (forall v, arg = Some v -> stored = Some v).
Proof.
  split; intros H v E.
  - destruct (H v E) as (v0 & -> & ->). reflexivity.
  - exists v. split; [apply H, E|reflexivity].
Qed.

(** The session finds the row unchanged exactly when every supplied
    argument is the value held already. *)
Lemma unchanged_assign (ttl dsc tgs : option string) (sc : option Q)
    (sd : option score_dict) (pr : option bool) (r0 : RedditSource) :
  unchanged r0 (assign ttl dsc tgs sc sd pr r0) = true
  <-> supplies_stored ttl dsc tgs sc sd pr r0.
Proof.
  rewrite assign_fields. unfold unchanged, supplies_stored. simpl.
  rewrite !andb_true_iff.
  rewrite (same_assigned _ String.eqb eq ttl (title r0) String.eqb_eq eq_refl).
  rewrite (same_opt_assigned _ String.eqb eq dsc (description r0)
             String.eqb_eq (@eq_refl _)), exists_eq_some.
  rewrite (same_opt_assigned _ String.eqb eq tgs (tags r0)
             String.eqb_eq (@eq_refl _)), exists_eq_some.
  rewrite (same_opt_assigned _ Qeq_bool Qeq sc (score r0)
             Qeq_bool_iff Qeq_refl).
  rewrite (same_opt_assigned _ same_dict eq sd (score_dictionary r0)
             same_dict_eq (@eq_refl _)), exists_eq_some.
  rewrite (same_assigned _ Bool.eqb eq pr (processed r0)
             Bool.eqb_true_iff eq_refl).
  tauto.
Qed.

Lemma updated_at_unchanged (now : Z) (ttl dsc tgs : option string)
    (sc : option Q) (sd : option score_dict) (pr : option bool)
    (r0 : RedditSource) :
  supplies_stored ttl dsc tgs sc sd pr r0 ->
  updated_at (apply_update now ttl dsc tgs sc sd pr r0) = updated_at r0.
Proof.
  intros H. apply unchanged_assign in H.
  unfold apply_update, commit. rewrite H, assign_fields. reflexivity.
Qed.

Lemma updated_at_changed (now : Z) (ttl dsc tgs : option string)
    (sc : option Q) (sd : option score_dict) (pr : option bool)
    (r0 : RedditSource) :
  ~ supplies_stored ttl dsc tgs sc sd pr r0 ->
  updated_at (apply_update now ttl dsc tgs sc sd pr r0) = now.
Proof.
  intros H. unfold apply_update, commit.
  destruct (unchanged r0 (assign ttl dsc tgs sc sd pr r0)) eqn:E.
  - exfalso. apply H, unchanged_assign, E.
  - reflexivity.
Qed.

(** C4, as the code has it: on an existing record [update] overwrites
    exactly the supplied fields and leaves every omitted field (and the
    identity and creation time) as it was, the record read back is the
    updated one, and no other record is touched; [updated_at] is refreshed
    when a supplied argument differs from the value held, and is left as
    it was when none does (every argument omitted, or equal to what is
    held); when no record has the natural key the call returns the
    not-found outcome and the store is unchanged. *)
Theorem update_partial (db : table) (now : Z) (s sid : string)
    (ttl dsc tgs : option string) (sc : option Q) (sd : option score_dict)
    (pr : option bool) :
  (forall r0 : RedditSource, read db s sid = Some r0 ->
   exists (r : RedditSource) (db' : table),
     update db now s sid ttl dsc tgs sc sd pr = (Some r, db') /\
     read db' s sid = Some r /\
     overwritten ttl (title r0) (title r) /\
     overwritten_opt dsc (description r0) (description r) /\
     overwritten_opt tgs (tags r0) (tags r) /\
     overwritten_opt sc (score r0) (score r) /\
     overwritten_opt sd (score_dictionary r0) (score_dictionary r) /\
     overwritten pr (processed r0) (processed r) /\
     id r = id r0 /\ source r = source r0 /\ source_id r = source_id r0 /\
     created_at r = created_at r0 /\
     (~ supplies_stored ttl dsc tgs sc sd pr r0 -> updated_at r = now) /\
     (supplies_stored ttl dsc tgs sc sd pr r0 ->
      updated_at r = updated_at r0) /\
     count db' = count db /\
     (forall s' sid' : string, (s', sid') <> (s, sid) ->
        read db' s' sid' = read db s' sid')) /\
  (read db s sid = None ->
   update db now s sid ttl dsc tgs sc sd pr = (None, db)).
Proof.
  unfold read, update. split.
  - intros r0 Hr0. rewrite Hr0.
    exists (apply_update now ttl dsc tgs sc sd pr r0).
    exists (replace_first (has_key s sid)
              (apply_update now ttl dsc tgs sc sd pr) db).
    split; [reflexivity|].
    split.
    { rewrite find_replace_first_same, Hr0; [reflexivity|].
      intros r. apply apply_update_has_key. }
    do 10 (split; [by_arguments|]).
    split; [apply updated_at_changed|].
    split; [apply updated_at_unchanged|].
    split.
    + unfold count. rewrite replace_first_length. reflexivity.
    + intros s' sid' Hne. apply find_replace_first_other.
      * intros r. apply apply_update_has_key.
      * intros r. apply has_key_other, Hne.
  - intros Hnone. rewrite Hnone. reflexivity.
Qed.

(** The record with title T1 and description D1, updated with the title
    T2 alone. *)
Lemma update_partial_witness :
  exists (r : RedditSource) (db' : table),
    update sample_db 7 "reddit" "a1" (Some "T2"%string) None None None None None
      = (Some r, db') /\
    title r = "T2"%string /\ description r = Some "D1"%string /\
    updated_at r = 7.
Proof.
  destruct (update_partial sample_db 7 "reddit" "a1" (Some "T2"%string)
              None None None None None) as [Hfound _].
  destruct (Hfound (sample_row 1 "a1" "T1" (Some "D1"%string) (10 # 1))
              eq_refl)
    as (r & db' & Hupd & _ & Httl & Hdsc & _ & _ & _ & _ & _ & _ & _ & _
        & Hnow & _).
  exists r, db'. simpl in Httl, Hdsc.
  split; [exact Hupd|]. split; [exact Httl|]. split; [exact Hdsc|].
  apply Hnow. intros (H & _). specialize (H _ eq_refl). discriminate H.
Defined.

(** The statement of C4 for an [update] that omits every argument: the
    call succeeds and the record keeps the [updated_at] it had. *)
Lemma update_partial_nothing_supplied :
  ~ update_refreshes sample_db 7 "reddit" "a1" None None None None None None.
Proof.
  intros H.
  specialize (H (sample_row 1 "a1" "T1" (Some "D1"%string) (10 # 1))
                sample_db eq_refl).
  discriminate H.
Qed.

(** ** Create *)

Lemma create_fresh (db : table) (now : Z) (s sid ttl : string)
    (dsc tgs : option string) (sc : option Q) (sd : option score_dict) :
  read db s sid = None ->
  exists r : RedditSource,
    create db now s sid ttl dsc tgs sc sd = (Some r, (db ++ [r])%list) /\
    holds_arguments r s sid ttl dsc tgs sc sd /\
    processed r = false /\ created_at r = now /\ updated_at r = now /\
    id r = next_id db.
Proof.
  unfold read, create. intros Hnone.
  rewrite find_existsb, Hnone.
  eexists. split; [reflexivity|].
  destruct sd as [[|x d]|]; simpl; repeat split.
Qed.

Lemma create_conflict (db : table) (now : Z) (s sid ttl : string)
    (dsc tgs : option string) (sc : option Q) (sd : option score_dict)
    (r0 : RedditSource) :
  read db s sid = Some r0 ->
  create db now s sid ttl dsc tgs sc sd = (None, db).
Proof.
  unfold read, create. intros Hsome.
  rewrite find_existsb, Hsome. reflexivity.
Qed.

Lemma count_key_append (db : table) (r : RedditSource) (s sid : string) :
  has_key s sid r = true ->
  count_key (db ++ [r]) s sid = count_key db s sid + 1.
Proof.
  unfold count_key. intros H.
  rewrite filter_app, length_app. simpl. rewrite H. simpl. lia.
Qed.

Lemma count_append (db : table) (r : RedditSource) :
  count (db ++ [r]) = count db + 1.
Proof. unfold count. rewrite length_app. simpl. lia. Qed.

Lemma holds_arguments_key (r : RedditSource) (s sid ttl : string)
    (dsc tgs : option string) (sc : option Q) (sd : option score_dict) :
  holds_arguments r s sid ttl dsc tgs sc sd -> has_key s sid r = true.
Proof.
  intros (Hs & Hsid & _). apply has_key_true.
  unfold natural_key. rewrite Hs, Hsid. reflexivity.
Qed.

(** C3, on a store without the key: two [create] calls with one natural
    key (and any titles) leave exactly one record with that key, the one
    the first call returned, holding the first call's fields; the second
    call returns the conflict outcome and leaves the store as it was.  On
    any store, a [create] whose natural key is taken returns the conflict
    outcome and leaves the store as it was. *)
Theorem create_twice (db : table) (now1 now2 : Z) (s sid ttl1 ttl2 : string)
    (dsc tgs : option string) (sc : option Q) (sd : option score_dict)
    (dsc2 tgs2 : option string) (sc2 : option Q) (sd2 : option score_dict) :
  (read db s sid = None ->
   exists r1 : RedditSource,
     create db now1 s sid ttl1 dsc tgs sc sd = (Some r1, (db ++ [r1])%list) /\
     create (db ++ [r1]) now2 s sid ttl2 dsc2 tgs2 sc2 sd2
       = (None, (db ++ [r1])%list) /\
     count_key (db ++ [r1]) s sid = 1 /\
     count (db ++ [r1]) = count db + 1 /\
     read (db ++ [r1]) s sid = Some r1 /\
     holds_arguments r1 s sid ttl1 dsc tgs sc sd /\
     create_twice_keeps_first db now1 now2 s sid ttl1 ttl2 dsc tgs sc sd) /\
  (forall r0 : RedditSource, read db s sid = Some r0 ->
   create db now1 s sid ttl1 dsc tgs sc sd = (None, db)).
Proof.
  split.
  - intros Hnone.
    destruct (create_fresh db now1 s sid ttl1 dsc tgs sc sd Hnone)
      as (r1 & Hc & Hargs & _).
    assert (Hkey : has_key s sid r1 = true)
      by (eapply holds_arguments_key; eauto).
    assert (Hread : read (db ++ [r1]) s sid = Some r1)
      by (apply find_app_none; assumption).
    assert (Hcount : count_key (db ++ [r1]) s sid = 1).
    { rewrite count_key_append, count_key_absent by assumption. reflexivity. }
    exists r1.
    split; [exact Hc|].
    split; [eapply create_conflict; eauto|].
    split; [exact Hcount|].
    split; [apply count_append|].
    split; [exact Hread|].
    split; [exact Hargs|].
    unfold create_twice_keeps_first. rewrite Hc.
    rewrite (create_conflict _ now2 s sid ttl2 dsc tgs sc sd r1 Hread).
    split; [reflexivity|].
    split; [reflexivity|].
    split; [exact Hcount|].
    exists r1. split; assumption.
  - intros r0 Hsome. eapply create_conflict; eauto.
Qed.

Lemma create_twice_witness :
  create_twice_keeps_first sample_db 1 2 "reddit" "z9" "A" "B"
    None None None None.
Proof.
  destruct (create_twice sample_db 1 2 "reddit" "z9" "A" "B"
              None None None None None None None None) as [Hfresh _].
  destruct (Hfresh eq_refl) as (r1 & _ & _ & _ & _ & _ & _ & H).
  exact H.
Defined.

(** The statement of C3 at a store that already has the key: the record
    left is the one stored before, not the first call's. *)
Lemma create_twice_existing_key :
  ~ create_twice_keeps_first sample_db 1 2 "reddit" "a1" "A" "B"
      None None None None.
Proof.
  unfold create_twice_keeps_first. simpl.
  intros (_ & _ & _ & r & Hread & Hargs).
  injection Hread as <-.
  destruct Hargs as (_ & _ & Httl & _). discriminate Httl.
Qed.

(** ** Upsert *)

Lemma update_existing (db : table) (now : Z) (s sid : string)
    (ttl dsc tgs : option string) (sc : option Q) (sd : option score_dict)
    (pr : option bool) (r0 : RedditSource) :
  read db s sid = Some r0 ->
  update db now s sid ttl dsc tgs sc sd pr
    = (Some (apply_update now ttl dsc tgs sc sd pr r0),
       replace_first (has_key s sid) (apply_update now ttl dsc tgs sc sd pr) db).
Proof. unfold read, update. intros ->. reflexivity. Qed.

Lemma read_after_update (db : table) (now : Z) (s sid : string)
    (ttl dsc tgs : option string) (sc : option Q) (sd : option score_dict)
    (pr : option bool) (r0 : RedditSource) :
  read db s sid = Some r0 ->
  read (replace_first (has_key s sid)
          (apply_update now ttl dsc tgs sc sd pr) db) s sid
    = Some (apply_update now ttl dsc tgs sc sd pr r0).
Proof.
  unfold read. intros H.
  rewrite find_replace_first_same, H; [reflexivity|].
  intros r. apply apply_update_has_key.
Qed.

Lemma count_key_after_update (db : table) (now : Z) (s sid : string)
    (ttl dsc tgs : option string) (sc : option Q) (sd : option score_dict)
    (pr : option bool) :
  count_key (replace_first (has_key s sid)
               (apply_update now ttl dsc tgs sc sd pr) db) s sid
    = count_key db s sid.
Proof.
  unfold count_key. rewrite filter_replace_first_length; [reflexivity|].
  intros r. apply apply_update_has_key.
Qed.

Lemma count_after_update (db : table) (p : RedditSource -> bool)
    (f : RedditSource -> RedditSource) :
  count (replace_first p f db) = count db.
Proof. unfold count. rewrite replace_first_length. reflexivity. Qed.

(** The fields of an updated row, argument by argument. *)
Lemma apply_update_supplied (now : Z) (ttl : string) (dsc tgs : option string)
    (sc : option Q) (sd : option score_dict) (r0 : RedditSource)
    (s sid : string) :
  has_key s sid r0 = true ->
  holds_supplied (apply_update now (Some ttl) dsc tgs sc sd None r0)
    s sid ttl dsc tgs sc sd /\
  keeps_omitted r0 (apply_update now (Some ttl) dsc tgs sc sd None r0)
    dsc tgs sc sd.
Proof.
  intros Hkey. apply has_key_true in Hkey. unfold natural_key in Hkey.
  injection Hkey as Hs Hsid.
  rewrite apply_update_touch, assign_fields.
  unfold holds_supplied, keeps_omitted, get_score_dict.
  destruct dsc, tgs, sc, sd; simpl;
    repeat split; try assumption; try congruence;
    intros; congruence.
Qed.

(** Updating with the arguments a row already holds keeps it holding
    them. *)
Lemma apply_update_holds (now : Z) (s sid ttl : string)
    (dsc tgs : option string) (sc : option Q) (sd : option score_dict)
    (r : RedditSource) :
  holds_arguments r s sid ttl dsc tgs sc sd ->
  holds_arguments (apply_update now (Some ttl) dsc tgs sc sd None r)
    s sid ttl dsc tgs sc sd.
Proof.
  rewrite apply_update_touch, assign_fields.
  unfold holds_arguments, get_score_dict.
  intros (Hs & Hsid & Httl & Hdsc & Htgs & Hsc & Hsd).
  destruct dsc, tgs, sc, sd; simpl in *; repeat split; assumption.
Qed.

(** A second update with the same arguments keeps what the first one
    kept of the prior row. *)
Lemma apply_update_twice_keeps (now1 now2 : Z) (ttl : string)
    (dsc tgs : option string) (sc : option Q) (sd : option score_dict)
    (r0 : RedditSource) :
  keeps_omitted r0
    (apply_update now2 (Some ttl) dsc tgs sc sd None
       (apply_update now1 (Some ttl) dsc tgs sc sd None r0))
    dsc tgs sc sd.
Proof.
  rewrite apply_update_touch, assign_fields.
  rewrite (apply_update_touch now1), assign_fields.
  unfold keeps_omitted.
  destruct dsc, tgs, sc, sd; simpl; repeat split; intros; congruence.
Qed.

(** C1, as the code has it: two [upsert] calls with the same arguments
    both succeed and leave exactly one record with the natural key, the
    one the second call returned; the count grows by one with the first
    call when the key was new (and not at all when it was not) and does
    not grow with the second call; the record holds every supplied
    argument; it holds all the arguments when the key was new, and when it
    was not, the fields of the omitted arguments are those of the record
    stored before. *)
Theorem upsert_twice (db : table) (now1 now2 : Z) (s sid ttl : string)
    (dsc tgs : option string) (sc : option Q) (sd : option score_dict) :
  unique_keys db ->
  exists (r1 : RedditSource) (db1 : table) (r2 : RedditSource) (db2 : table),
    upsert db now1 s sid ttl dsc tgs sc sd = (Some r1, db1) /\
    upsert db1 now2 s sid ttl dsc tgs sc sd = (Some r2, db2) /\
    count_key db2 s sid = 1 /\
    count db1 = count db + (match read db s sid with
                            | None => 1
                            | Some _ => 0
                            end) /\
    count db2 = count db1 /\
    read db2 s sid = Some r2 /\
    holds_supplied r2 s sid ttl dsc tgs sc sd /\
    (read db s sid = None -> holds_arguments r2 s sid ttl dsc tgs sc sd) /\
    (forall r0 : RedditSource, read db s sid = Some r0 ->
       keeps_omitted r0 r2 dsc tgs sc sd) /\
    unique_keys db2.
Proof.
  intros Huniq. unfold upsert at 1.
  destruct (read db s sid) as [r0|] eqn:Hread.
  - (* the key exists: both calls update *)
    pose proof (find_some _ _ Hread) as [_ Hkey0].
    set (r1 := apply_update now1 (Some ttl) dsc tgs sc sd None r0).
    set (db1 := replace_first (has_key s sid)
                  (apply_update now1 (Some ttl) dsc tgs sc sd None) db).
    assert (Hread1 : read db1 s sid = Some r1)
      by (apply read_after_update; exact Hread).
    set (r2 := apply_update now2 (Some ttl) dsc tgs sc sd None r1).
    set (db2 := replace_first (has_key s sid)
                  (apply_update now2 (Some ttl) dsc tgs sc sd None) db1).
    exists r1, db1, r2, db2.
    split; [apply update_existing; exact Hread|].
    split; [unfold upsert; rewrite Hread1; apply update_existing;
            exact Hread1|].
    split.
    { unfold db2, db1. rewrite !count_key_after_update.
      eapply count_key_unique; eauto. }
    split; [unfold db1; rewrite count_after_update; lia|].
    split; [unfold db2; apply count_after_update|].
    split; [apply read_after_update; exact Hread1|].
    split.
    { apply apply_update_supplied. unfold r1.
      rewrite apply_update_has_key. exact Hkey0. }
    split; [discriminate|].
    split.
    { intros r Hr. injection Hr as <-. apply apply_update_twice_keeps. }
    unfold db2, db1.
    apply unique_keys_replace_first; [intros; apply apply_update_key|].
    apply unique_keys_replace_first; [intros; apply apply_update_key|].
    exact Huniq.
  - (* the key is new: the first call creates, the second updates *)
    destruct (create_fresh db now1 s sid ttl dsc tgs sc sd Hread)
      as (r1 & Hc & Hargs & _).
    assert (Hkey : has_key s sid r1 = true)
      by (eapply holds_arguments_key; eauto).
    assert (Hread1 : read (db ++ [r1]) s sid = Some r1)
      by (apply find_app_none; assumption).
    set (r2 := apply_update now2 (Some ttl) dsc tgs sc sd None r1).
    set (db2 := replace_first (has_key s sid)
                  (apply_update now2 (Some ttl) dsc tgs sc sd None)
                  (db ++ [r1])).
    exists r1, (db ++ [r1])%list, r2, db2.
    split; [exact Hc|].
    split; [unfold upsert; rewrite Hread1; apply update_existing;
            exact Hread1|].
    split.
    { unfold db2. rewrite count_key_after_update, count_key_append,
        count_key_absent by assumption. reflexivity. }
    split; [apply count_append|].
    split; [unfold db2; apply count_after_update|].
    split; [apply read_after_update; exact Hread1|].
    split; [apply apply_update_supplied; exact Hkey|].
    split; [intros _; apply apply_update_holds; exact Hargs|].
    split; [discriminate|].
    unfold db2.
    apply unique_keys_replace_first; [intros; apply apply_update_key|].
    apply unique_keys_append; [exact Huniq|].
    destruct Hargs as (-> & -> & _). exact Hread.
Qed.

Lemma sample_db_unique : unique_keys sample_db.
Proof.
  unfold unique_keys. simpl.
  repeat constructor; simpl; intuition discriminate.
Defined.

Lemma upsert_twice_witness :
  exists (r1 : RedditSource) (db1 : table) (r2 : RedditSource) (db2 : table),
    upsert sample_db 1 "reddit" "z9" "T" None None (Some (5 # 1)) None
      = (Some r1, db1) /\
    upsert db1 2 "reddit" "z9" "T" None None (Some (5 # 1)) None
      = (Some r2, db2) /\
    count_key db2 "reddit" "z9" = 1 /\
    count db1 = count sample_db + 1 /\
    count db2 = count db1.
Proof.
  destruct (upsert_twice sample_db 1 2 "reddit" "z9" "T" None None
              (Some (5 # 1)) None sample_db_unique)
    as (r1 & db1 & r2 & db2 & H1 & H2 & H3 & H4 & H5 & _).
  exists r1, db1, r2, db2.
  split; [exact H1|]. split; [exact H2|]. split; [exact H3|].
  split; [exact H4|exact H5].
Defined.

(** The statement of C1 at a store whose record of that key has a
    description, for a call that omits the description: the record keeps
    the description, while the argument is absent. *)
Lemma upsert_twice_omitted_argument :
  ~ upsert_twice_holds_arguments sample_db 1 2 "reddit" "a1" "T1"
      None None None None.
Proof.
  unfold upsert_twice_holds_arguments. simpl.
  intros (_ & _ & _ & r & Hread & Hargs).
  injection Hread as <-.
  destruct Hargs as (_ & _ & _ & Hdsc & _). discriminate Hdsc.
Qed.

(** ** Listing *)



Section ListingFacts.

Variable encode : score_dict -> string.
Variable further_attribute : string -> option attribute.








(** The ordering-and-limit example of the specification, and a limit of
    0 on the same table. *)
Example list_all_top_two :
  list_all encode further_attribute sample_db (Some 2) "score" false
  = Py.Returns [ sample_row 2 "b2" "T2" None (50 # 1);
                 sample_row 3 "c3" "T3" None (30 # 1) ].
Proof. reflexivity. Qed.

Example list_all_limit_zero_all :
  list_all encode further_attribute sample_db (Some 0) "score" false
  = Py.Returns [ sample_row 2 "b2" "T2" None (50 # 1);
                 sample_row 3 "c3" "T3" None (30 # 1);
                 sample_row 1 "a1" "T1" (Some "D1"%string) (10 # 1) ].
Proof. reflexivity. Qed.


End ListingFacts.


(** ** The constraint as an invariant *)

(** X1: whatever sequence of [create], [update], [upsert], [delete] and
    [clear_all] calls is run on the empty store, no two records share a
    natural key: every key has at most one record. *)
Theorem store_keeps_keys_unique (calls : list call) (s sid : string) :
  unique_keys (fold_left step calls []) /\
  count_key (fold_left step calls []) s sid <= 1.
Proof.
  assert (H : unique_keys (fold_left step calls [])).
  { apply reachable_unique. exists calls. reflexivity. }
  split; [exact H|].
  destruct (read (fold_left step calls []) s sid) as [r|] eqn:E.
  - rewrite (count_key_unique _ _ _ _ H E). lia.
  - rewrite (count_key_absent _ _ _ E). lia.
Qed.

(** ** Delete *)

Lemma remove_first_length (p : RedditSource -> bool) (db : table)
    (r : RedditSource) :
  find p db = Some r ->
  S (List.length (remove_first p db)) = List.length db.
Proof.
  induction db as [|x db IH]; simpl; [discriminate|].
  destruct (p x); [reflexivity|]. intros H. simpl. rewrite IH; auto.
Qed.

Lemma find_remove_first_other (p q : RedditSource -> bool) (db : table) :
  (forall r, p r = true -> q r = false) ->
  find q (remove_first p db) = find q db.
Proof.
  intros Hpq. induction db as [|x db IH]; simpl; [reflexivity|].
  destruct (p x) eqn:E.
  - rewrite (Hpq x E). reflexivity.
  - simpl. destruct (q x); [reflexivity|exact IH].
Qed.

Lemma find_remove_first_unique (s sid : string) (db : table) :
  unique_keys db ->
  find (has_key s sid) (remove_first (has_key s sid) db) = None.
Proof.
  unfold unique_keys. induction db as [|x db IH]; simpl; intros H;
    [reflexivity|].
  inversion H as [|? ? Hnotin Hnd]; subst.
  destruct (has_key s sid x) eqn:E.
  - destruct (find (has_key s sid) db) as [y|] eqn:Ey; [|reflexivity].
    exfalso. apply Hnotin. apply find_some in Ey. destruct Ey as [Hin Hy].
    apply has_key_true in E. apply has_key_true in Hy.
    rewrite E, <- Hy. apply in_map, Hin.
  - simpl. rewrite E. apply IH, Hnd.
Qed.

(** X2: on a store with unique keys, [delete] of a key that has a record
    returns [True], after it the key reads as absent, the count is one
    less and every other key reads as before; [delete] of a key without a
    record returns [False] and leaves the store as it was. *)
Theorem delete_removes (db : table) (s sid : string) :
  (forall r0 : RedditSource, read db s sid = Some r0 -> unique_keys db ->
   exists db' : table,
     delete db s sid = (true, db') /\
     read db' s sid = None /\
     count db' = count db - 1 /\
     (forall s' sid' : string, (s', sid') <> (s, sid) ->
        read db' s' sid' = read db s' sid')) /\
  (read db s sid = None -> delete db s sid = (false, db)).
Proof.
  unfold read, delete. split.
  - intros r0 Hr0 Huniq. rewrite Hr0.
    exists (remove_first (has_key s sid) db).
    split; [reflexivity|].
    split; [apply find_remove_first_unique, Huniq|].
    split.
    + unfold count. rewrite <- (remove_first_length _ _ _ Hr0). lia.
    + intros s' sid' Hne. apply find_remove_first_other.
      intros r. apply has_key_other, Hne.
  - intros ->. reflexivity.
Qed.

Lemma delete_removes_witness :
  exists db' : table,
    delete sample_db "reddit" "b2" = (true, db') /\
    read db' "reddit" "b2" = None /\
    count db' = count sample_db - 1.
Proof.
  destruct (delete_removes sample_db "reddit" "b2") as [Hfound _].
  destruct (Hfound _ eq_refl sample_db_unique) as (db' & H1 & H2 & H3 & _).
  exists db'. repeat split; assumption.
Defined.

Lemma remove_first_append (p : RedditSource -> bool) (db : table)
    (r : RedditSource) :
  find p db = None -> p r = true -> remove_first p (db ++ [r]) = db.
Proof.
  induction db as [|x db IH]; simpl; intros Hf Hr.
  - rewrite Hr. reflexivity.
  - destruct (p x); [discriminate|]. rewrite IH; auto.
Qed.

(** X3: [create] of a key that has no record, then [read], gives back the
    record created, and [delete] of that key then restores the store
    exactly as it was before the [create]. *)
Theorem create_then_delete (db : table) (now : Z) (s sid ttl : string)
    (dsc tgs : option string) (sc : option Q) (sd : option score_dict) :
  read db s sid = None ->
  exists (r : RedditSource) (db1 : table),
    create db now s sid ttl dsc tgs sc sd = (Some r, db1) /\
    read db1 s sid = Some r /\
    delete db1 s sid = (true, db).
Proof.
  intros Hnone.
  destruct (create_fresh db now s sid ttl dsc tgs sc sd Hnone)
    as (r & Hc & Hargs & _).
  assert (Hkey : has_key s sid r = true)
    by (eapply holds_arguments_key; eauto).
  assert (Hread : read (db ++ [r]) s sid = Some r)
    by (apply find_app_none; assumption).
  exists r, (db ++ [r])%list.
  split; [exact Hc|]. split; [exact Hread|].
  unfold delete. unfold read in Hread. rewrite Hread.
  rewrite remove_first_append by assumption. reflexivity.
Qed.

Lemma create_then_delete_witness :
  exists (r : RedditSource) (db1 : table),
    create sample_db 5 "reddit" "z9" "T" None None None None = (Some r, db1) /\
    read db1 "reddit" "z9" = Some r /\
    delete db1 "reddit" "z9" = (true, sample_db).
Proof.
  apply (create_then_delete sample_db 5 "reddit" "z9" "T" None None None None).
  reflexivity.
Defined.

(** ** Two updates in a row *)

Lemma but_updated_at_update (now : Z) (t d g : option string) (c : option Q)
    (m : option score_dict) (p : option bool) (r : RedditSource) :
  but_updated_at (apply_update now t d g c m p r)
  = but_updated_at (assign t d g c m p r).
Proof. rewrite apply_update_touch. reflexivity. Qed.

Lemma assign_touch (t d g : option string) (c : option Q)
    (m : option score_dict) (p : option bool) (r : RedditSource) (now : Z) :
  but_updated_at (assign t d g c m p (touch r now))
  = but_updated_at (assign t d g c m p r).
Proof. rewrite !assign_fields. reflexivity. Qed.

Lemma apply_update_twice (now1 now2 : Z) (t1 d1 g1 : option string)
    (c1 : option Q) (m1 : option score_dict) (p1 : option bool)
    (t2 d2 g2 : option string) (c2 : option Q) (m2 : option score_dict)
    (p2 : option bool) (r : RedditSource) :
  but_updated_at
    (apply_update now2 t2 d2 g2 c2 m2 p2
       (apply_update now1 t1 d1 g1 c1 m1 p1 r))
  = but_updated_at
      (apply_update now2 (later t2 t1) (later d2 d1) (later g2 g1)
         (later c2 c1) (later m2 m1) (later p2 p1) r).
Proof.
  rewrite !but_updated_at_update.
  rewrite (apply_update_touch now1), assign_touch.
  rewrite !assign_fields. unfold but_updated_at, touch. simpl.
  f_equal.
  - destruct t2, t1; reflexivity.
  - destruct d2, d1; reflexivity.
  - destruct g2, g1; reflexivity.
  - destruct c2, c1; reflexivity.
  - destruct m2, m1; reflexivity.
  - destruct p2, p1; reflexivity.
Qed.

Lemma replace_first_twice (p : RedditSource -> bool)
    (f g : RedditSource -> RedditSource) (db : table) :
  (forall r, p (f r) = p r) ->
  replace_first p g (replace_first p f db)
  = replace_first p (fun r => g (f r)) db.
Proof.
  intros Hp. induction db as [|x db IH]; simpl; [reflexivity|].
  destruct (p x) eqn:E; simpl.
  - rewrite Hp, E. reflexivity.
  - rewrite E, IH. reflexivity.
Qed.

Lemma map_replace_first (h : RedditSource -> RedditSource)
    (p : RedditSource -> bool) (f g : RedditSource -> RedditSource)
    (db : table) :
  (forall r, h (f r) = h (g r)) ->
  map h (replace_first p f db) = map h (replace_first p g db).
Proof.
  intros H. induction db as [|x db IH]; simpl; [reflexivity|].
  destruct (p x); simpl; [rewrite H|rewrite IH]; reflexivity.
Qed.

(** X4: two [update] calls on one key amount, in every column but
    [updated_at], to one [update] in which every field takes the second
    call's argument when it was supplied and the first call's otherwise:
    the record returned and the rows of the store hold the same values,
    and both ways return nothing and leave the store alone when the key
    has no record. *)
Theorem update_twice (db : table) (now1 now2 : Z) (s sid : string)
    (t1 d1 g1 : option string) (c1 : option Q) (m1 : option score_dict)
    (p1 : option bool) (t2 d2 g2 : option string) (c2 : option Q)
    (m2 : option score_dict) (p2 : option bool) :
  option_map but_updated_at
    (fst (update (snd (update db now1 s sid t1 d1 g1 c1 m1 p1)) now2 s sid
            t2 d2 g2 c2 m2 p2))
  = option_map but_updated_at
      (fst (update db now2 s sid (later t2 t1) (later d2 d1) (later g2 g1)
              (later c2 c1) (later m2 m1) (later p2 p1))) /\
  map but_updated_at
    (snd (update (snd (update db now1 s sid t1 d1 g1 c1 m1 p1)) now2 s sid
            t2 d2 g2 c2 m2 p2))
  = map but_updated_at
      (snd (update db now2 s sid (later t2 t1) (later d2 d1) (later g2 g1)
              (later c2 c1) (later m2 m1) (later p2 p1))) /\
  (read db s sid = None ->
   update (snd (update db now1 s sid t1 d1 g1 c1 m1 p1)) now2 s sid
     t2 d2 g2 c2 m2 p2 = (None, db) /\
   update db now2 s sid (later t2 t1) (later d2 d1) (later g2 g1)
     (later c2 c1) (later m2 m1) (later p2 p1) = (None, db)).
Proof.
  destruct (read db s sid) as [r0|] eqn:Hread.
  - rewrite (update_existing db now1 s sid t1 d1 g1 c1 m1 p1 r0 Hread).
    simpl snd.
    rewrite (update_existing _ now2 s sid t2 d2 g2 c2 m2 p2 _
               (read_after_update db now1 s sid t1 d1 g1 c1 m1 p1 r0 Hread)).
    rewrite (update_existing db now2 s sid _ _ _ _ _ _ r0 Hread).
    simpl fst. simpl snd. simpl option_map.
    split; [rewrite apply_update_twice; reflexivity|].
    split; [|discriminate].
    rewrite replace_first_twice by (intros r; apply apply_update_has_key).
    apply map_replace_first. intros r. apply apply_update_twice.
  - unfold read in Hread. unfold update. rewrite Hread. simpl snd.
    rewrite Hread. repeat split.
Qed.

Lemma update_twice_witness :
  update (snd (update sample_db 1 "reddit" "z9" (Some "A"%string) None None
                 None None None)) 2 "reddit" "z9" None None None None None
    (Some true)
  = (None, sample_db).
Proof.
  destruct (update_twice sample_db 1 2 "reddit" "z9" (Some "A"%string) None
              None None None None None None None None None (Some true))
    as (_ & _ & Habsent).
  destruct (Habsent eq_refl) as [H _]. exact H.
Defined.

(** The two ways differ in [updated_at] when the second call changes
    nothing: the record keeps the time of the first call, while the single
    call is stamped with its own time. *)
Example update_twice_times :
  option_map updated_at
    (fst (update (snd (update sample_db 5 "reddit" "a1" (Some "T2"%string)
                         None None None None None))
            9 "reddit" "a1" None None None None None None)) = Some 5 /\
  option_map updated_at
    (fst (update sample_db 9 "reddit" "a1" (Some "T2"%string)
            None None None None None)) = Some 9.
Proof. split; reflexivity. Qed.

(** ** Loading a batch *)

Lemma holds_arguments_supplied (r : RedditSource) (s sid ttl : string)
    (dsc tgs : option string) (sc : option Q) (sd : option score_dict) :
  holds_arguments r s sid ttl dsc tgs sc sd ->
  holds_supplied r s sid ttl dsc tgs sc sd.
Proof.
  intros (Hs & Hsid & Httl & Hdsc & Htgs & Hsc & Hsd).
  repeat split; try assumption; intros v E; subst; auto.
Qed.

(** What [upsert] leaves under its own key and under the others. *)
Lemma upsert_item_read (db : table) (i : item) :
  exists r : RedditSource,
    read (upsert_item db i) (i_source i) (i_source_id i) = Some r /\
    holds_supplied r (i_source i) (i_source_id i) (i_title i)
      (i_description i) (i_tags i) (i_score i) (i_score_dictionary i).
Proof.
  unfold upsert_item, upsert.
  destruct (read db (i_source i) (i_source_id i)) as [r0|] eqn:Hread.
  - rewrite (update_existing _ _ _ _ _ _ _ _ _ _ _ Hread). simpl snd.
    rewrite (read_after_update _ _ _ _ _ _ _ _ _ _ _ Hread).
    eexists. split; [reflexivity|].
    apply apply_update_supplied.
    apply (find_some _ _ Hread).
  - destruct (create_fresh db (i_now i) (i_source i) (i_source_id i)
                (i_title i) (i_description i) (i_tags i) (i_score i)
                (i_score_dictionary i) Hread) as (r & Hc & Hargs & _).
    rewrite Hc. simpl snd. exists r. split.
    + apply find_app_none; [exact Hread|].
      eapply holds_arguments_key; eauto.
    + apply holds_arguments_supplied, Hargs.
Qed.

Lemma upsert_item_read_other (db : table) (i : item) (s sid : string) :
  item_key i <> (s, sid) ->
  read (upsert_item db i) s sid = read db s sid.
Proof.
  intros Hne. unfold upsert_item, upsert.
  destruct (read db (i_source i) (i_source_id i)) as [r0|] eqn:Hread.
  - rewrite (update_existing _ _ _ _ _ _ _ _ _ _ _ Hread). simpl snd.
    apply find_replace_first_other.
    + intros r. apply apply_update_has_key.
    + intros r Hr. apply has_key_true in Hr.
      destruct (has_key s sid r) eqn:E; [|reflexivity].
      apply has_key_true in E. exfalso. apply Hne.
      unfold item_key. congruence.
  - destruct (create_fresh db (i_now i) (i_source i) (i_source_id i)
                (i_title i) (i_description i) (i_tags i) (i_score i)
                (i_score_dictionary i) Hread) as (r & Hc & Hargs & _).
    rewrite Hc. simpl snd. apply find_app_other.
    destruct (has_key s sid r) eqn:E; [|reflexivity].
    apply has_key_true in E. exfalso. apply Hne.
    destruct Hargs as (Hs & Hsid & _). unfold natural_key in E.
    unfold item_key. congruence.
Qed.

Lemma upsert_each_read_other (posts : list item) :
  forall (db : table) (s sid : string),
  Forall (fun j => item_key j <> (s, sid)) posts ->
  read (upsert_each db posts) s sid = read db s sid.
Proof.
  induction posts as [|j posts IH]; intros db s sid H; [reflexivity|].
  inversion H as [|? ? Hj Hposts]; subst.
  change (upsert_each db (j :: posts))
    with (upsert_each (upsert_item db j) posts).
  rewrite IH by exact Hposts.
  apply upsert_item_read_other, Hj.
Qed.

(** X5: after the loop that upserts each post of a list, the record read
    for a post's key holds every argument supplied by the last post of the
    list with that key (its title in particular). *)
Theorem upsert_each_last_wins (db : table) (before : list item) (i : item)
    (after : list item) :
  Forall (fun j => item_key j <> item_key i) after ->
  exists r : RedditSource,
    read (upsert_each db (before ++ i :: after)) (i_source i) (i_source_id i)
      = Some r /\
    holds_supplied r (i_source i) (i_source_id i) (i_title i)
      (i_description i) (i_tags i) (i_score i) (i_score_dictionary i).
Proof.
  intros Hafter.
  replace (upsert_each db (before ++ i :: after))
    with (upsert_each (upsert_item (upsert_each db before) i) after)
    by (unfold upsert_each; rewrite fold_left_app; reflexivity).
  destruct (upsert_item_read (upsert_each db before) i) as (r & Hread & Hsup).
  exists r. split; [|exact Hsup].
  rewrite <- Hread. apply (upsert_each_read_other after). exact Hafter.
Qed.

Lemma upsert_each_last_wins_witness :
  exists r : RedditSource,
    read (upsert_each sample_db
            [mkItem 1 "reddit" "a1" "A" None None None None;
             mkItem 2 "reddit" "a1" "B" None None None None;
             mkItem 3 "reddit" "z9" "C" None None None None])
      "reddit" "a1" = Some r /\
    title r = "B"%string.
Proof.
  destruct (upsert_each_last_wins sample_db
              [mkItem 1 "reddit" "a1" "A" None None None None]
              (mkItem 2 "reddit" "a1" "B" None None None None)
              [mkItem 3 "reddit" "z9" "C" None None None None])
    as (r & Hread & Hsup).
  - constructor; [discriminate|constructor].
  - exists r. split; [exact Hread|]. apply Hsup.
Defined.

Lemma upsert_item_keys (db : table) (i : item) :
  map natural_key (upsert_item db i)
  = if existsb (has_key (i_source i) (i_source_id i)) db
    then map natural_key db
    else (map natural_key db ++ [item_key i])%list.
Proof.
  unfold upsert_item, upsert. rewrite find_existsb. unfold read.
  destruct (find (has_key (i_source i) (i_source_id i)) db) as [r0|] eqn:Hread.
  - rewrite (update_existing _ _ _ _ _ _ _ _ _ _ _ Hread). simpl snd.
    clear Hread. induction db as [|x db IH]; simpl; [reflexivity|].
    destruct (has_key (i_source i) (i_source_id i) x); simpl.
    + rewrite apply_update_key. reflexivity.
    + rewrite IH. reflexivity.
  - destruct (create_fresh db (i_now i) (i_source i) (i_source_id i)
                (i_title i) (i_description i) (i_tags i) (i_score i)
                (i_score_dictionary i) Hread) as (r & Hc & Hargs & _).
    rewrite Hc. simpl snd. rewrite map_app. simpl.
    destruct Hargs as (Hs & Hsid & _). unfold natural_key at 2, item_key.
    rewrite Hs, Hsid. reflexivity.
Qed.

Lemma existsb_has_key (db : table) (s sid : string) :
  existsb (has_key s sid) db = true <-> In (s, sid) (map natural_key db).
Proof.
  rewrite existsb_exists, in_map_iff. split.
  - intros (x & Hx & Hk). exists x. split; [apply has_key_true, Hk|exact Hx].
  - intros (x & Hk & Hx). exists x. split; [exact Hx|apply has_key_true, Hk].
Qed.

Lemma upsert_each_keys (posts : list item) :
  forall db : table,
  unique_keys db ->
  unique_keys (upsert_each db posts) /\
  (forall k, In k (map natural_key (upsert_each db posts)) <->
             In k (map natural_key db) \/ In k (map item_key posts)).
Proof.
  induction posts as [|j posts IH]; intros db Hu.
  - split; [exact Hu|]. intros k. simpl. tauto.
  - assert (Hu' : unique_keys (upsert_item db j)).
    { apply (step_unique db
               (Upsert (i_now j) (i_source j) (i_source_id j) (i_title j)
                  (i_description j) (i_tags j) (i_score j)
                  (i_score_dictionary j)) Hu). }
    destruct (IH _ Hu') as [Hfinal Hin]. split; [exact Hfinal|].
    intros k.
    change (upsert_each db (j :: posts))
      with (upsert_each (upsert_item db j) posts).
    rewrite Hin, upsert_item_keys. simpl map.
    destruct (existsb (has_key (i_source j) (i_source_id j)) db) eqn:E.
    + apply existsb_has_key in E. fold (item_key j) in E.
      simpl. split; [tauto|]. intros [H|[<-|H]]; auto.
    + rewrite in_app_iff. simpl. tauto.
Qed.

(** X6: the loop that upserts each post of a list into the empty store
    leaves as many records as the list has distinct natural keys. *)
Theorem upsert_each_count (posts : list item) :
  count (upsert_each [] posts)
  = Z.of_nat (List.length (nodup key_eq_dec (map item_key posts))).
Proof.
  destruct (upsert_each_keys posts [] (NoDup_nil _)) as [Hu Hin].
  unfold count. f_equal.
  rewrite <- (length_map natural_key).
  apply Permutation_length, NoDup_Permutation.
  - exact Hu.
  - apply NoDup_nodup.
  - intros k. rewrite Hin, nodup_In. simpl. tauto.
Qed.

(** ** Listing with a limit *)

Lemma ascii_compare_trans (a b c : ascii) :
  Ascii.compare a b <> Gt -> Ascii.compare b c <> Gt ->
  Ascii.compare a c <> Gt.
Proof.
  unfold Ascii.compare. rewrite !N.compare_ngt_iff. intros. lia.
Qed.




Section LimitFacts.

Variable encode : score_dict -> string.
Variable further_attribute : string -> option attribute.



End LimitFacts.


End StoreFacts.

(* ====================================================================== *)
(** * Properties of the rate limiter *)
(* ====================================================================== *)

Module LimiterFacts.
Import Limiter.
Local Open Scope Z_scope.

Lemma seconds_nonneg (w : Z) : 0 <= w -> 0 <= seconds w.
Proof. unfold seconds. lia. Qed.

(** The entries kept by the filter of [wait_if_needed]. *)
Lemma kept_recent (cutoff : Z) (l : list Z) :
  Forall (fun x => cutoff < x) (filter (fun req => cutoff <? req) l).
Proof.
  apply Forall_forall. intros x Hx. apply filter_In in Hx.
  destruct Hx as [_ Hx]. apply Z.ltb_lt, Hx.
Qed.

Lemma kept_all (cutoff : Z) (l : list Z) :
  Forall (fun x => cutoff < x) l -> filter (fun req => cutoff <? req) l = l.
Proof.
  induction 1 as [|x l Hx Hl IH]; simpl; [reflexivity|].
  apply Z.ltb_lt in Hx. rewrite Hx, IH. reflexivity.
Qed.

(** What a call does, by the two cases of its test. *)
Lemma wait_below (self : RateLimiter) (now : Z) :
  Z.of_nat (List.length
     (filter (fun req => now - seconds (time_window self) <? req)
        (requests self))) < max_requests self ->
  wait_if_needed self now =
    Py.Returns
      (set_requests self
         (filter (fun req => now - seconds (time_window self) <? req)
            (requests self) ++ [now]), 0).
Proof.
  intros H. unfold wait_if_needed.
  destruct (Z.leb_spec (max_requests self)
              (Z.of_nat (List.length
                 (filter (fun req => now - seconds (time_window self) <? req)
                    (requests self))))); [lia|reflexivity].
Qed.

Lemma wait_at_limit (self : RateLimiter) (now : Z) :
  1 <= max_requests self ->
  max_requests self <=
    Z.of_nat (List.length
       (filter (fun req => now - seconds (time_window self) <? req)
          (requests self))) ->
  exists (oldest : Z) (rest : list Z),
    filter (fun req => now - seconds (time_window self) <? req)
      (requests self) = oldest :: rest /\
    0 < oldest + seconds (time_window self) - now /\
    wait_if_needed self now =
      Py.Returns
        (set_requests self [now],
         oldest + seconds (time_window self) - now + margin).
Proof.
  intros Hmax H. unfold wait_if_needed.
  pose proof (kept_recent (now - seconds (time_window self)) (requests self))
    as Hrecent.
  destruct (filter _ (requests self)) as [|oldest rest] eqn:E.
  - simpl in H. lia.
  - exists oldest, rest. inversion Hrecent; subst.
    split; [reflexivity|]. split; [lia|].
    destruct (Z.leb_spec (max_requests self)
                (Z.of_nat (List.length (oldest :: rest)))); [|lia].
    destruct (Z.ltb_spec 0 (oldest + seconds (time_window self) - now));
      [reflexivity|lia].
Qed.

(** A call of a limiter that admits at least one request per window
    returns, holding at most [max_requests] timestamps, each of them inside
    the trailing window of the call. *)
Lemma wait_returns (self : RateLimiter) (now : Z) :
  1 <= max_requests self ->
  exists (l : list Z) (slept : Z),
    wait_if_needed self now = Py.Returns (set_requests self l, slept) /\
    0 <= slept /\
    Z.of_nat (List.length l) <= max_requests self /\
    Forall (fun x => now - seconds (time_window self) < x \/ x = now) l.
Proof.
  intros Hmax.
  destruct (Z.lt_ge_cases
              (Z.of_nat (List.length
                 (filter (fun req => now - seconds (time_window self) <? req)
                    (requests self)))) (max_requests self)) as [Hlt|Hge].
  - eexists _, 0. split; [apply wait_below; exact Hlt|].
    split; [lia|]. split.
    + rewrite length_app. simpl. lia.
    + apply Forall_app. split.
      * eapply Forall_impl; [|apply kept_recent]. simpl. intros; left; lia.
      * constructor; [right; reflexivity|constructor].
  - destruct (wait_at_limit self now Hmax Hge) as (o & rest & _ & Hpos & Hw).
    eexists [now], _. split; [exact Hw|].
    unfold margin. split; [lia|]. split; [simpl; lia|].
    constructor; [right; reflexivity|constructor].
Qed.

(** The call is recorded: [now] is the newest timestamp held. *)
Lemma wait_records (self : RateLimiter) (now : Z) :
  1 <= max_requests self ->
  exists (l : list Z) (slept : Z),
    wait_if_needed self now = Py.Returns (set_requests self (l ++ [now]), slept).
Proof.
  intros Hmax.
  destruct (Z.lt_ge_cases (Z.of_nat (List.length (kept self now)))
              (max_requests self)) as [Hlt|Hge].
  - exists (kept self now), 0. apply wait_below. exact Hlt.
  - destruct (wait_at_limit self now Hmax Hge) as (o & rest & _ & _ & Hw).
    exists [], (o + seconds (time_window self) - now + margin). exact Hw.
Qed.

Lemma run_bounded (gaps : list Z) :
  forall (self : RateLimiter) (clock : Z),
  1 <= max_requests self ->
  exists (l : list Z) (t : Z) (adms : list admission),
    run self clock gaps = Py.Returns (set_requests self l, t, adms) /\
    List.length adms = List.length gaps /\
    Forall (within_bound (max_requests self) (time_window self)) adms /\
    (Forall (fun g => 0 <= g) gaps -> clock <= t).
Proof.
  induction gaps as [|gap gaps IH]; intros self clock Hmax; simpl.
  - exists (requests self), clock, []. destruct self; simpl.
    split; [reflexivity|]. split; [reflexivity|].
    split; [constructor|lia].
  - destruct (wait_returns self (clock + gap) Hmax)
      as (l & slept & Hw & Hslept & Hlen & Hin).
    rewrite Hw.
    destruct (IH (set_requests self l) (clock + gap + slept) Hmax)
      as (l' & t & adms & Hrun & Hn & Hall & Hmono).
    rewrite Hrun. exists l', t. eexists.
    split; [reflexivity|]. split; [simpl; congruence|].
    split.
    + constructor; [|exact Hall].
      unfold within_bound. simpl. repeat split; try assumption. lia.
    + intros Hg. inversion Hg; subst. specialize (Hmono H2). lia.
Qed.

Lemma wait_pending (self : RateLimiter) (now a1 : Z) (k : nat) :
  1 <= max_requests self ->
  pending a1 k (requests self) -> a1 <= now ->
  exists (l : list Z) (slept : Z),
    wait_if_needed self now = Py.Returns (set_requests self l, slept) /\
    0 <= slept /\
    (a1 + seconds (time_window self) <= now + slept \/
     (pending a1 (S k) l /\ Z.of_nat (S k) <= max_requests self /\ slept = 0)).
Proof.
  intros Hmax ((rest & Hl) & Hlen & Hall) Hnow.
  destruct (Z.le_gt_cases (a1 + seconds (time_window self)) now) as [Hold|Hnew].
  - destruct (wait_returns self now Hmax) as (l & slept & Hw & Hs & _).
    exists l, slept. split; [exact Hw|]. split; [exact Hs|]. left. lia.
  - assert (Hkept : filter (fun req => now - seconds (time_window self) <? req)
                      (requests self) = requests self).
    { apply kept_all. eapply Forall_impl; [|exact Hall]. simpl. intros; lia. }
    destruct (Z.lt_ge_cases (Z.of_nat k) (max_requests self)) as [Hlt|Hge].
    + exists (requests self ++ [now]), 0.
      split; [rewrite wait_below, Hkept; [reflexivity|rewrite Hkept; lia]|].
      split; [lia|]. right. split; [|split; [lia|reflexivity]].
      split; [exists (rest ++ [now]); rewrite Hl; reflexivity|].
      split; [rewrite length_app; simpl; lia|].
      apply Forall_app. split; [exact Hall|repeat constructor; exact Hnow].
    + destruct (wait_at_limit self now Hmax) as (o & r & Ho & Hpos & Hw).
      { rewrite Hkept. lia. }
      rewrite Hkept, Hl in Ho. injection Ho as <- <-.
      eexists _, _. split; [exact Hw|]. unfold margin. split; [lia|].
      left. lia.
Qed.

Lemma run_pending (gaps : list Z) :
  forall (self : RateLimiter) (clock a1 : Z) (k : nat),
  1 <= max_requests self ->
  pending a1 k (requests self) -> a1 <= clock ->
  Z.of_nat k <= max_requests self ->
  Forall (fun g => 0 <= g) gaps ->
  max_requests self < Z.of_nat (k + List.length gaps) ->
  exists (rl : RateLimiter) (t : Z) (adms : list admission),
    run self clock gaps = Py.Returns (rl, t, adms) /\
    a1 + seconds (time_window self) <= t.
Proof.
  induction gaps as [|gap gaps IH];
    intros self clock a1 k Hmax Hpend Hclock Hk Hgaps Hmany.
  - exfalso. simpl in Hmany. lia.
  - inversion Hgaps as [|? ? Hgap Hgaps']; subst. simpl.
    destruct (wait_pending self (clock + gap) a1 k Hmax Hpend)
      as (l & slept & Hw & Hslept & Hcase); [lia|].
    rewrite Hw.
    destruct Hcase as [Hdone|(Hpend' & Hk' & ->)].
    + destruct (run_bounded gaps (set_requests self l)
                  (clock + gap + slept) Hmax)
        as (l' & t & adms & Hrun & _ & _ & Hmono).
      rewrite Hrun. eexists _, t, _. split; [reflexivity|].
      specialize (Hmono Hgaps'). lia.
    + destruct (IH (set_requests self l) (clock + gap + 0) a1 (S k))
        as (rl & t & adms & Hrun & Ht); try assumption; try lia.
      { simpl in Hmany |- *. lia. }
      rewrite Hrun. eexists _, t, _. split; [reflexivity|exact Ht].
Qed.

(** More calls than [max_requests], one after another on a fresh limiter,
    take at least the window. *)
Lemma run_takes_window (m w t0 : Z) (gaps : list Z) :
  1 <= m ->
  Forall (fun g => 0 <= g) gaps ->
  m < Z.of_nat (List.length gaps) ->
  exists (rl : RateLimiter) (t : Z) (adms : list admission),
    run (init m w) t0 gaps = Py.Returns (rl, t, adms) /\
    t0 + seconds w <= t.
Proof.
  intros Hm Hgaps Hmany.
  destruct gaps as [|gap gaps]; [simpl in Hmany; lia|].
  inversion Hgaps as [|? ? Hgap Hgaps']; subst.
  simpl. rewrite wait_below by (simpl; lia). simpl.
  assert (Hpend : pending (t0 + gap) 1
            (requests (set_requests (init m w) [t0 + gap]))).
  { split; [exists []; reflexivity|].
    split; [reflexivity|repeat constructor; lia]. }
  assert (Hlen : max_requests (set_requests (init m w) [t0 + gap])
                 < Z.of_nat (1 + List.length gaps)).
  { simpl in Hmany |- *. lia. }
  destruct (run_pending gaps (set_requests (init m w) [t0 + gap])
              (t0 + gap + 0) (t0 + gap) 1 Hm Hpend
              ltac:(lia) ltac:(simpl; lia) Hgaps' Hlen)
    as (rl & t & adms & Hrun & Ht).
  simpl in Hrun. rewrite Hrun. eexists _, t, _.
  split; [reflexivity|]. simpl in Ht. lia.
Qed.

(** Five calls back to back from instant 0: the fourth sleeps for 1.1
    seconds.  A limiter that admits nothing fails on its first call. *)
Example five_back_to_back :
  run (init 3 1) 0 [0; 0; 0; 0; 0]
    = Py.Returns
        (mkRateLimiter 3 1 [1100000], 1100000,
         [ mkAdmission 0 0 [0];
           mkAdmission 0 0 [0; 0];
           mkAdmission 0 0 [0; 0; 0];
           mkAdmission 0 1100000 [0];
           mkAdmission 1100000 1100000 [1100000] ]).
Proof. reflexivity. Qed.

Example no_request_allowed :
  wait_if_needed (init 0 1) 0 = Py.Raises Py.IndexError.
Proof. reflexivity. Qed.

(** With a window that is positive, no timestamp held from the future
    and a clock that does not run backwards, the timestamps held after a
    call lie inside the trailing window of the call. *)
Lemma run_inside (gaps : list Z) :
  forall (self : RateLimiter) (clock : Z),
  1 <= max_requests self -> 0 < time_window self ->
  Forall (fun x => x <= clock) (requests self) ->
  Forall (fun g => 0 <= g) gaps ->
  exists (rl : RateLimiter) (t : Z) (adms : list admission),
    run self clock gaps = Py.Returns (rl, t, adms) /\
    Forall (inside_window (time_window self)) adms.
Proof.
  induction gaps as [|gap gaps IH];
    intros self clock Hmax Hw Hpast Hgaps; simpl.
  - eexists _, _, _. split; [reflexivity|constructor].
  - inversion Hgaps as [|? ? Hgap Hgaps']; subst.
    set (now := clock + gap).
    assert (HW : 0 < seconds (time_window self)) by (unfold seconds; lia).
    assert (Hkept : Forall (fun x => now - seconds (time_window self) < x
                                     <= now) (kept self now)).
    { apply Forall_forall. intros x Hx. unfold kept in Hx.
      apply filter_In in Hx. destruct Hx as [Hx Hnew].
      apply Z.ltb_lt in Hnew.
      rewrite Forall_forall in Hpast. specialize (Hpast x Hx).
      unfold now in *. lia. }
    destruct (Z.lt_ge_cases (Z.of_nat (List.length (kept self now)))
                (max_requests self)) as [Hlt|Hge].
    + rewrite (wait_below self now Hlt). fold (kept self now).
      destruct (IH (set_requests self (kept self now ++ [now])) (now + 0))
        as (rl & t & adms & Hrun & Hall); try assumption.
      { simpl. apply Forall_app. split.
        - eapply Forall_impl; [|exact Hkept]. simpl. intros; lia.
        - repeat constructor. lia. }
      rewrite Hrun. eexists _, _, _. split; [reflexivity|].
      constructor; [|exact Hall].
      unfold inside_window. simpl. apply Forall_app. split; [exact Hkept|].
      repeat constructor; lia.
    + destruct (wait_at_limit self now Hmax Hge)
        as (oldest & rest & Ek & Hpos & Hwait).
      rewrite Hwait.
      destruct (IH (set_requests self [now])
                  (now + (oldest + seconds (time_window self) - now + margin)))
        as (rl & t & adms & Hrun & Hall); try assumption.
      { simpl. repeat constructor. unfold margin. lia. }
      rewrite Hrun. eexists _, _, _. split; [reflexivity|].
      constructor; [|exact Hall].
      unfold inside_window. simpl. repeat constructor; lia.
Qed.

(** X24: what the limiter does bound.  With [max_requests = 3] and a
    window of one second, five calls one after another (whatever time
    passes between them) end at least one second after the first began.
    In any sequence of calls of a limiter with [max_requests >= 1], every
    call returns and the window it then holds has at most [max_requests]
    timestamps, each newer than the start of the trailing window of that
    call (when the window is positive, no timestamp is held from the
    future and the clock does not run backwards, none is later than the
    call either).  A call keeps the timestamps newer than
    [now - time_window]; with fewer than [max_requests] of them it appends
    [now] without sleeping; otherwise it sleeps until the oldest of them
    plus the window, plus the margin, and then holds [now] alone. *)
Theorem window_bound :
  (forall t0 g1 g2 g3 g4 g5 : Z,
     0 <= g1 -> 0 <= g2 -> 0 <= g3 -> 0 <= g4 -> 0 <= g5 ->
     exists (rl : RateLimiter) (t : Z) (adms : list admission),
       run (init 3 1) t0 [g1; g2; g3; g4; g5] = Py.Returns (rl, t, adms) /\
       t0 + seconds 1 <= t) /\
  (forall (self : RateLimiter) (clock : Z) (gaps : list Z),
     1 <= max_requests self ->
     exists (l : list Z) (t : Z) (adms : list admission),
       run self clock gaps = Py.Returns (set_requests self l, t, adms) /\
       List.length adms = List.length gaps /\
       Forall (within_bound (max_requests self) (time_window self)) adms) /\
  (forall (self : RateLimiter) (clock : Z) (gaps : list Z),
     1 <= max_requests self -> 0 < time_window self ->
     Forall (fun x => x <= clock) (requests self) ->
     Forall (fun g => 0 <= g) gaps ->
     exists (rl : RateLimiter) (t : Z) (adms : list admission),
       run self clock gaps = Py.Returns (rl, t, adms) /\
       Forall (inside_window (time_window self)) adms) /\
  (forall (self : RateLimiter) (now : Z),
     1 <= max_requests self ->
     (Z.of_nat (List.length (kept self now)) < max_requests self ->
      wait_if_needed self now
        = Py.Returns (set_requests self (kept self now ++ [now]), 0)) /\
     (max_requests self <= Z.of_nat (List.length (kept self now)) ->
      exists (oldest : Z) (rest : list Z),
        kept self now = oldest :: rest /\
        0 < oldest + seconds (time_window self) - now /\
        wait_if_needed self now
          = Py.Returns (set_requests self [now],
                        oldest + seconds (time_window self) - now + margin))).
Proof.
  split; [|split; [|split]].
  - intros t0 g1 g2 g3 g4 g5 H1 H2 H3 H4 H5.
    apply run_takes_window; [lia| |simpl; lia].
    repeat constructor; assumption.
  - intros self clock gaps Hmax.
    destruct (run_bounded gaps self clock Hmax)
      as (l & t & adms & Hrun & Hlen & Hall & _).
    exists l, t, adms. repeat split; assumption.
  - intros self clock gaps. apply run_inside.
  - intros self now Hmax. split.
    + apply wait_below.
    + apply wait_at_limit. exact Hmax.
Qed.

(** Five calls back to back on a fresh limiter of three requests per
    second. *)
Lemma window_bound_witness :
  exists (rl : RateLimiter) (t : Z) (adms : list admission),
    run (init 3 1) 0 [0; 0; 0; 0; 0] = Py.Returns (rl, t, adms) /\
    0 + seconds 1 <= t.
Proof.
  destruct window_bound as (Hfive & _ & _).
  apply (Hfive 0 0 0 0 0 0); lia.
Defined.

(** C2 at seven calls back to back with [max_requests = 3] and a window
    of one second.  The fourth call sleeps for 1.1 s and then records the
    time it read before sleeping: the limiter has recorded the instant 0
    four times, and the window it is left with holds that stale timestamp
    alone.  The fifth call, entered at 1.1 s, drops it and finds the window
    empty, so the calls four to seven all return at 1.1 s: four calls
    admitted at one instant, and more than [max_requests] timestamps in a
    trailing second, by the times recorded and by the times the calls
    returned. *)
Theorem window_bound_exceeded :
  run (init 3 1) 0 [0; 0; 0; 0; 0; 0; 0]
    = Py.Returns
        (mkRateLimiter 3 1 [1100000; 1100000; 1100000], 1100000,
         [ mkAdmission 0 0 [0];
           mkAdmission 0 0 [0; 0];
           mkAdmission 0 0 [0; 0; 0];
           mkAdmission 0 1100000 [0];
           mkAdmission 1100000 1100000 [1100000];
           mkAdmission 1100000 1100000 [1100000; 1100000];
           mkAdmission 1100000 1100000 [1100000; 1100000; 1100000] ]) /\
  slice_count (seconds 1) [0; 0; 0; 0; 1100000; 1100000; 1100000] 0 = 4 /\
  slice_count (seconds 1) [0; 0; 0; 1100000; 1100000; 1100000; 1100000]
    1100000 = 4 /\
  ~ never_exceeds recorded (init 3 1) 0 [0; 0; 0; 0; 0; 0; 0] /\
  ~ never_exceeds returned (init 3 1) 0 [0; 0; 0; 0; 0; 0; 0].
Proof.
  split; [reflexivity|]. split; [reflexivity|]. split; [reflexivity|].
  split; intros H.
  - specialize (H _ _ _ eq_refl). vm_compute in H. discriminate H.
  - specialize (H _ _ _ eq_refl). vm_compute in H. discriminate H.
Qed.

(** ** Capacity and waiting *)

(** X8: a limiter with [max_requests <= 0] never admits a call at once:
    when it holds no timestamp inside the window the call raises
    [IndexError], otherwise the call sleeps (for more than the margin) and
    then holds [now] alone. *)
Theorem wait_without_capacity (self : RateLimiter) (now : Z) :
  max_requests self <= 0 ->
  (kept self now = [] -> wait_if_needed self now = Py.Raises Py.IndexError) /\
  (forall (oldest : Z) (rest : list Z), kept self now = oldest :: rest ->
     wait_if_needed self now
       = Py.Returns (set_requests self [now],
                     oldest + seconds (time_window self) - now + margin) /\
     margin < oldest + seconds (time_window self) - now + margin).
Proof.
  intros Hmax. unfold kept, wait_if_needed. split.
  - intros ->. simpl.
    destruct (Z.leb_spec (max_requests self) 0); [reflexivity|lia].
  - intros oldest rest E.
    pose proof (kept_recent (now - seconds (time_window self))
                  (requests self)) as Hrecent.
    rewrite E in *. inversion Hrecent as [|? ? Ho _]; subst.
    destruct (Z.leb_spec (max_requests self)
                (Z.of_nat (List.length (oldest :: rest)))); [|simpl in *; lia].
    destruct (Z.ltb_spec 0 (oldest + seconds (time_window self) - now));
      [|lia].
    split; [reflexivity|lia].
Qed.

Lemma wait_without_capacity_witness :
  wait_if_needed (init 0 60) 5 = Py.Raises Py.IndexError.
Proof.
  destruct (wait_without_capacity (init 0 60) 5) as [H _]; [simpl; lia|].
  apply H. reflexivity.
Defined.

Lemma kept_length (self : RateLimiter) (now : Z) :
  (List.length (kept self now) <= List.length (requests self))%nat.
Proof. unfold kept. apply filter_length_le. Qed.

(** X9: as long as the timestamps held and the calls made together do not
    exceed [max_requests], no call sleeps: the clock advances by the
    caller's own gaps only and every call returns at the instant it was
    entered. *)
Theorem calls_below_limit (gaps : list Z) :
  forall (self : RateLimiter) (clock : Z),
  Z.of_nat (List.length (requests self) + List.length gaps)
    <= max_requests self ->
  exists (l : list Z) (adms : list admission),
    run self clock gaps
      = Py.Returns (set_requests self l, clock + total gaps, adms) /\
    List.length adms = List.length gaps /\
    Forall (fun a => returned a = recorded a) adms.
Proof.
  induction gaps as [|gap gaps IH]; intros self clock Hlen; simpl.
  - exists (requests self), []. destruct self; simpl.
    rewrite Z.add_0_r. repeat split. constructor.
  - pose proof (kept_length self (clock + gap)) as Hk.
    rewrite wait_below by (fold (kept self (clock + gap)); simpl in Hlen; lia).
    fold (kept self (clock + gap)).
    destruct (IH (set_requests self (kept self (clock + gap) ++ [clock + gap]))
                (clock + gap + 0)) as (l & adms & Hrun & Hn & Hall).
    { simpl. rewrite length_app. simpl in *. lia. }
    rewrite Hrun. exists l. eexists. split.
    + simpl. f_equal. f_equal. f_equal. lia.
    + split; [simpl; congruence|].
      constructor; [simpl; lia|exact Hall].
Qed.

Lemma calls_below_limit_witness :
  exists (l : list Z) (adms : list admission),
    run (init 3 1) 0 [0; 0; 0] = Py.Returns (set_requests (init 3 1) l, 0, adms).
Proof.
  destruct (calls_below_limit [0; 0; 0] (init 3 1) 0) as (l & adms & H & _).
  - simpl. lia.
  - exists l, adms. exact H.
Defined.

(** X10: with [max_requests >= 1], a window that is not negative and no
    timestamp held from the future, a caller whose clock does not run
    backwards is never kept waiting by a call for more than the window
    plus the margin of 0.1 s. *)
Theorem sleep_is_bounded (gaps : list Z) :
  forall (self : RateLimiter) (clock : Z),
  1 <= max_requests self -> 0 <= time_window self ->
  Forall (fun x => x <= clock) (requests self) ->
  Forall (fun g => 0 <= g) gaps ->
  exists (rl : RateLimiter) (t : Z) (adms : list admission),
    run self clock gaps = Py.Returns (rl, t, adms) /\
    Forall (fun a => 0 <= returned a - recorded a
                     <= seconds (time_window self) + margin) adms.
Proof.
  induction gaps as [|gap gaps IH];
    intros self clock Hmax Hw Hpast Hgaps; simpl.
  - eexists _, _, _. split; [reflexivity|constructor].
  - inversion Hgaps as [|? ? Hgap Hgaps']; subst.
    set (now := clock + gap).
    assert (HW : 0 <= seconds (time_window self)) by (unfold seconds; lia).
    assert (Hkept : Forall (fun x => x <= now) (kept self now)).
    { apply Forall_forall. intros x Hx. unfold kept in Hx.
      apply filter_In in Hx. destruct Hx as [Hx _].
      rewrite Forall_forall in Hpast. specialize (Hpast x Hx).
      unfold now. lia. }
    destruct (Z.lt_ge_cases (Z.of_nat (List.length (kept self now)))
                (max_requests self)) as [Hlt|Hge].
    + rewrite (wait_below self now Hlt). fold (kept self now).
      destruct (IH (set_requests self (kept self now ++ [now])) (now + 0))
        as (rl & t & adms & Hrun & Hall); try assumption.
      { simpl. apply Forall_app. split.
        - eapply Forall_impl; [|exact Hkept]. simpl. intros; lia.
        - repeat constructor. lia. }
      rewrite Hrun. eexists _, _, _. split; [reflexivity|].
      constructor; [|exact Hall].
      simpl. unfold margin. lia.
    + destruct (wait_at_limit self now Hmax Hge)
        as (oldest & rest & Ek & Hpos & Hwait).
      rewrite Hwait. fold (kept self now) in Ek.
      rewrite Ek in Hkept. inversion Hkept as [|? ? Hold _]; subst.
      destruct (IH (set_requests self [now])
                  (now + (oldest + seconds (time_window self) - now + margin)))
        as (rl & t & adms & Hrun & Hall); try assumption.
      { simpl. repeat constructor. unfold margin. lia. }
      rewrite Hrun. eexists _, _, _. split; [reflexivity|].
      constructor; [|exact Hall].
      simpl. unfold margin. lia.
Qed.

Lemma sleep_is_bounded_witness :
  exists (rl : RateLimiter) (t : Z) (adms : list admission),
    run (init 3 1) 0 [0; 0; 0; 0; 0] = Py.Returns (rl, t, adms) /\
    Forall (fun a => 0 <= returned a - recorded a <= seconds 1 + margin) adms.
Proof.
  apply (sleep_is_bounded [0; 0; 0; 0; 0] (init 3 1) 0).
  - simpl. lia.
  - simpl. lia.
  - constructor.
  - repeat constructor; lia.
Defined.

End LimiterFacts.

(* ====================================================================== *)
(** * Properties of the collector *)
(* ====================================================================== *)

Module CollectorFacts.

Import Collector.
Local Open Scope Z_scope.

Lemma select_listing_unknown (sort_by time_filter : string) (limit : Z) :
  ~ In sort_by ["hot"; "new"; "top"; "rising"]%string ->
  select_listing sort_by time_filter limit = None.
Proof.
  intros H. unfold select_listing.
  destruct (String.eqb_spec sort_by "hot") as [E|_];
    [exfalso; apply H; rewrite E; simpl; auto|].
  destruct (String.eqb_spec sort_by "new") as [E|_];
    [exfalso; apply H; rewrite E; simpl; auto|].
  destruct (String.eqb_spec sort_by "top") as [E|_];
    [exfalso; apply H; rewrite E; simpl; auto|].
  destruct (String.eqb_spec sort_by "rising") as [E|_];
    [exfalso; apply H; rewrite E; simpl; auto|].
  reflexivity.
Qed.

(** C6, as the code has it: for a sort key that is none of the recognized
    ones, [collect_posts] first passes the rate limiter, which records the
    call, then looks the subreddit up and, if the lookup returns, requests
    no listing from the client and returns the empty list to its caller;
    the [ValueError] raised for the key is caught inside the call and
    logged.  If the lookup raises, its exception leaves the call, the key
    not yet examined. *)
Theorem collect_posts_unknown_sort
    (reddit_subreddit : string -> Py.result string)
    (reddit : string -> listing -> list submission * option Py.exn)
    (isoformat : Q -> string) (self : Limiter.RateLimiter) (now : Z)
    (subreddit_name : string) (limit : Z) (sort_by time_filter : string) :
  1 <= Limiter.max_requests self ->
  ~ In sort_by ["hot"; "new"; "top"; "rising"]%string ->
  exists (l : list Z) (slept : Z),
    Limiter.wait_if_needed self now
      = Py.Returns (Limiter.set_requests self (l ++ [now]), slept) /\
    (forall sub : string,
       reddit_subreddit subreddit_name = Py.Returns sub ->
       collect_posts reddit_subreddit reddit isoformat self now
           subreddit_name limit sort_by time_filter
         = Py.Returns
             (mkCollected [] (Limiter.set_requests self (l ++ [now])) slept []
                [ErrorCollecting subreddit_name
                   (Py.ValueError
                      ("Invalid sort_by value: " ++ sort_by)%string)])) /\
    (forall e : Py.exn,
       reddit_subreddit subreddit_name = Py.Raises e ->
       collect_posts reddit_subreddit reddit isoformat self now
           subreddit_name limit sort_by time_filter
         = Py.Raises e).
Proof.
  intros Hmax Hsort.
  destruct (LimiterFacts.wait_records self now Hmax) as (l & slept & Hw).
  exists l, slept. split; [exact Hw|].
  unfold collect_posts. rewrite Hw.
  rewrite (select_listing_unknown _ _ _ Hsort).
  split; intros x Hx; rewrite Hx; reflexivity.
Qed.

Lemma collect_posts_unknown_sort_witness :
  exists (l : list Z) (slept : Z),
    Limiter.wait_if_needed (Limiter.init 60 60) 0
      = Py.Returns
          (Limiter.set_requests (Limiter.init 60 60) (l ++ [0]), slept) /\
    collect_posts sample_subreddit sample_reddit sample_isoformat
        (Limiter.init 60 60) 0 "python" 100 "controversial" "day"
      = Py.Returns
          (mkCollected []
             (Limiter.set_requests (Limiter.init 60 60) (l ++ [0])) slept []
             [ErrorCollecting "python"
                (Py.ValueError "Invalid sort_by value: controversial")]).
Proof.
  destruct (collect_posts_unknown_sort sample_subreddit sample_reddit
              sample_isoformat (Limiter.init 60 60) 0 "python" 100
              "controversial" "day") as (l & slept & Hw & Hret & _).
  - simpl. lia.
  - simpl. intros H.
    repeat (destruct H as [H|H]; [discriminate H|]). exact H.
  - exists l, slept. split; [exact Hw|]. apply (Hret "python"%string).
    reflexivity.
Defined.

(** The statement of C6 at the sort key [controversial]: the call returns
    to its caller, it does not raise. *)
Lemma collect_posts_unknown_sort_returns :
  ~ reports_usage_fault sample_subreddit sample_reddit sample_isoformat
      (Limiter.init 60 60) 0 "python" 100 "controversial" "day".
Proof.
  intros (msg & H). vm_compute in H. discriminate H.
Qed.

(** ** Listings, comments and subreddit information *)

(** X11: [time_filter] matters for the sort key [top] only: for every
    other sort key two calls of [collect_posts] that differ in
    [time_filter] alone have the same outcome. *)
Theorem time_filter_only_for_top
    (reddit_subreddit : string -> Py.result string)
    (reddit : string -> listing -> list submission * option Py.exn)
    (isoformat : Q -> string) (self : Limiter.RateLimiter) (now : Z)
    (subreddit_name : string) (limit : Z) (sort_by tf1 tf2 : string) :
  sort_by <> "top"%string ->
  collect_posts reddit_subreddit reddit isoformat self now subreddit_name
    limit sort_by tf1
  = collect_posts reddit_subreddit reddit isoformat self now subreddit_name
      limit sort_by tf2.
Proof.
  intros Hne. unfold collect_posts, select_listing.
  apply String.eqb_neq in Hne. rewrite Hne. reflexivity.
Qed.

Lemma time_filter_only_for_top_witness :
  collect_posts sample_subreddit sample_reddit sample_isoformat
    (Limiter.init 60 60) 0 "python" 10 "hot" "day"
  = collect_posts sample_subreddit sample_reddit sample_isoformat
      (Limiter.init 60 60) 0 "python" 10 "hot" "all".
Proof.
  apply time_filter_only_for_top. discriminate.
Defined.

(** X12: for a recognized sort key, once the lookup of the subreddit has
    returned, [collect_posts] requests exactly one listing, the one of
    that key, and returns one post per submission the listing yielded, in
    the same order, also when the listing raised part-way: the posts
    gathered so far are returned and the error is logged in place of the
    count.  When the lookup raises, its exception leaves the call. *)
Theorem collect_posts_keeps_partial
    (reddit_subreddit : string -> Py.result string)
    (reddit : string -> listing -> list submission * option Py.exn)
    (isoformat : Q -> string) (self : Limiter.RateLimiter) (now : Z)
    (subreddit_name : string) (limit : Z) (sort_by time_filter : string) :
  1 <= Limiter.max_requests self ->
  In sort_by ["hot"; "new"; "top"; "rising"]%string ->
  exists l : listing,
    select_listing sort_by time_filter limit = Some l /\
    (forall sub : string,
       reddit_subreddit subreddit_name = Py.Returns sub ->
       exists c : collected,
         collect_posts reddit_subreddit reddit isoformat self now
           subreddit_name limit sort_by time_filter = Py.Returns c /\
         requested c = [(sub, l)] /\
         posts c = map (_extract_post_data isoformat) (fst (reddit sub l)) /\
         map id (posts c) = map s_id (fst (reddit sub l)) /\
         logged c
           = [match snd (reddit sub l) with
              | None => InfoCollected (List.length (fst (reddit sub l)))
                          subreddit_name
              | Some e => ErrorCollecting subreddit_name e
              end]) /\
    (forall e : Py.exn,
       reddit_subreddit subreddit_name = Py.Raises e ->
       collect_posts reddit_subreddit reddit isoformat self now
         subreddit_name limit sort_by time_filter = Py.Raises e).
Proof.
  intros Hmax Hsort.
  destruct (LimiterFacts.wait_records self now Hmax) as (w & slept & Hw).
  assert (Hsel : exists l, select_listing sort_by time_filter limit = Some l).
  { simpl in Hsort. unfold select_listing.
    destruct Hsort as [<-|[<-|[<-|[<-|[]]]]]; simpl; eauto. }
  destruct Hsel as (l & Hsel). exists l.
  split; [exact Hsel|].
  unfold collect_posts. rewrite Hw, Hsel. split.
  - intros sub Hsub. rewrite Hsub.
    destruct (reddit sub l) as [subs failure]. simpl.
    eexists. split; [reflexivity|]. simpl.
    split; [reflexivity|]. split; [reflexivity|].
    split; [rewrite map_map; reflexivity|].
    rewrite length_map. reflexivity.
  - intros e He. rewrite He. reflexivity.
Qed.

Lemma collect_posts_keeps_partial_witness :
  exists (l : listing) (c : collected),
    select_listing "top" "week" 5 = Some l /\
    collect_posts sample_subreddit sample_reddit sample_isoformat
      (Limiter.init 60 60) 0 "python" 5 "top" "week" = Py.Returns c /\
    requested c = [("python"%string, l)].
Proof.
  destruct (collect_posts_keeps_partial sample_subreddit sample_reddit
              sample_isoformat (Limiter.init 60 60) 0 "python" 5 "top" "week")
    as (l & H1 & Hret & _).
  - simpl. lia.
  - simpl. auto.
  - destruct (Hret "python"%string eq_refl) as (c & H2 & H3 & _).
    exists l, c. repeat split; assumption.
Defined.

Section CommentFacts.

Variable comment_forest : string -> Py.result (list node).
Variable about : string -> Py.result raw_subreddit.
Variable isoformat : Q -> string.

Lemma extract_comments_length (nodes : list node) :
  (List.length (extract_comments isoformat nodes) <= List.length nodes)%nat.
Proof.
  induction nodes as [|[c|] nodes IH]; simpl; lia.
Qed.

Lemma extract_comments_all (nodes : list node) :
  ~ In MoreComments nodes ->
  List.length (extract_comments isoformat nodes) = List.length nodes.
Proof.
  induction nodes as [|[c|] nodes IH]; simpl; intros H.
  - reflexivity.
  - rewrite IH; [reflexivity|]. intros Hin. apply H. right. exact Hin.
  - exfalso. apply H. left. reflexivity.
Qed.

(** X13: for [max_comments >= 0], [collect_comments] returns at most
    [max_comments] comments: those among the first [max_comments] nodes
    of the flattened forest (placeholders count against the bound), which
    are [min(max_comments, number of nodes)] comments when the forest has
    no placeholder; when fetching the forest fails it returns the empty
    list and logs the error. *)
Theorem collect_comments_bounded (self : Limiter.RateLimiter) (now : Z)
    (post_id : string) (max_comments : Z) :
  1 <= Limiter.max_requests self -> 0 <= max_comments ->
  exists c : collected_comments,
    collect_comments comment_forest isoformat self now post_id max_comments
      = Py.Returns c /\
    Z.of_nat (List.length (comments c)) <= max_comments /\
    (forall e, comment_forest post_id = Py.Raises e ->
       comments c = [] /\ cc_logged c = [ErrorComments post_id e]) /\
    (forall nodes, comment_forest post_id = Py.Returns nodes ->
       comments c = extract_comments isoformat (firstn (Z.to_nat max_comments) nodes) /\
       (~ In MoreComments nodes ->
        List.length (comments c)
          = Nat.min (Z.to_nat max_comments) (List.length nodes))).
Proof.
  intros Hmax Hn.
  destruct (LimiterFacts.wait_records self now Hmax) as (w & slept & Hw).
  unfold collect_comments. rewrite Hw.
  destruct (comment_forest post_id) as [nodes|e].
  - eexists. split; [reflexivity|]. simpl.
    unfold Py.slice_to. destruct (Z.ltb_spec max_comments 0); [lia|].
    split.
    { pose proof (extract_comments_length
                    (firstn (Z.to_nat max_comments) nodes)) as H1.
      pose proof (firstn_le_length (Z.to_nat max_comments) nodes). lia. }
    split; [intros e' E; discriminate E|].
    intros nodes' E. injection E as <-. split; [reflexivity|].
    intros Hmore. rewrite extract_comments_all.
    + apply length_firstn.
    + intros Hin. apply Hmore. eapply PyFacts.firstn_in; eauto.
  - eexists. split; [reflexivity|]. simpl.
    split; [lia|]. split.
    + intros e' E. injection E as <-. split; reflexivity.
    + intros nodes E. discriminate E.
Qed.

End CommentFacts.

(** X14: [collect_posts], [collect_comments] and [get_subreddit_info]
    pass the rate limiter before anything else: when the call returns,
    the limiter and the time slept are those of [wait_if_needed], whatever
    the client yields or raises and whatever the arguments.  What
    [wait_if_needed] raises leaves the call; nothing else leaves
    [collect_comments] and [get_subreddit_info], and nothing else leaves
    [collect_posts] but what the lookup of the subreddit raises, which
    stands before its [try] block. *)
Theorem client_never_affects_throttling
    (reddit_subreddit : string -> Py.result string)
    (reddit : string -> listing -> list submission * option Py.exn)
    (comment_forest : string -> Py.result (list node))
    (about : string -> Py.result raw_subreddit)
    (isoformat : Q -> string) (self : Limiter.RateLimiter) (now : Z)
    (name : string) (limit : Z) (sort_by time_filter : string) :
  throttled_after rate_limiter slept self now (reddit_subreddit name)
    (collect_posts reddit_subreddit reddit isoformat self now name limit
       sort_by time_filter) /\
  throttled cc_rate_limiter cc_slept self now
    (collect_comments comment_forest isoformat self now name limit) /\
  throttled (fun r => snd (fst r)) snd self now
    (get_subreddit_info about isoformat self now name).
Proof.
  unfold throttled_after, throttled, collect_posts, collect_comments,
    get_subreddit_info.
  destruct (Limiter.wait_if_needed self now) as [[limiter sl]|e].
  - split; [|split].
    + destruct (reddit_subreddit name) as [sub|e]; [|reflexivity].
      destruct (select_listing sort_by time_filter limit) as [l|].
      * destruct (reddit sub l). split; reflexivity.
      * split; reflexivity.
    + destruct (comment_forest name); split; reflexivity.
    + destruct (about name); split; reflexivity.
  - repeat split.
Qed.

Lemma collect_comments_bounded_witness :
  exists c : collected_comments,
    collect_comments sample_forest sample_isoformat (Limiter.init 60 60) 0
      "p1" 2 = Py.Returns c /\
    Z.of_nat (List.length (comments c)) <= 2.
Proof.
  destruct (collect_comments_bounded sample_forest sample_isoformat
              (Limiter.init 60 60) 0 "p1" 2) as (c & H1 & H2 & _).
  - simpl. lia.
  - lia.
  - exists c. split; assumption.
Defined.

Section InfoFacts.

Variable about : string -> Py.result raw_subreddit.
Variable isoformat : Q -> string.

(** X15: for a subreddit that is fetched, [get_subreddit_info] returns an
    activity rate whose product with [max(subscribers, 1)] is the number
    of active users: it is that number itself when there is at most one
    subscriber, and lies between 0 and 1 when the active users are between
    0 and the subscribers. *)
Theorem activity_rate_is_ratio (self : Limiter.RateLimiter) (now : Z)
    (name : string) (sub : raw_subreddit) :
  1 <= Limiter.max_requests self ->
  about name = Py.Returns sub ->
  exists (info : subreddit_info) (limiter : Limiter.RateLimiter) (sl : Z),
    get_subreddit_info about isoformat self now name
      = Py.Returns (Some info, limiter, sl) /\
    (si_activity_rate info * inject_Z (Z.max (rs_subscribers sub) 1)
       == inject_Z (rs_active_user_count sub))%Q /\
    (rs_subscribers sub <= 1 ->
     (si_activity_rate info == inject_Z (rs_active_user_count sub))%Q) /\
    (0 <= rs_active_user_count sub <= rs_subscribers sub ->
     (0 <= si_activity_rate info <= 1)%Q).
Proof.
  intros Hmax Habout.
  destruct (LimiterFacts.wait_records self now Hmax) as (w & sl & Hw).
  unfold get_subreddit_info. rewrite Hw, Habout.
  eexists _, _, _. split; [reflexivity|]. simpl.
  set (d := Z.max (rs_subscribers sub) 1).
  assert (Hd : (0 < inject_Z d)%Q).
  { change 0%Q with (inject_Z 0). rewrite <- Zlt_Qlt. unfold d. lia. }
  split; [field; lra|].
  split.
  - intros Hs. replace d with 1 by (unfold d; lia). field.
  - intros [Ha Hs]. split.
    + apply Qle_shift_div_l; [exact Hd|].
      rewrite Qmult_0_l. change 0%Q with (inject_Z 0).
      rewrite <- Zle_Qle. exact Ha.
    + apply Qle_shift_div_r; [exact Hd|].
      rewrite Qmult_1_l. rewrite <- Zle_Qle. unfold d. lia.
Qed.

End InfoFacts.

Lemma activity_rate_is_ratio_witness :
  exists (info : subreddit_info) (limiter : Limiter.RateLimiter) (sl : Z),
    get_subreddit_info sample_about sample_isoformat (Limiter.init 60 60) 0
      "python" = Py.Returns (Some info, limiter, sl) /\
    (0 <= si_activity_rate info <= 1)%Q.
Proof.
  destruct (activity_rate_is_ratio sample_about sample_isoformat
              (Limiter.init 60 60) 0 "python"
              (mkRawSubreddit "python" "title" "about" 200 50 0 false))
    as (info & limiter & sl & H1 & _ & _ & H2).
  - simpl. lia.
  - reflexivity.
  - exists info, limiter, sl. split; [exact H1|].
    apply H2. simpl. lia.
Defined.

End CollectorFacts.

(* ====================================================================== *)
(** * Properties of the engagement analyzer *)
(* ====================================================================== *)

Module EngagementFacts.

Import Collector Engagement.
Local Open Scope Q_scope.

(** A post one minute old, and a post created in the future. *)
Example young_post_age :
  age_hours (calculate_engagement_velocity 60 (sample_post "t" 10 1 4 0))
    == 1 # 60.
Proof. reflexivity. Qed.

Example future_post_age :
  age_hours (calculate_engagement_velocity 0 (sample_post "t" 10 1 4 60))
    = 1 # 10.
Proof. reflexivity. Qed.

(** C5, as the code has it: the age is the age in hours when that is
    positive and [0.1] when it is not, so it is always positive; the two
    rates are the score and the number of comments divided by it.  The
    age is the age in hours floored at [0.1] when the latter is not
    positive or at least [0.1]. *)
Theorem velocity_age (now : Q) (p : post) :
  (0 < (now - created_utc p) / 3600 ->
   age_hours (calculate_engagement_velocity now p)
     = (now - created_utc p) / 3600) /\
  ((now - created_utc p) / 3600 <= 0 ->
   age_hours (calculate_engagement_velocity now p) = 1 # 10) /\
  0 < age_hours (calculate_engagement_velocity now p) /\
  score_per_hour (calculate_engagement_velocity now p)
    = inject_Z (score p) / age_hours (calculate_engagement_velocity now p) /\
  comments_per_hour (calculate_engagement_velocity now p)
    = inject_Z (num_comments p)
      / age_hours (calculate_engagement_velocity now p) /\
  ((now - created_utc p) / 3600 <= 0 \/ 1 # 10 <= (now - created_utc p) / 3600 ->
   age_floored now p).
Proof.
  unfold age_floored, calculate_engagement_velocity. simpl.
  destruct (Qle_bool ((now - created_utc p) / 3600) 0) eqn:E.
  - apply Qle_bool_iff in E.
    split; [intros H; exfalso; lra|].
    split; [reflexivity|].
    split; [reflexivity|].
    split; [reflexivity|].
    split; [reflexivity|].
    intros _. split; [|lra].
    rewrite Q.max_l; [reflexivity|lra].
  - apply PyFacts.Qle_bool_false in E.
    split; [reflexivity|].
    split; [intros H; exfalso; lra|].
    split; [exact E|].
    split; [reflexivity|].
    split; [reflexivity|].
    intros [H|H]; [exfalso; lra|].
    split; [|exact H].
    rewrite Q.max_r; [reflexivity|exact H].
Qed.

Lemma velocity_age_witness :
  age_hours (calculate_engagement_velocity 7200 (sample_post "t" 10 1 4 0))
    = (7200 - 0) / 3600 /\
  age_floored 7200 (sample_post "t" 10 1 4 0).
Proof.
  destruct (velocity_age 7200 (sample_post "t" 10 1 4 0))
    as (Hpos & _ & _ & _ & _ & Hfloor).
  split.
  - apply Hpos. reflexivity.
  - apply Hfloor. right. vm_compute. discriminate.
Defined.

(** The statement of C5 for a post one minute old: its age is a sixtieth
    of an hour, below the floor. *)
Lemma velocity_age_young :
  ~ age_floored 60 (sample_post "t" 10 1 4 0).
Proof.
  intros [_ H]. vm_compute in H. apply H. reflexivity.
Qed.

Lemma quality_ratio_nonneg (p : post) :
  (0 <= num_comments p)%Z ->
  0 <= inject_Z (num_comments p) / inject_Z (Z.max (score p) 1).
Proof.
  intros H. apply Qle_shift_div_l.
  - change 0 with (inject_Z 0). rewrite <- Zlt_Qlt. lia.
  - rewrite Qmult_0_l. change 0 with (inject_Z 0). rewrite <- Zle_Qle. exact H.
Qed.

(** C7: for a post with a non-negative number of comments and an upvote
    ratio between 0 and 1 the quality lies between 0 and 100 and is the
    average of [min(100 * num_comments / max(score, 1), 100)] and
    [100 * upvote_ratio]; two posts that agree on the score, the number
    of comments and the upvote ratio have the same quality. *)
Theorem quality_bounds (p : post) :
  (0 <= num_comments p)%Z -> 0 <= upvote_ratio p -> upvote_ratio p <= 1 ->
  0 <= calculate_engagement_quality p /\
  calculate_engagement_quality p <= 100 /\
  calculate_engagement_quality p
    == (Qmin (100 * inject_Z (num_comments p)
              / inject_Z (Z.max (score p) 1)) 100
        + 100 * upvote_ratio p) / 2 /\
  (forall p' : post,
     score p' = score p -> num_comments p' = num_comments p ->
     upvote_ratio p' = upvote_ratio p ->
     calculate_engagement_quality p' = calculate_engagement_quality p).
Proof.
  intros Hc H0 H1.
  pose proof (quality_ratio_nonneg p Hc) as Hr.
  unfold calculate_engagement_quality.
  set (ratio := inject_Z (num_comments p) / inject_Z (Z.max (score p) 1)) in *.
  assert (Hmin0 : 0 <= Qmin (ratio * 100) 100).
  { apply Q.min_glb; lra. }
  assert (Hmin100 : Qmin (ratio * 100) 100 <= 100) by apply Q.le_min_r.
  split; [|split; [|split]].
  - apply Qle_shift_div_l; lra.
  - apply Qle_shift_div_r; lra.
  - assert (E : 100 * inject_Z (num_comments p) / inject_Z (Z.max (score p) 1)
                == ratio * 100).
    { unfold ratio. unfold Qdiv. ring. }
    rewrite E. field.
  - intros p' Hs Hn Hu. rewrite Hs, Hn, Hu. reflexivity.
Qed.

Lemma quality_bounds_witness :
  0 <= calculate_engagement_quality (sample_post "t" 10 (9 # 10) 4 0) /\
  calculate_engagement_quality (sample_post "t" 10 (9 # 10) 4 0) <= 100.
Proof.
  destruct (quality_bounds (sample_post "t" 10 (9 # 10) 4 0))
    as (H0 & H100 & _).
  - simpl. lia.
  - simpl. discriminate.
  - simpl. discriminate.
  - split; assumption.
Defined.

(** ** Trending *)

Lemma age_positive (now : Q) (p : post) :
  0 < age_hours (calculate_engagement_velocity now p).
Proof.
  unfold calculate_engagement_velocity. simpl.
  destruct (Qle_bool ((now - created_utc p) / 3600) 0) eqn:E.
  - reflexivity.
  - apply PyFacts.Qle_bool_false in E. exact E.
Qed.

(** X16: a post is trending exactly when its score is at least
    [min_velocity] times its age in hours (the positive age of
    [calculate_engagement_velocity]); so a post whose score is not positive
    is never trending for a positive [min_velocity], and of two posts
    created at the same time the one with the higher score is trending
    whenever the other is. *)
Theorem is_trending_iff (now : Q) (p : post) (min_velocity : Q) :
  (is_trending now p min_velocity = true <->
   min_velocity * age_hours (calculate_engagement_velocity now p)
     <= inject_Z (score p)) /\
  (0 < min_velocity -> (score p <= 0)%Z ->
   is_trending now p min_velocity = false) /\
  (forall p' : post,
     created_utc p' = created_utc p -> (score p <= score p')%Z ->
     is_trending now p min_velocity = true ->
     is_trending now p' min_velocity = true).
Proof.
  assert (Hiff : forall q : post,
            is_trending now q min_velocity = true <->
            min_velocity * age_hours (calculate_engagement_velocity now q)
              <= inject_Z (score q)).
  { intros q. pose proof (age_positive now q) as Hage.
    unfold is_trending. rewrite Qle_bool_iff.
    change (score_per_hour (calculate_engagement_velocity now q))
      with (inject_Z (score q)
            / age_hours (calculate_engagement_velocity now q)).
    set (a := age_hours (calculate_engagement_velocity now q)) in *.
    split; intros H.
    - assert (H' : min_velocity * a <= inject_Z (score q) / a * a)
        by (apply Qmult_le_compat_r; [exact H|lra]).
      setoid_replace (inject_Z (score q) / a * a)
        with (inject_Z (score q)) in H' by (field; lra).
      exact H'.
    - apply Qle_shift_div_l; assumption. }
  split; [apply Hiff|]. split.
  - intros Hv Hs.
    destruct (is_trending now p min_velocity) eqn:E; [|reflexivity].
    apply Hiff in E. pose proof (age_positive now p) as Hage.
    assert (0 < min_velocity * age_hours (calculate_engagement_velocity now p))
      by (apply Qmult_lt_0_compat; assumption).
    assert (inject_Z (score p) <= 0)
      by (change 0 with (inject_Z 0); rewrite <- Zle_Qle; exact Hs).
    lra.
  - intros p' Hc Hs Ht. apply Hiff. apply Hiff in Ht.
    assert (Hage : age_hours (calculate_engagement_velocity now p')
                   = age_hours (calculate_engagement_velocity now p)).
    { unfold calculate_engagement_velocity. simpl. rewrite Hc. reflexivity. }
    rewrite Hage.
    assert (inject_Z (score p) <= inject_Z (score p'))
      by (rewrite <- Zle_Qle; exact Hs).
    lra.
Qed.

Lemma is_trending_iff_witness :
  is_trending 7200 (sample_post "t" 0 1 0 0) 10 = false.
Proof.
  destruct (is_trending_iff 7200 (sample_post "t" 0 1 0 0) 10)
    as (_ & H & _).
  apply H; [reflexivity|simpl; lia].
Defined.

End EngagementFacts.

(* ====================================================================== *)
(** * Properties of the sentiment analyzer *)
(* ====================================================================== *)

Module SentimentFacts.

Import Sentiment.
Local Open Scope Q_scope.

Lemma Qgtb_true (x y : Q) : Qgtb x y = true <-> y < x.
Proof.
  unfold Qgtb. rewrite negb_true_iff. apply PyFacts.Qle_bool_false.
Qed.

Lemma Qltb_true (x y : Q) : Qltb x y = true <-> x < y.
Proof. apply (Qgtb_true y x). Qed.

Section ScorerFacts.

Variable polarity_scores : string -> polarity.

(** C9: with the scorer available and a text that is not empty, the four
    scores returned are those [polarity_scores] gives for the text, and the
    label is [positive] exactly when that compound score is above 0.05,
    [negative] exactly when it is below -0.05 and [neutral] otherwise;
    without the scorer, and for the empty text, the result is the tuple
    (0, 0, 1, 0, neutral) whatever the scorer is.  In every case
    the label stands in that relation to the compound score returned. *)
Theorem analyze_text_label (self : SentimentAnalyzer) (text : string) :
  (vader_available self = true -> text <> EmptyString ->
   compound (analyze_text polarity_scores self text)
     = p_compound (polarity_scores text) /\
   positive (analyze_text polarity_scores self text)
     = p_pos (polarity_scores text) /\
   neutral (analyze_text polarity_scores self text)
     = p_neu (polarity_scores text) /\
   negative (analyze_text polarity_scores self text)
     = p_neg (polarity_scores text) /\
   (classification (analyze_text polarity_scores self text)
      = "positive"%string
    <-> 5 # 100 < p_compound (polarity_scores text)) /\
   (classification (analyze_text polarity_scores self text)
      = "negative"%string
    <-> p_compound (polarity_scores text) < - (5 # 100)) /\
   (classification (analyze_text polarity_scores self text)
      = "neutral"%string
    <-> ~ 5 # 100 < p_compound (polarity_scores text) /\
        ~ p_compound (polarity_scores text) < - (5 # 100))) /\
  (vader_available self = false \/ text = EmptyString ->
   analyze_text polarity_scores self text = mkSentiment 0 0 1 0 "neutral") /\
  (classification (analyze_text polarity_scores self text) = "positive"%string
   <-> 5 # 100 < compound (analyze_text polarity_scores self text)) /\
  (classification (analyze_text polarity_scores self text) = "negative"%string
   <-> compound (analyze_text polarity_scores self text) < - (5 # 100)) /\
  (classification (analyze_text polarity_scores self text) = "neutral"%string
   <-> ~ 5 # 100 < compound (analyze_text polarity_scores self text) /\
       ~ compound (analyze_text polarity_scores self text) < - (5 # 100)) /\
  analyze_text polarity_scores (mkSentimentAnalyzer false) text
    = neutral_default /\
  analyze_text polarity_scores self EmptyString = neutral_default /\
  neutral_default = mkSentiment 0 0 1 0 "neutral".
Proof.
  assert (Hlabel :
    forall c : Q,
      let l := if Qgtb c (5 # 100) then "positive"%string
               else if Qltb c (- (5 # 100)) then "negative"%string
               else "neutral"%string in
      (l = "positive"%string <-> 5 # 100 < c) /\
      (l = "negative"%string <-> c < - (5 # 100)) /\
      (l = "neutral"%string <-> ~ 5 # 100 < c /\ ~ c < - (5 # 100))).
  { intros c. cbv zeta.
    destruct (Qgtb c (5 # 100)) eqn:P.
    - apply Qgtb_true in P.
      split; [split; [intros _; exact P|reflexivity]|].
      split; [split; [discriminate|intros H; exfalso; lra]|].
      split; [discriminate|intros [H _]; exfalso; auto].
    - assert (P' : ~ 5 # 100 < c).
      { intros H. apply Qgtb_true in H. congruence. }
      destruct (Qltb c (- (5 # 100))) eqn:N.
      + apply Qltb_true in N.
        split; [split; [discriminate|intros H; exfalso; auto]|].
        split; [split; [intros _; exact N|reflexivity]|].
        split; [discriminate|intros [_ H]; exfalso; auto].
      + assert (N' : ~ c < - (5 # 100)).
        { intros H. apply Qltb_true in H. congruence. }
        split; [split; [discriminate|intros H; exfalso; auto]|].
        split; [split; [discriminate|intros H; exfalso; auto]|].
        split; [intros _; split; assumption|reflexivity]. }
  assert (Hempty : analyze_text polarity_scores self EmptyString
                   = neutral_default).
  { unfold analyze_text. rewrite orb_true_r. reflexivity. }
  split.
  { intros Hv Htext. unfold analyze_text. rewrite Hv.
    apply String.eqb_neq in Htext. rewrite Htext. simpl.
    do 4 (split; [reflexivity|]).
    apply (Hlabel (p_compound (polarity_scores text))). }
  split.
  { intros [Hv| ->]; [|exact Hempty].
    unfold analyze_text. rewrite Hv. reflexivity. }
  assert (Hdefault :
    (classification neutral_default = "positive"%string
     <-> 5 # 100 < compound neutral_default) /\
    (classification neutral_default = "negative"%string
     <-> compound neutral_default < - (5 # 100)) /\
    (classification neutral_default = "neutral"%string
     <-> ~ 5 # 100 < compound neutral_default /\
         ~ compound neutral_default < - (5 # 100))).
  { simpl.
    split; [split; [discriminate|intros H; exfalso; lra]|].
    split; [split; [discriminate|intros H; exfalso; lra]|].
    split; [intros _; split; intros H; lra|reflexivity]. }
  assert (Hresult :
    (classification (analyze_text polarity_scores self text)
       = "positive"%string
     <-> 5 # 100 < compound (analyze_text polarity_scores self text)) /\
    (classification (analyze_text polarity_scores self text)
       = "negative"%string
     <-> compound (analyze_text polarity_scores self text) < - (5 # 100)) /\
    (classification (analyze_text polarity_scores self text)
       = "neutral"%string
     <-> ~ 5 # 100 < compound (analyze_text polarity_scores self text) /\
         ~ compound (analyze_text polarity_scores self text) < - (5 # 100))).
  { unfold analyze_text.
    destruct (negb (vader_available self) || String.eqb text EmptyString).
    - exact Hdefault.
    - apply (Hlabel (p_compound (polarity_scores text))). }
  destruct Hresult as (H1 & H2 & H3).
  split; [exact H1|]. split; [exact H2|]. split; [exact H3|].
  split; [reflexivity|]. split; [exact Hempty|reflexivity].
Qed.

End ScorerFacts.

(** A scorer that finds the text [good] positive and every other text
    negative. *)
Lemma analyze_text_label_witness :
  classification
    (analyze_text
       (fun t => if String.eqb t "good"
                 then mkPolarity (1 # 2) (1 # 2) (1 # 2) 0
                 else mkPolarity (- (1 # 2)) 0 (1 # 2) (1 # 2))
       (mkSentimentAnalyzer true) "good")
    = "positive"%string /\
  compound
    (analyze_text
       (fun t => if String.eqb t "good"
                 then mkPolarity (1 # 2) (1 # 2) (1 # 2) 0
                 else mkPolarity (- (1 # 2)) 0 (1 # 2) (1 # 2))
       (mkSentimentAnalyzer true) "bad")
    = - (1 # 2).
Proof.
  split.
  - destruct (analyze_text_label
                (fun t => if String.eqb t "good"
                          then mkPolarity (1 # 2) (1 # 2) (1 # 2) 0
                          else mkPolarity (- (1 # 2)) 0 (1 # 2) (1 # 2))
                (mkSentimentAnalyzer true) "good") as (Hscored & _).
    destruct (Hscored eq_refl) as (_ & _ & _ & _ & [_ Hpos] & _);
      [discriminate|].
    apply Hpos. reflexivity.
  - destruct (analyze_text_label
                (fun t => if String.eqb t "good"
                          then mkPolarity (1 # 2) (1 # 2) (1 # 2) 0
                          else mkPolarity (- (1 # 2)) 0 (1 # 2) (1 # 2))
                (mkSentimentAnalyzer true) "bad") as (Hscored & _).
    destruct (Hscored eq_refl) as (Hc & _); [discriminate|].
    exact Hc.
Defined.

(** ** Posts and engagement *)

Import Collector.

Lemma text_not_empty (a b : string) :
  String.eqb (a ++ " " ++ b)%string EmptyString = false.
Proof. destruct a; reflexivity. Qed.

(** X17: the text [analyze_post] hands over is the title, a space and the
    body, which is never empty: with the scorer available the four scores
    returned are the scorer's for that text, also for a post with an empty
    title and an empty body. *)
Theorem analyze_post_consults_scorer (polarity_scores : string -> polarity)
    (self : SentimentAnalyzer) (p : post) :
  vader_available self = true ->
  compound (analyze_post polarity_scores self p)
    = p_compound (polarity_scores (title p ++ " " ++ selftext p)%string) /\
  positive (analyze_post polarity_scores self p)
    = p_pos (polarity_scores (title p ++ " " ++ selftext p)%string) /\
  neutral (analyze_post polarity_scores self p)
    = p_neu (polarity_scores (title p ++ " " ++ selftext p)%string) /\
  negative (analyze_post polarity_scores self p)
    = p_neg (polarity_scores (title p ++ " " ++ selftext p)%string).
Proof.
  intros Hv. unfold analyze_post, analyze_text.
  rewrite Hv, text_not_empty. simpl. repeat split.
Qed.

Lemma analyze_post_consults_scorer_witness :
  compound
    (analyze_post (fun _ => mkPolarity (1 # 2) (1 # 2) (1 # 2) 0)
       (mkSentimentAnalyzer true) (sample_post EmptyString 0 0 0 0))
  = 1 # 2.
Proof.
  destruct (analyze_post_consults_scorer
              (fun _ => mkPolarity (1 # 2) (1 # 2) (1 # 2) 0)
              (mkSentimentAnalyzer true) (sample_post EmptyString 0 0 0 0)
              eq_refl) as [H _].
  exact H.
Defined.

Lemma controversy_ratio (p : post) :
  1 < inject_Z (num_comments p) / inject_Z (Z.max (score p) 1)
  <-> (Z.max (score p) 1 < num_comments p)%Z.
Proof.
  assert (Hd : 0 < inject_Z (Z.max (score p) 1)).
  { change 0 with (inject_Z 0). rewrite <- Zlt_Qlt. lia. }
  rewrite Zlt_Qlt. split; intros H.
  - apply (Qmult_lt_compat_r _ _ _ Hd) in H.
    setoid_replace (inject_Z (num_comments p) / inject_Z (Z.max (score p) 1)
                    * inject_Z (Z.max (score p) 1))
      with (inject_Z (num_comments p)) in H by (field; lra).
    lra.
  - apply Qlt_shift_div_l; [exact Hd|lra].
Qed.

(** X18: the controversy level is [high] exactly when the post has more
    comments than [max(score, 1)]; a post of high controversy with a
    non-negative upvote ratio has a quality of at least 50. *)
Theorem high_controversy (p : post) :
  (controversy_level (analyze_engagement_sentiment p) = "high"%string
   <-> (Z.max (score p) 1 < num_comments p)%Z) /\
  (controversy_level (analyze_engagement_sentiment p) = "high"%string ->
   0 <= upvote_ratio p ->
   50 <= Engagement.calculate_engagement_quality p).
Proof.
  assert (Hiff : controversy_level (analyze_engagement_sentiment p)
                   = "high"%string
                 <-> (Z.max (score p) 1 < num_comments p)%Z).
  { rewrite <- controversy_ratio.
    unfold analyze_engagement_sentiment. simpl.
    destruct (Qgtb (inject_Z (num_comments p) / inject_Z (Z.max (score p) 1)) 1)
      eqn:E.
    - apply Qgtb_true in E. split; [intros _; exact E|reflexivity].
    - split; [discriminate|]. intros H. apply Qgtb_true in H. congruence. }
  split; [exact Hiff|].
  intros Hhigh Hu. apply Hiff, controversy_ratio in Hhigh.
  unfold Engagement.calculate_engagement_quality.
  set (ratio := inject_Z (num_comments p) / inject_Z (Z.max (score p) 1)) in *.
  rewrite Q.min_r by lra.
  apply Qle_shift_div_l; lra.
Qed.

Lemma high_controversy_witness :
  50 <= Engagement.calculate_engagement_quality
          (sample_post "t" 2 (1 # 2) 9 0).
Proof.
  destruct (high_controversy (sample_post "t" 2 (1 # 2) 9 0)) as [_ H].
  apply H; [reflexivity|]. simpl. discriminate.
Defined.

(** X19: the engagement label never falls when the upvote ratio rises:
    in the order negative, neutral, positive, very_positive the label of
    the post with the higher ratio is at least that of the other. *)
Theorem engagement_label_monotone (p p' : post) :
  upvote_ratio p <= upvote_ratio p' ->
  (label_rank (engagement_label (analyze_engagement_sentiment p))
   <= label_rank (engagement_label (analyze_engagement_sentiment p')))%nat.
Proof.
  intros H. unfold analyze_engagement_sentiment. simpl.
  destruct (Qgtb (upvote_ratio p) (85 # 100)) eqn:A1;
  destruct (Qgtb (upvote_ratio p') (85 # 100)) eqn:B1;
  destruct (Qgtb (upvote_ratio p) (70 # 100)) eqn:A2;
  destruct (Qgtb (upvote_ratio p') (70 # 100)) eqn:B2;
  destruct (Qgtb (upvote_ratio p) (55 # 100)) eqn:A3;
  destruct (Qgtb (upvote_ratio p') (55 # 100)) eqn:B3;
  cbn; try lia; exfalso;
  repeat match goal with
  | H : Qgtb _ _ = true |- _ => apply Qgtb_true in H
  | H : Qgtb _ _ = false |- _ =>
      unfold Qgtb in H; apply negb_false_iff in H; apply Qle_bool_iff in H
  end; lra.
Qed.

Lemma engagement_label_monotone_witness :
  (label_rank (engagement_label
                 (analyze_engagement_sentiment (sample_post "t" 1 (6 # 10) 0 0)))
   <= label_rank (engagement_label
                    (analyze_engagement_sentiment
                       (sample_post "t" 1 (9 # 10) 0 0))))%nat.
Proof.
  apply engagement_label_monotone. simpl. discriminate.
Defined.

End SentimentFacts.

(* ====================================================================== *)
(** * Properties of the topic extractor *)
(* ====================================================================== *)

Module TopicsFacts.

Import Collector Topics.
Local Open Scope nat_scope.

(** ** The counter *)

Lemma Counter_snoc (ws : list string) (w : string) :
  Counter (ws ++ [w]) = incr w (Counter ws).
Proof. unfold Counter. rewrite fold_left_app. reflexivity. Qed.

Lemma incr_keys_old (w : string) (c : counter) :
  In w (keys c) -> keys (incr w c) = keys c.
Proof.
  induction c as [|[k n] c IH]; simpl; intros H; [contradiction|].
  destruct (String.eqb_spec k w) as [E|N]; simpl; [reflexivity|].
  destruct H as [H|H]; [contradiction|]. rewrite IH; auto.
Qed.

Lemma incr_keys_new (w : string) (c : counter) :
  ~ In w (keys c) -> keys (incr w c) = keys c ++ [w].
Proof.
  induction c as [|[k n] c IH]; simpl; intros H; [reflexivity|].
  destruct (String.eqb_spec k w) as [E|N]; simpl.
  - exfalso. apply H. left. exact E.
  - rewrite IH; [reflexivity|]. intros Hin. apply H. right. exact Hin.
Qed.

Lemma get_incr_same (w : string) (c : counter) :
  get (incr w c) w = S (get c w).
Proof.
  induction c as [|[k n] c IH]; simpl.
  - rewrite String.eqb_refl. reflexivity.
  - destruct (String.eqb_spec k w) as [E|N]; simpl.
    + subst. rewrite String.eqb_refl. reflexivity.
    + apply String.eqb_neq in N. rewrite N. exact IH.
Qed.

Lemma get_incr_other (w x : string) (c : counter) :
  w <> x -> get (incr w c) x = get c x.
Proof.
  intros Hne. induction c as [|[k n] c IH]; simpl.
  - apply String.eqb_neq in Hne. rewrite Hne. reflexivity.
  - destruct (String.eqb_spec k w) as [E|N]; simpl.
    + subst. apply String.eqb_neq in Hne. rewrite Hne. reflexivity.
    + destruct (String.eqb k x); [reflexivity|exact IH].
Qed.

Lemma get_in (c : counter) (w : string) (n : nat) :
  NoDup (keys c) -> In (w, n) c -> get c w = n.
Proof.
  induction c as [|[k m] c IH]; simpl; intros Hnd Hin; [contradiction|].
  inversion Hnd as [|? ? Hk Hnd']; subst.
  destruct Hin as [E|Hin].
  - injection E as -> ->. rewrite String.eqb_refl. reflexivity.
  - destruct (String.eqb_spec k w) as [E|N].
    + subst. exfalso. apply Hk. apply (in_map fst) in Hin. exact Hin.
    + apply IH; assumption.
Qed.

(** The keys are the words, each once, and each count is the number of
    occurrences of its word. *)
Lemma Counter_keys (ws : list string) :
  NoDup (keys (Counter ws)) /\
  (forall w, In w (keys (Counter ws)) <-> In w ws) /\
  (forall w, get (Counter ws) w = count_occ string_dec ws w).
Proof.
  induction ws as [|w ws (Hnd & Hin & Hget)] using rev_ind.
  - split; [constructor|]. split; [reflexivity|reflexivity].
  - rewrite Counter_snoc.
    destruct (in_dec string_dec w (keys (Counter ws))) as [Hold|Hnew].
    + rewrite (incr_keys_old _ _ Hold).
      split; [exact Hnd|]. split.
      * intros x. rewrite in_app_iff, Hin. simpl.
        apply Hin in Hold. intuition (subst; auto).
      * intros x. rewrite count_occ_app. simpl.
        destruct (string_dec w x) as [E|N].
        -- subst. rewrite get_incr_same, Hget. lia.
        -- rewrite get_incr_other, Hget by assumption. lia.
    + rewrite (incr_keys_new _ _ Hnew).
      split.
      * apply NoDup_rev in Hnd. rewrite <- (rev_involutive (_ ++ _)).
        apply NoDup_rev. rewrite rev_app_distr. simpl.
        constructor; [rewrite <- in_rev; exact Hnew|exact Hnd].
      * split.
        -- intros x. rewrite !in_app_iff, Hin. reflexivity.
        -- intros x. rewrite count_occ_app. simpl.
           destruct (string_dec w x) as [E|N].
           ++ subst. rewrite get_incr_same, Hget. lia.
           ++ rewrite get_incr_other, Hget by assumption. lia.
Qed.

Lemma first_index_app (w x : string) (ws : list string) :
  In w ws -> first_index w (ws ++ [x]) = first_index w ws.
Proof.
  induction ws as [|y ws IH]; simpl; intros H; [contradiction|].
  destruct (String.eqb_spec y w) as [E|N]; [reflexivity|].
  destruct H as [H|H]; [contradiction|]. rewrite IH; auto.
Qed.

Lemma first_index_in (w : string) (ws : list string) :
  In w ws -> first_index w ws < List.length ws.
Proof.
  induction ws as [|y ws IH]; simpl; intros H; [contradiction|].
  destruct (String.eqb_spec y w) as [E|N]; [lia|].
  destruct H as [H|H]; [contradiction|]. apply IH in H. lia.
Qed.

Lemma first_index_new (w : string) (ws : list string) :
  ~ In w ws -> first_index w (ws ++ [w]) = List.length ws.
Proof.
  induction ws as [|y ws IH]; simpl; intros H.
  - rewrite String.eqb_refl. reflexivity.
  - destruct (String.eqb_spec y w) as [E|N].
    + exfalso. apply H. left. exact E.
    + rewrite IH; [reflexivity|]. intros Hin. apply H. right. exact Hin.
Qed.

(** The keys of the counter are in the order their words were first
    seen. *)
Lemma Counter_order (ws : list string) :
  StronglySorted (fun a b => first_index a ws < first_index b ws)
    (keys (Counter ws)).
Proof.
  induction ws as [|w ws IH] using rev_ind; [constructor|].
  destruct (Counter_keys ws) as (Hnd & Hin & _).
  assert (Hold : StronglySorted
            (fun a b => first_index a (ws ++ [w]) < first_index b (ws ++ [w]))
            (keys (Counter ws))).
  { revert IH. generalize (fun x => proj1 (Hin x)).
    generalize (keys (Counter ws)).
    induction l as [|k l IHl]; intros Hl Hs; [constructor|].
    inversion Hs as [|? ? Hs' Hall]; subst.
    constructor.
    - apply IHl; [intros x Hx; apply Hl; right; exact Hx|exact Hs'].
    - rewrite Forall_forall in *. intros x Hx.
      rewrite !first_index_app.
      + apply Hall, Hx.
      + apply Hl. right. exact Hx.
      + apply Hl. left. reflexivity. }
  rewrite Counter_snoc.
  destruct (in_dec string_dec w (keys (Counter ws))) as [Hk|Hk].
  - rewrite (incr_keys_old _ _ Hk). exact Hold.
  - rewrite (incr_keys_new _ _ Hk).
    assert (Hw : ~ In w ws) by (intros H; apply Hk, Hin, H).
    revert Hold. generalize (fun x => proj1 (Hin x)).
    generalize (keys (Counter ws)).
    induction l as [|k l IHl]; intros Hl Hs; simpl.
    + repeat constructor.
    + inversion Hs as [|? ? Hs' Hall]; subst.
      constructor.
      * apply IHl; [intros x Hx; apply Hl; right; exact Hx|exact Hs'].
      * apply Forall_app. split; [exact Hall|].
        constructor; [|constructor].
        rewrite first_index_new by exact Hw.
        rewrite first_index_app by (apply Hl; left; reflexivity).
        apply first_index_in. apply Hl. left. reflexivity.
Qed.

Lemma get_key (c : counter) (w : string) :
  In w (keys c) -> In (w, get c w) c.
Proof.
  induction c as [|[k n] c IH]; simpl; intros H; [contradiction|].
  destruct (String.eqb_spec k w) as [E|N].
  - left. subst. reflexivity.
  - destruct H as [H|H]; [contradiction|]. right. apply IH, H.
Qed.

Lemma strongly_sorted_map (A B : Type) (f : A -> B) (R : B -> B -> Prop)
    (l : list A) :
  StronglySorted R (map f l) ->
  StronglySorted (fun a b => R (f a) (f b)) l.
Proof.
  induction l as [|x l IH]; simpl; intros H; [constructor|].
  inversion H as [|? ? Hs Hall]; subst.
  constructor; [apply IH, Hs|].
  rewrite Forall_forall in *. intros y Hy. apply Hall, in_map, Hy.
Qed.

Lemma strongly_sorted_app (A : Type) (R : A -> A -> Prop) (l1 l2 : list A) :
  StronglySorted R (l1 ++ l2) ->
  forall a b, In a l1 -> In b l2 -> R a b.
Proof.
  induction l1 as [|x l1 IH]; simpl; intros H a b Ha Hb; [contradiction|].
  inversion H as [|? ? Hs Hall]; subst.
  destruct Ha as [<-|Ha].
  - rewrite Forall_forall in Hall. apply Hall, in_or_app. right. exact Hb.
  - apply IH; assumption.
Qed.

Lemma nodup_firstn (A : Type) (n : nat) (l : list A) :
  NoDup l -> NoDup (firstn n l).
Proof.
  intros H. rewrite <- (firstn_skipn n l) in H.
  apply NoDup_app_remove_r in H. exact H.
Qed.

(** ** The most common words *)

Section MostCommon.

Variable ws : list string.
Variable n : Z.

Let sorted : list (string * nat) := Py.sort more_common (Counter ws).

Lemma sorted_perm : Permutation (Counter ws) sorted.
Proof. apply PyFacts.sort_perm. Qed.

Lemma sorted_order : StronglySorted (precedes ws) sorted.
Proof.
  apply (@PyFacts.sort_stable _ snd
           (fun a b => first_index (fst a) ws < first_index (fst b) ws)).
  apply strongly_sorted_map with (f := fst)
    (R := fun a b => first_index a ws < first_index b ws).
  apply Counter_order.
Qed.

Lemma most_common_in (w : string) (k : nat) :
  In (w, k) (most_common n (Counter ws)) ->
  In w ws /\ k = count_occ string_dec ws w.
Proof.
  intros H. apply PyFacts.firstn_in in H.
  apply (Permutation_in _ (Permutation_sym sorted_perm)) in H.
  destruct (Counter_keys ws) as (Hnd & Hin & Hget).
  split.
  - apply Hin. apply (in_map fst) in H. exact H.
  - rewrite <- Hget. symmetry. apply get_in; assumption.
Qed.

Lemma most_common_nodup : NoDup (map fst (most_common n (Counter ws))).
Proof.
  unfold most_common. rewrite <- firstn_map. apply nodup_firstn.
  apply (Permutation_NoDup (Permutation_map fst sorted_perm)).
  apply Counter_keys.
Qed.

Lemma most_common_length :
  List.length (most_common n (Counter ws))
    = Nat.min (Z.to_nat n) (List.length (Counter ws)).
Proof.
  unfold most_common. rewrite length_firstn, PyFacts.sort_length.
  reflexivity.
Qed.

Lemma most_common_order :
  StronglySorted (precedes ws) (most_common n (Counter ws)).
Proof. apply PyFacts.firstn_strongly_sorted, sorted_order. Qed.

Lemma most_common_top (w : string) (a : string * nat) :
  In w ws -> ~ In w (map fst (most_common n (Counter ws))) ->
  In a (most_common n (Counter ws)) ->
  precedes ws a (w, count_occ string_dec ws w).
Proof.
  intros Hw Hout Ha.
  destruct (Counter_keys ws) as (Hnd & Hin & Hget).
  assert (Hitem : In (w, count_occ string_dec ws w) sorted).
  { apply (Permutation_in _ sorted_perm).
    rewrite <- Hget. apply get_key, Hin, Hw. }
  pose proof sorted_order as Hs.
  rewrite <- (firstn_skipn (Z.to_nat n) sorted) in Hs, Hitem.
  apply in_app_or in Hitem. destruct Hitem as [Hitem|Hitem].
  - exfalso. apply Hout. apply (in_map fst) in Hitem. exact Hitem.
  - eapply strongly_sorted_app; eauto.
Qed.

End MostCommon.

(** ** Tokens *)

Lemma alpha_is_word (c : ascii) : is_alpha c = true -> is_word c = true.
Proof. unfold is_word. intros ->. reflexivity. Qed.

Lemma nonword_not_alpha (c : ascii) : is_word c = false -> is_alpha c = false.
Proof.
  intros H. destruct (is_alpha c) eqn:E; [|reflexivity].
  apply alpha_is_word in E. congruence.
Qed.

Lemma alpha_at (s : list ascii) :
  forall n, n < alpha_prefix s -> word_at s n = true.
Proof.
  induction s as [|c s IH]; simpl; intros n Hn; [lia|].
  destruct (is_alpha c) eqn:E; [|lia].
  destruct n as [|n]; unfold word_at; simpl.
  - apply alpha_is_word, E.
  - apply IH. lia.
Qed.

Lemma word_at_prefix_end (s : list ascii) :
  word_at s (List.length (word_prefix s)) = false.
Proof.
  induction s as [|c s IH]; simpl; [reflexivity|].
  destruct (is_word c) eqn:E; simpl.
  - exact IH.
  - unfold word_at. simpl. exact E.
Qed.

Lemma word_at_prefix (s : list ascii) :
  forall n, n < List.length (word_prefix s) -> word_at s n = true.
Proof.
  induction s as [|c s IH]; simpl; intros n Hn; [lia|].
  destruct (is_word c) eqn:E; simpl in Hn; [|lia].
  destruct n as [|n]; unfold word_at; simpl; [exact E|].
  apply IH. lia.
Qed.

Lemma alpha_prefix_word (s : list ascii) :
  forallb is_alpha (word_prefix s) = true ->
  alpha_prefix s = List.length (word_prefix s).
Proof.
  induction s as [|c s IH]; simpl; [reflexivity|].
  destruct (is_word c) eqn:E; simpl.
  - intros H. apply andb_true_iff in H. destruct H as [-> H].
    rewrite IH; auto.
  - intros _. rewrite (nonword_not_alpha _ E). reflexivity.
Qed.

Lemma backtrack_some (s : list ascii) (k n : nat) :
  backtrack s k = Some n ->
  3 <= n /\ n <= k /\
  boundary (word_at s (n - 1)) (word_at s n) = true.
Proof.
  induction k as [|k IH]; simpl; [discriminate|].
  destruct k as [|[|k]]; try discriminate.
  destruct (boundary (word_at s (S (S k))) (word_at s (S (S (S k))))) eqn:B.
  - intros H. injection H as <-. simpl. rewrite B. repeat split; lia.
  - intros H. apply IH in H. destruct H as (H1 & H2 & H3).
    repeat split; try lia. exact H3.
Qed.

Lemma match_here_some (s : list ascii) (n : nat) :
  match_here s = Some n ->
  3 <= n /\ n <= alpha_prefix s /\ word_at s n = false.
Proof.
  unfold match_here. intros H. apply backtrack_some in H.
  destruct H as (H3 & Hle & Hb).
  repeat split; try assumption.
  rewrite (alpha_at s (n - 1)) in Hb by lia.
  unfold boundary in Hb. simpl in Hb. apply negb_true_iff in Hb. exact Hb.
Qed.

Lemma match_here_whole (s : list ascii) :
  whole_word (word_prefix s) = true ->
  match_here s = Some (List.length (word_prefix s)).
Proof.
  unfold whole_word, match_here. intros H.
  apply andb_true_iff in H. destruct H as [Hlen Hall].
  apply Nat.leb_le in Hlen.
  rewrite (alpha_prefix_word s Hall).
  destruct (List.length (word_prefix s)) as [|m] eqn:E; [lia|].
  simpl. destruct m as [|[|m]]; try lia.
  rewrite <- E, word_at_prefix_end.
  rewrite E, (word_at_prefix s (S (S m))) by lia.
  reflexivity.
Qed.

Lemma scan_nonword (b : bool) (c : ascii) (s : list ascii) :
  is_word c = false -> scan b 0 (c :: s) = scan false 0 s.
Proof.
  intros H. simpl. rewrite H.
  unfold match_here. simpl. rewrite (nonword_not_alpha _ H). simpl.
  destruct (boundary b false); reflexivity.
Qed.

Lemma run_tokens_nil (cur : list ascii) :
  run_tokens cur [] = if whole_word (rev cur) then [string_of_list_ascii (rev cur)]
                else [].
Proof. unfold run_tokens. simpl. destruct (whole_word (rev cur)); reflexivity. Qed.

Lemma run_tokens_word (cur : list ascii) (c : ascii) (s : list ascii) :
  is_word c = true -> run_tokens cur (c :: s) = run_tokens (c :: cur) s.
Proof. unfold run_tokens. simpl. intros ->. reflexivity. Qed.

Lemma run_tokens_nonword (cur : list ascii) (c : ascii) (s : list ascii) :
  is_word c = false ->
  run_tokens cur (c :: s)
    = (if whole_word (rev cur) then [string_of_list_ascii (rev cur)] else [])
      ++ run_tokens [] s.
Proof.
  unfold run_tokens. simpl. intros ->. simpl.
  destruct (whole_word (rev cur)); reflexivity.
Qed.

Section Step.

Variable N : nat.
Hypothesis scan_shorter :
  forall s : list ascii, List.length s < N -> scan false 0 s = run_tokens [] s.

(** Inside a run of word characters that is no token. *)
Lemma scan_unmatched (s : list ascii) :
  forall cur : list ascii,
  List.length s <= N ->
  whole_word (rev cur ++ word_prefix s) = false ->
  scan true 0 s = run_tokens cur s.
Proof.
  induction s as [|c s IH]; intros cur Hlen Hww.
  - simpl in Hww. rewrite app_nil_r in Hww.
    rewrite run_tokens_nil, Hww. reflexivity.
  - simpl in Hlen, Hww. destruct (is_word c) eqn:E.
    + rewrite run_tokens_word by exact E.
      rewrite <- (IH (c :: cur)).
      * simpl. rewrite E. reflexivity.
      * lia.
      * simpl. rewrite <- app_assoc. exact Hww.
    + rewrite app_nil_r in Hww.
      rewrite scan_nonword, run_tokens_nonword, Hww by exact E.
      apply scan_shorter. lia.
Qed.

(** Inside a match that has [k] more letters to cover. *)
Lemma scan_matched (k : nat) :
  forall (s cur : list ascii) (b : bool),
  List.length s <= N ->
  k <= alpha_prefix s -> word_at s k = false ->
  forallb is_alpha (rev cur) = true ->
  3 <= List.length (rev cur) + k ->
  string_of_list_ascii (rev cur ++ firstn k s) :: scan b k s = run_tokens cur s.
Proof.
  induction k as [|k IH]; intros s cur b Hlen Hk Hend Hcur H3.
  - assert (Hww : whole_word (rev cur) = true).
    { unfold whole_word. rewrite Hcur, andb_true_r. apply Nat.leb_le. lia. }
    simpl. rewrite app_nil_r.
    destruct s as [|c s].
    + rewrite run_tokens_nil, Hww. reflexivity.
    + unfold word_at in Hend. simpl in Hend.
      rewrite scan_nonword, run_tokens_nonword, Hww by exact Hend.
      simpl. f_equal. apply scan_shorter. simpl in Hlen. lia.
  - destruct s as [|c s]; [simpl in Hk; lia|].
    simpl in Hk, Hlen. destruct (is_alpha c) eqn:E; [|lia].
    rewrite run_tokens_word by (apply alpha_is_word, E).
    rewrite <- (IH s (c :: cur) (is_word c)).
    + simpl. rewrite <- app_assoc. reflexivity.
    + lia.
    + lia.
    + exact Hend.
    + simpl. rewrite forallb_app, Hcur. simpl. rewrite E. reflexivity.
    + simpl. rewrite length_app. simpl. lia.
Qed.

Lemma scan_step (s : list ascii) :
  List.length s <= N -> scan false 0 s = run_tokens [] s.
Proof.
  intros Hlen. destruct s as [|c s]; [reflexivity|].
  simpl in Hlen.
  destruct (is_word c) eqn:E.
  - rewrite run_tokens_word by exact E.
    change (scan false 0 (c :: s))
      with (if boundary false (is_word c)
            then match match_here (c :: s) with
                 | Some n => string_of_list_ascii (firstn n (c :: s))
                               :: scan (is_word c) (n - 1) s
                 | None => scan (is_word c) 0 s
                 end
            else scan (is_word c) 0 s).
    rewrite E. simpl boundary. cbv iota.
    destruct (match_here (c :: s)) as [n|] eqn:M.
    + apply match_here_some in M. destruct M as (H3 & Hle & Hend).
      destruct n as [|n]; [lia|].
      simpl in Hle. destruct (is_alpha c) eqn:A; [|lia].
      replace (S n - 1) with n by lia.
      apply (scan_matched n s [c] true).
      * lia.
      * lia.
      * exact Hend.
      * simpl. rewrite A. reflexivity.
      * simpl. lia.
    + apply scan_unmatched; [lia|].
      destruct (whole_word (rev [c] ++ word_prefix s)) eqn:W; [|reflexivity].
      assert (Hw : word_prefix (c :: s) = rev [c] ++ word_prefix s)
        by (simpl; rewrite E; reflexivity).
      rewrite <- Hw in W. apply match_here_whole in W. congruence.
  - rewrite scan_nonword, run_tokens_nonword by exact E.
    simpl. apply scan_shorter. lia.
Qed.

End Step.

Lemma scan_runs (s : list ascii) : scan false 0 s = run_tokens [] s.
Proof.
  assert (H : forall n (s : list ascii),
             List.length s < n -> scan false 0 s = run_tokens [] s).
  { induction n as [|n IH]; intros s' Hs; [lia|].
    apply (scan_step n IH). lia. }
  apply (H (S (List.length s))). lia.
Qed.

(** The tokens are the runs of word characters that are alphabetic and at
    least three characters long. *)
Lemma findall_alpha_words (text : string) : findall text = alpha_words text.
Proof. apply scan_runs. Qed.

(** ** The shape of the tokens *)

Lemma runs_chars (p : ascii -> bool) (s : list ascii) :
  forall (cur r : list ascii) (c : ascii),
  In r (runs p cur s) -> In c r -> In c cur \/ In c s.
Proof.
  induction s as [|x s IH]; simpl; intros cur r c Hr Hc.
  - destruct Hr as [<-|[]]. left. apply in_rev, Hc.
  - destruct (p x).
    + destruct (IH _ _ _ Hr Hc) as [[<-|H]|H]; auto.
    + destruct Hr as [<-|Hr].
      * left. apply in_rev, Hc.
      * destruct (IH _ _ _ Hr Hc) as [[]|H]; auto.
Qed.

Lemma runs_all (p : ascii -> bool) (s : list ascii) :
  forall cur : list ascii,
  forallb p cur = true -> Forall (fun r => forallb p r = true) (runs p cur s).
Proof.
  induction s as [|x s IH]; simpl; intros cur Hcur.
  - constructor; [|constructor].
    rewrite forallb_forall in *. intros c Hc. apply Hcur, in_rev, Hc.
  - destruct (p x) eqn:E.
    + apply IH. simpl. rewrite E, Hcur. reflexivity.
    + constructor; [|apply IH; reflexivity].
      rewrite forallb_forall in *. intros c Hc. apply Hcur, in_rev, Hc.
Qed.

Lemma runs_ext (p q : ascii -> bool) (s : list ascii) :
  (forall c, In c s -> p c = q c) ->
  forall cur, runs p cur s = runs q cur s.
Proof.
  induction s as [|x s IH]; simpl; intros Hpq cur; [reflexivity|].
  rewrite <- (Hpq x) by auto.
  destruct (p x); rewrite IH; auto.
Qed.

Lemma string_length_of_list (l : list ascii) :
  String.length (string_of_list_ascii l) = List.length l.
Proof. induction l as [|c l IH]; simpl; congruence. Qed.

Lemma lower_char_not_upper (c : ascii) : is_upper (lower_char c) = false.
Proof. destruct c as [[] [] [] [] [] [] [] []]; reflexivity. Qed.

Lemma lower_char_word (c : ascii) :
  (is_word c = true -> is_alpha c = true) ->
  is_word (lower_char c) = is_alpha (lower_char c).
Proof.
  destruct c as [[] [] [] [] [] [] [] []]; intros H;
    try reflexivity; specialize (H eq_refl); discriminate H.
Qed.

Lemma alpha_not_upper (c : ascii) :
  is_alpha c = true -> is_upper c = false -> is_lower c = true.
Proof.
  unfold is_alpha. intros H Hu. rewrite Hu, orb_false_r in H. exact H.
Qed.

Lemma lower_chars (text : string) (c : ascii) :
  In c (list_ascii_of_string (lower text)) ->
  exists c0, In c0 (list_ascii_of_string text) /\ c = lower_char c0.
Proof.
  unfold lower. rewrite list_ascii_of_string_of_list_ascii.
  intros H. apply in_map_iff in H. destruct H as (c0 & <- & H).
  exists c0. split; [exact H|reflexivity].
Qed.

(** Every token of a lowered text is made of at least three lower-case
    letters. *)
Lemma findall_lower (text : string) :
  Forall (fun w => 3 <= String.length w /\
                   forallb is_lower (list_ascii_of_string w) = true)
    (findall (lower text)).
Proof.
  rewrite findall_alpha_words. unfold alpha_words.
  apply Forall_forall. intros w Hw.
  apply in_map_iff in Hw. destruct Hw as (r & <- & Hr).
  apply filter_In in Hr. destruct Hr as [Hr Hww].
  unfold whole_word in Hww. apply andb_true_iff in Hww.
  destruct Hww as [Hlen Hall]. apply Nat.leb_le in Hlen.
  rewrite string_length_of_list, list_ascii_of_string_of_list_ascii.
  split; [exact Hlen|].
  rewrite forallb_forall in *. intros c Hc.
  apply alpha_not_upper; [apply Hall, Hc|].
  destruct (runs_chars _ _ _ _ _ Hr Hc) as [[]|Hin].
  apply lower_chars in Hin. destruct Hin as (c0 & _ & ->).
  apply lower_char_not_upper.
Qed.

(** On a text whose word characters are all letters of ASCII (no digit,
    no underscore, no letter or digit from 128 on) the tokens are the
    alphabetic runs of length at least three. *)
Lemma findall_alpha_runs (text : string) :
  (forall c, In c (list_ascii_of_string text) ->
             is_word c = true -> is_alpha c = true) ->
  findall (lower text) = alpha_runs (lower text).
Proof.
  intros Hplain. rewrite findall_alpha_words. unfold alpha_words, alpha_runs.
  f_equal.
  rewrite (runs_ext is_word is_alpha).
  - pose proof (runs_all is_alpha (list_ascii_of_string (lower text)) []
                  eq_refl) as Hall.
    induction Hall as [|r l Hr Hl IH]; simpl; [reflexivity|].
    unfold whole_word at 1. rewrite Hr, andb_true_r, IH. reflexivity.
  - intros c Hc. apply lower_chars in Hc. destruct Hc as (c0 & Hc0 & ->).
    apply lower_char_word, Hplain, Hc0.
Qed.

Lemma mem_in (w : string) (l : list string) : mem w l = true <-> In w l.
Proof.
  unfold mem. rewrite existsb_exists. split.
  - intros (x & Hx & E). apply String.eqb_eq in E. subst. exact Hx.
  - intros H. exists w. split; [exact H|apply String.eqb_refl].
Qed.

(** ** The keywords *)

Example findall_whole_words :
  findall "python3 tips foo_bar abc ab abcd"
    = ["tips"; "abc"; "abcd"]%string.
Proof. reflexivity. Qed.

Example keywords_five :
  extract_keywords
    [titled "Best Python tips"; titled "Python tips and tricks";
     titled "Best practices"] 20
    = [("best"%string, 2); ("python"%string, 2); ("tips"%string, 2);
       ("tricks"%string, 1); ("practices"%string, 1)].
Proof. reflexivity. Qed.


(** A title with a letter from beyond ASCII, U+00E9: the letter is a word
    character and no member of [[a-zA-Z]], so the run it ends is no
    token. *)
Example extract_keywords_accent :
  extract_keywords
    [titled ("Caf" ++ String (ascii_of_nat 233) " tips")%string] 3
    = [("tips"%string, 1)].
Proof. reflexivity. Qed.

(** C8, as the code has it.  The words counted are the tokens of the
    lowered titles joined by spaces without the stop words; the tokens are
    the runs of word characters that consist of at least three letters of
    ASCII (an alphabetic run next to a digit, an underscore or a letter
    from beyond ASCII is no token), so every word counted is made of at
    least three lower-case letters and is no stop word.  Every pair
    returned is a counted word with the number of its occurrences, no word
    is returned twice, [top_n] pairs are returned (all of them if there
    are fewer), in the order of decreasing count with equal counts in the
    order the words were first seen, and every pair returned comes in that
    order before every word left out.  When the titles hold no word
    character but the letters of ASCII the tokens are the alphabetic runs
    of length at least three.  For the titles [Best Python tips],
    [Python tips and tricks], [Best practices] and [top_n = 3] the result
    is [best: 2, python: 2, tips: 2]. *)
Theorem extract_keywords_top (posts : list post) (top_n : Z) :
  keywords posts
    = filter (fun w => negb (mem w STOP_WORDS))
        (alpha_words (lower (String.concat " " (map title posts)))) /\
  Forall (fun w => 3 <= String.length w /\
                   forallb is_lower (list_ascii_of_string w) = true /\
                   ~ In w STOP_WORDS)
    (keywords posts) /\
  (forall (w : string) (k : nat),
     In (w, k) (extract_keywords posts top_n) ->
     In w (keywords posts) /\
     k = count_occ string_dec (keywords posts) w) /\
  NoDup (map fst (extract_keywords posts top_n)) /\
  List.length (extract_keywords posts top_n)
    = Nat.min (Z.to_nat top_n) (List.length (Counter (keywords posts))) /\
  StronglySorted (precedes (keywords posts)) (extract_keywords posts top_n) /\
  (forall (w : string) (a : string * nat),
     In w (keywords posts) ->
     ~ In w (map fst (extract_keywords posts top_n)) ->
     In a (extract_keywords posts top_n) ->
     precedes (keywords posts) a
       (w, count_occ string_dec (keywords posts) w)) /\
  ((forall c : ascii,
      In c (list_ascii_of_string (String.concat " " (map title posts))) ->
      is_word c = true -> is_alpha c = true) ->
   extract_keywords posts top_n = extract_keywords_by_runs posts top_n) /\
  extract_keywords
    [titled "Best Python tips"; titled "Python tips and tricks";
     titled "Best practices"] 3
    = [("best"%string, 2); ("python"%string, 2); ("tips"%string, 2)].
Proof.
  split.
  { unfold keywords. rewrite findall_alpha_words. reflexivity. }
  split.
  { unfold keywords. apply Forall_forall. intros w Hw.
    apply filter_In in Hw. destruct Hw as [Hw Hstop].
    pose proof (findall_lower (String.concat " " (map title posts))) as Hall.
    rewrite Forall_forall in Hall. destruct (Hall w Hw) as [Hlen Hlow].
    split; [exact Hlen|]. split; [exact Hlow|].
    intros Hin. apply mem_in in Hin. rewrite Hin in Hstop. discriminate. }
  split; [intros w k; apply most_common_in|].
  split; [apply most_common_nodup|].
  split; [apply most_common_length|].
  split; [apply most_common_order|].
  split; [intros w a; apply most_common_top|].
  split; [|reflexivity].
  intros Hplain. unfold extract_keywords, extract_keywords_by_runs, keywords.
  rewrite (findall_alpha_runs _ Hplain). reflexivity.
Qed.

Lemma extract_keywords_top_witness :
  extract_keywords [titled "Best tips"; titled "Best practices"] 1
    = extract_keywords_by_runs [titled "Best tips"; titled "Best practices"] 1
  /\ (In "best"%string (keywords [titled "Best tips"; titled "Best practices"])
      /\ 2 = count_occ string_dec
               (keywords [titled "Best tips"; titled "Best practices"])
               "best"%string).
Proof.
  destruct (extract_keywords_top
              [titled "Best tips"; titled "Best practices"] 1)
    as (_ & _ & Hin & _ & _ & _ & _ & Hruns & _).
  split.
  - apply Hruns. simpl. intros c H.
    repeat (destruct H as [<-|H];
            [intros Hw; try reflexivity; discriminate Hw|]).
    contradiction.
  - apply (Hin "best"%string 2). simpl. left. reflexivity.
Defined.

(** The statement of C8 for the title [Python3 tips]: the alphabetic runs
    of length at least three are [python] and [tips], but [python] is
    followed by a digit and is no token. *)
Lemma extract_keywords_digit :
  extract_keywords [titled "Python3 tips"] 3 = [("tips"%string, 1)] /\
  extract_keywords_by_runs [titled "Python3 tips"] 3
    = [("python"%string, 1); ("tips"%string, 1)] /\
  extract_keywords [titled "Python3 tips"] 3
    <> extract_keywords_by_runs [titled "Python3 tips"] 3.
Proof.
  split; [reflexivity|]. split; [reflexivity|].
  intros H. vm_compute in H. discriminate H.
Qed.

(** ** Flairs *)

Lemma flairs_in (posts : list post) (f : string) :
  In f (flairs posts) <->
  f <> EmptyString /\ exists p, In p posts /\ flair p = Some f.
Proof.
  induction posts as [|p posts IH]; simpl.
  - split; [contradiction|]. intros (_ & q & [] & _).
  - unfold has_flair. destruct (flair p) as [g|] eqn:E.
    + destruct (String.eqb_spec g EmptyString) as [Eg|Ng]; simpl.
      * rewrite IH. split.
        -- intros (Hf & q & Hq & Hfl). split; [exact Hf|]. exists q. auto.
        -- intros (Hf & q & [<-|Hq] & Hfl).
           ++ exfalso. rewrite E in Hfl. injection Hfl as <-. auto.
           ++ split; [exact Hf|]. exists q. auto.
      * rewrite IH. split.
        -- intros [<-|(Hf & q & Hq & Hfl)].
           ++ split; [exact Ng|]. exists p. auto.
           ++ split; [exact Hf|]. exists q. auto.
        -- intros (Hf & q & [<-|Hq] & Hfl).
           ++ left. rewrite E in Hfl. injection Hfl as <-. reflexivity.
           ++ right. split; [exact Hf|]. exists q. auto.
    + rewrite IH. split.
      * intros (Hf & q & Hq & Hfl). split; [exact Hf|]. exists q. auto.
      * intros (Hf & q & [<-|Hq] & Hfl); [congruence|].
        split; [exact Hf|]. exists q. auto.
Qed.

Lemma flairs_count (posts : list post) (f : string) :
  f <> EmptyString ->
  count_occ string_dec (flairs posts) f = List.length (with_flair f posts).
Proof.
  intros Hf. induction posts as [|p posts IH]; simpl; [reflexivity|].
  unfold has_flair. destruct (flair p) as [g|] eqn:E; [|exact IH].
  destruct (String.eqb_spec g EmptyString) as [Eg|Ng]; simpl.
  - destruct (String.eqb_spec g f) as [Egf|_]; [congruence|exact IH].
  - destruct (string_dec g f) as [Egf|Ngf].
    + apply String.eqb_eq in Egf. rewrite Egf. simpl. rewrite IH. reflexivity.
    + apply String.eqb_neq in Ngf. rewrite Ngf. exact IH.
Qed.

(** X20: every pair [extract_trending_flairs] returns is a flair that is
    not empty with the number of posts that carry it (at least one); no
    flair is returned twice; [top_n] pairs are returned (all if there are
    fewer), by decreasing count with equal counts in the order the flairs
    were first seen, and every pair returned comes in that order before
    every flair left out. *)
Theorem trending_flairs (posts : list post) (top_n : Z) :
  (forall (f : string) (k : nat),
     In (f, k) (extract_trending_flairs posts top_n) ->
     f <> EmptyString /\ k = List.length (with_flair f posts) /\ 1 <= k) /\
  NoDup (map fst (extract_trending_flairs posts top_n)) /\
  List.length (extract_trending_flairs posts top_n)
    = Nat.min (Z.to_nat top_n) (List.length (Counter (flairs posts))) /\
  StronglySorted (precedes (flairs posts))
    (extract_trending_flairs posts top_n) /\
  (forall (f : string) (a : string * nat),
     In f (flairs posts) ->
     ~ In f (map fst (extract_trending_flairs posts top_n)) ->
     In a (extract_trending_flairs posts top_n) ->
     precedes (flairs posts) a (f, List.length (with_flair f posts))).
Proof.
  unfold extract_trending_flairs.
  split.
  { intros f k Hin. apply (most_common_in (flairs posts) top_n) in Hin.
    destruct Hin as [Hf ->].
    pose proof (proj1 (flairs_in posts f) Hf) as [Hne _].
    split; [exact Hne|]. split; [apply flairs_count, Hne|].
    apply (count_occ_In string_dec) in Hf. lia. }
  split; [apply most_common_nodup|].
  split; [apply most_common_length|].
  split; [apply most_common_order|].
  intros f a Hf Hout Ha.
  rewrite <- flairs_count by (apply (flairs_in posts f), Hf).
  apply (most_common_top (flairs posts) top_n); assumption.
Qed.

Lemma trending_flairs_witness :
  "Help"%string <> EmptyString /\
  1 = List.length
        (with_flair "Help"
           [mkPost EmptyString "a" EmptyString EmptyString EmptyString 0 0 0 0
              EmptyString EmptyString EmptyString (Some "Help"%string) 0
              false false true EmptyString;
            sample_post "b" 0 0 0 0]) /\
  1 <= 1.
Proof.
  destruct (trending_flairs
              [mkPost EmptyString "a" EmptyString EmptyString EmptyString 0 0
                 0 0 EmptyString EmptyString EmptyString (Some "Help"%string)
                 0 false false true EmptyString;
               sample_post "b" 0 0 0 0] 5) as (H & _).
  apply (H "Help"%string 1). simpl. left. reflexivity.
Defined.

(** ** The posts of highest quality *)

Lemma higher_quality_total (a b : scored_post) :
  higher_quality a b = true \/ higher_quality b a = true.
Proof.
  unfold higher_quality.
  destruct (Qlt_le_dec (quality_score a) (quality_score b)) as [H|H].
  - right. apply Qle_bool_iff, Qlt_le_weak, H.
  - left. apply Qle_bool_iff, H.
Qed.

Lemma ranking_sorted (l : list scored_post) :
  StronglySorted (fun a b => (quality_score b <= quality_score a)%Q)
    (Py.sort higher_quality l).
Proof.
  apply Sorted_StronglySorted.
  - intros x y z Hxy Hyz. eapply Qle_trans; eauto.
  - pose proof (PyFacts.sort_sorted higher_quality higher_quality_total l)
      as H.
    eapply Sorted_ind with (P := Sorted _); [constructor| |exact H].
    intros a l0 _ IH Hhd. constructor; [exact IH|].
    destruct Hhd; constructor. apply Qle_bool_iff. assumption.
Qed.

(** X21: [get_top_posts_by_engagement] returns posts of the input, each
    with its quality, in the order of decreasing quality, and no post left
    out has a higher quality than one returned; it returns
    [min(top_n, number of posts)] posts for [top_n >= 0], and for a
    negative [top_n] all but the last [-top_n] of the ranking. *)
Theorem top_posts_by_engagement (posts : list post) (top_n : Z) :
  exists rest : list scored_post,
    Permutation (map scored posts)
      (get_top_posts_by_engagement posts top_n ++ rest) /\
    StronglySorted (fun a b => (quality_score b <= quality_score a)%Q)
      (get_top_posts_by_engagement posts top_n) /\
    (forall a b, In a (get_top_posts_by_engagement posts top_n) ->
                 In b rest -> (quality_score b <= quality_score a)%Q) /\
    ((0 <= top_n)%Z ->
     List.length (get_top_posts_by_engagement posts top_n)
       = Nat.min (Z.to_nat top_n) (List.length posts)) /\
    ((top_n < 0)%Z ->
     List.length (get_top_posts_by_engagement posts top_n)
       = List.length posts - Z.to_nat (- top_n)).
Proof.
  unfold get_top_posts_by_engagement. fold scored.
  set (ranking := Py.sort higher_quality (map scored posts)).
  assert (Hlen : List.length ranking = List.length posts).
  { unfold ranking. rewrite PyFacts.sort_length, length_map. reflexivity. }
  destruct (@PyFacts.slice_to_firstn _ top_n ranking) as (k & -> & Hpos & Hneg).
  exists (skipn k ranking).
  rewrite firstn_skipn.
  split; [apply PyFacts.sort_perm|].
  split; [apply PyFacts.firstn_strongly_sorted, ranking_sorted|].
  split.
  { intros a b Ha Hb.
    apply (@PyFacts.strongly_sorted_split _
             (fun a b => (quality_score b <= quality_score a)%Q)
             (firstn k ranking) (skipn k ranking)); try assumption.
    rewrite firstn_skipn. apply ranking_sorted. }
  split.
  - intros H. rewrite length_firstn, Hlen, (Hpos H). reflexivity.
  - intros H. rewrite length_firstn, Hlen, (Hneg H), Hlen. lia.
Qed.

Lemma top_posts_by_engagement_witness :
  List.length
    (get_top_posts_by_engagement
       [sample_post "a" 1 1 0 0; sample_post "b" 1 1 5 0;
        sample_post "c" 1 0 0 0] (-1))
  = 2.
Proof.
  destruct (top_posts_by_engagement
              [sample_post "a" 1 1 0 0; sample_post "b" 1 1 5 0;
               sample_post "c" 1 0 0 0] (-1)) as (rest & _ & _ & _ & _ & H).
  apply H. lia.
Defined.

(** ** All the keywords *)

Lemma list_sum_perm (l l' : list nat) :
  Permutation l l' -> list_sum l = list_sum l'.
Proof.
  induction 1; simpl; lia.
Qed.

Lemma incr_total (w : string) (c : counter) :
  list_sum (map snd (incr w c)) = S (list_sum (map snd c)).
Proof.
  induction c as [|[k n] c IH]; simpl; [reflexivity|].
  destruct (String.eqb k w); simpl; [reflexivity|]. rewrite IH. lia.
Qed.

Lemma Counter_total (ws : list string) :
  list_sum (map snd (Counter ws)) = List.length ws.
Proof.
  induction ws as [|w ws IH] using rev_ind; [reflexivity|].
  rewrite Counter_snoc, incr_total, IH, length_app. simpl. lia.
Qed.

Lemma list_sum_firstn (n : nat) (l : list nat) :
  list_sum (firstn n l) <= list_sum l.
Proof.
  revert n. induction l as [|x l IH]; intros [|n]; simpl; try lia.
  specialize (IH n). lia.
Qed.

(** X22: the counts [extract_keywords] returns never add up to more than
    the number of keywords in the titles; when [top_n] is at least the
    number of distinct keywords they add up to exactly that number and
    every keyword is returned. *)
Theorem keyword_counts_add_up (posts : list post) (top_n : Z) :
  list_sum (map snd (extract_keywords posts top_n))
    <= List.length (keywords posts) /\
  ((Z.of_nat (List.length (Counter (keywords posts))) <= top_n)%Z ->
   list_sum (map snd (extract_keywords posts top_n))
     = List.length (keywords posts) /\
   forall w, In w (keywords posts) ->
             In w (map fst (extract_keywords posts top_n))).
Proof.
  unfold extract_keywords, most_common.
  set (ws := keywords posts).
  assert (Hperm : Permutation (Counter ws) (Py.sort more_common (Counter ws)))
    by apply PyFacts.sort_perm.
  assert (Htotal : list_sum (map snd (Py.sort more_common (Counter ws)))
                   = List.length ws).
  { rewrite <- (list_sum_perm _ _ (Permutation_map snd Hperm)).
    apply Counter_total. }
  split.
  - rewrite <- Htotal, <- firstn_map. apply list_sum_firstn.
  - intros Hall.
    rewrite firstn_all2
      by (rewrite PyFacts.sort_length; lia).
    split; [exact Htotal|].
    intros w Hw.
    apply (Permutation_in w (Permutation_map fst Hperm)).
    apply (Counter_keys ws), Hw.
Qed.

Lemma keyword_counts_add_up_witness :
  list_sum (map snd (extract_keywords
                       [titled "Best tips"; titled "Best practices"] 5))
  = List.length (keywords [titled "Best tips"; titled "Best practices"]).
Proof.
  destruct (keyword_counts_add_up
              [titled "Best tips"; titled "Best practices"] 5) as [_ H].
  assert (Hall : (Z.of_nat
                    (List.length
                       (Counter
                          (keywords
                             [titled "Best tips"; titled "Best practices"])))
                  <= 5)%Z)
    by (vm_compute; discriminate).
  destruct (H Hall) as [Hsum _]. exact Hsum.
Defined.

(** ** Case *)

Lemma lower_cons (c : ascii) (s : string) :
  lower (String c s) = String (lower_char c) (lower s).
Proof. reflexivity. Qed.

Lemma lower_append (a b : string) :
  lower (a ++ b) = (lower a ++ lower b)%string.
Proof.
  induction a as [|c a IH]; [reflexivity|].
  simpl String.append. rewrite !lower_cons, IH. reflexivity.
Qed.

Lemma lower_concat (l : list string) :
  lower (String.concat " " l) = String.concat " " (map lower l).
Proof.
  induction l as [|a l IH]; [reflexivity|].
  destruct l as [|b l]; [reflexivity|].
  change (String.concat " " (a :: b :: l))
    with (a ++ " " ++ String.concat " " (b :: l))%string.
  rewrite !lower_append, IH. reflexivity.
Qed.

(** X23: [extract_keywords] does not depend on the case of the titles:
    two lists of posts whose titles agree once lowered give the same
    result. *)
Theorem keywords_ignore_case (posts posts' : list post) (top_n : Z) :
  map (fun p => lower (title p)) posts
    = map (fun p => lower (title p)) posts' ->
  extract_keywords posts top_n = extract_keywords posts' top_n.
Proof.
  intros H. unfold extract_keywords, keywords.
  rewrite !lower_concat, !map_map, H. reflexivity.
Qed.

Lemma keywords_ignore_case_witness :
  extract_keywords [titled "BEST Python Tips"] 3
  = extract_keywords [titled "best python tips"] 3.
Proof.
  apply keywords_ignore_case. reflexivity.
Defined.

End TopicsFacts.
